(** * github-copilot-proxies: chunking, embedding, chat rewriting and startup

    A shallow embedding of
      - [internal/controller/copilot/chunks.go]  (SplitIntoChunks, createChunk,
        extractPlainText, GenerateEmbeddings and its serial and parallel paths),
      - the embedding client's [GetEmbedding],
      - [ChatCompletions] of the chat controller, over parsed JSON trees,
      - the listener start-up sequence of [main] and [initDefaultEnv],
      - the token middleware ([TokenCheckAuth], [parseAuthorizationToken],
        [isExpired]),
      - [NewEmbeddingClient], [NewChunkService] and [HandleChunks].

    Go strings are byte sequences: [list ascii].  Go [int] is a 64-bit
    signed integer: [Z], wrapped with [wrap64] wherever a value taken from
    the configuration enters an arithmetic operation.  Lengths of strings
    held in memory are below 2^63, so sums of lengths are left unwrapped. *)

From Stdlib Require Import ZArith Lia Ascii String List.
From Stdlib Require DecimalNat.
From stdpp Require Import base list strings gmap.
Import ListNotations.

Local Open Scope Z_scope.

(** ** Go runtime and standard library *)

Abbreviation gostring := (list ascii).

(** A string literal of the source. *)
Definition str (s : string) : gostring := list_ascii_of_string s.

(** [len] of a string or slice, as a Go [int]. *)
Definition len {A : Type} (l : list A) : Z := Z.of_nat (length l).

(** Two's complement wrap-around of 64-bit [int] arithmetic. *)
Definition wrap64 (z : Z) : Z := (z + 2 ^ 63) mod 2 ^ 64 - 2 ^ 63.

Definition MinInt64 : Z := - 2 ^ 63.
Definition MaxInt64 : Z := 2 ^ 63 - 1.

Inductive panic : Type :=
| DivideByZero
| MakesliceCapOutOfRange
| IndexOutOfRange (index : Z) (length : Z).

(** A computation that either panics or returns. *)
Inductive result (A : Type) : Type :=
| Panics (p : panic)
| Returns (a : A).
Arguments Panics {A} p.
Arguments Returns {A} a.

(** The process environment.  [os.Getenv] yields the empty string for an
    unset variable. *)
Definition Env : Type := string -> gostring.
Definition Getenv (env : Env) (key : string) : gostring := env key.

Definition nl : ascii := ascii_of_nat 10.

Definition eqs (a b : gostring) : bool := bool_decide (a = b).

(** strconv.Atoi: an optional sign followed by one or more decimal digits,
    and a value that fits [int]; anything else is an error. *)
Definition digit (c : ascii) : option Z :=
  let n := Z.of_nat (nat_of_ascii c) in
  if (48 <=? n) && (n <=? 57) then Some (n - 48) else None.

Fixpoint parseDigits (acc : Z) (s : gostring) : option Z :=
  match s with
  | [] => Some acc
  | c :: r =>
      match digit c with
      | Some d => parseDigits (acc * 10 + d) r
      | None => None
      end
  end.

Definition Atoi (s : gostring) : option Z :=
  match s with
  | [] => None
  | c :: r =>
      let '(neg, ds) :=
        if Ascii.eqb c "-"%char then (true, r)
        else if Ascii.eqb c "+"%char then (false, r)
        else (false, s) in
      match ds with
      | [] => None
      | _ =>
          match parseDigits 0 ds with
          | Some n =>
              let z := if neg : bool then - n else n in
              if (MinInt64 <=? z) && (z <=? MaxInt64) then Some z else None
          | None => None
          end
      end
  end.

(** What strconv.Atoi returns when its error is discarded, as in
    [v, _ := strconv.Atoi(s)].  Atoi is ParseInt(s, 10, 0) with a 64-bit
    int (its fast path for short strings gives the same value and error).
    [ParseUint n s] is the loop of strconv.ParseUint over the bytes [s]
    that remain, [n] being the value read so far: it stops at the first
    byte that is not a digit (a syntax error, with value 0) or at the
    first digit with which the value leaves uint64 (a range error); the
    empty string is rejected by the caller.  ParseInt then turns a
    magnitude out of the range of int64 into MaxInt64 or MinInt64, again
    with a range error. *)
Inductive NumError : Type := ErrSyntax | ErrRange.

Definition maxUint64 : Z := 2 ^ 64 - 1.

Fixpoint ParseUint (n : Z) (s : gostring) : NumError + Z :=
  match s with
  | [] => inr n
  | c :: r =>
      match digit c with
      | None => inl ErrSyntax
      | Some d =>
          if n >=? maxUint64 / 10 + 1 then inl ErrRange
          else
            let n1 := n * 10 + d in
            if n1 >? maxUint64 then inl ErrRange else ParseUint n1 r
      end
  end.

Definition ParseInt (s : gostring) : Z * option NumError :=
  match s with
  | [] => (0, Some ErrSyntax)
  | c :: r =>
      let '(neg, ds) :=
        if Ascii.eqb c "+"%char then (false, r)
        else if Ascii.eqb c "-"%char then (true, r)
        else (false, s) in
      match ds with
      | [] => (0, Some ErrSyntax)
      | _ =>
          match ParseUint 0 ds with
          | inl ErrSyntax => (0, Some ErrSyntax)
          | inl ErrRange =>
              (if neg : bool then MinInt64 else MaxInt64, Some ErrRange)
          | inr un =>
              if negb neg && (un >=? 2 ^ 63) then (MaxInt64, Some ErrRange)
              else if (neg : bool) && (un >? 2 ^ 63)
              then (MinInt64, Some ErrRange)
              else (if neg : bool then - un else un, None)
          end
      end
  end.

Definition AtoiValue (s : gostring) : Z := fst (ParseInt s).

(** strings.HasPrefix, strings.HasSuffix, strings.TrimPrefix,
    strings.TrimSuffix. *)
Fixpoint HasPrefix (s prefix : gostring) {struct prefix} : bool :=
  match prefix, s with
  | [], _ => true
  | p :: ps, c :: cs => Ascii.eqb c p && HasPrefix cs ps
  | _ :: _, [] => false
  end.

Definition HasSuffix (s suffix : gostring) : bool :=
  HasPrefix (rev s) (rev suffix).

Definition TrimPrefix (s prefix : gostring) : gostring :=
  if HasPrefix s prefix then drop (length prefix) s else s.

Definition TrimSuffix (s suffix : gostring) : gostring :=
  if HasSuffix s suffix then take (length s - length suffix)%nat s else s.

(** strings.Index: the offset of the first occurrence, or -1. *)
Fixpoint Index (s substr : gostring) : Z :=
  if HasPrefix s substr then 0
  else
    match s with
    | [] => -1
    | _ :: r => let i := Index r substr in if i <? 0 then -1 else i + 1
    end.

Definition Contains (s substr : gostring) : bool := 0 <=? Index s substr.

(** strings.Split(s, sep) for a one-byte separator. *)
Fixpoint Split (s : gostring) (sep : ascii) : list gostring :=
  match s with
  | [] => [[]]
  | c :: r =>
      if Ascii.eqb c sep then [] :: Split r sep
      else
        match Split r sep with
        | h :: t => (c :: h) :: t
        | [] => [[c]]
        end
  end.

(** fmt.Sprintf("%x", b) on a byte array: two lower-case hex digits a byte. *)
Definition hexDigit (n : nat) : ascii :=
  nth n (str "0123456789abcdef") "0"%char.

Definition hex (b : gostring) : gostring :=
  flat_map (fun c => let n := nat_of_ascii c in
                     [hexDigit (n / 16); hexDigit (n mod 16)]) b.


(** ** chunks.go *)

Definition defaultDimensionSize : Z := 1536.

(** fmt.Sprintf(markdownFilePrefix, path): "File: `%s`\n```shell\n". *)
Definition markdownFilePrefix (path : gostring) : gostring :=
  str "File: `" ++ path ++ str "`" ++ [nl] ++ str "```shell" ++ [nl].
Definition markdownFileSuffix : gostring := str "```".

Definition getDimensionSize (env : Env) : Z :=
  let dimSizeStr := Getenv env "EMBEDDING_DIMENSION_SIZE" in
  if eqs dimSizeStr [] then defaultDimensionSize
  else
    match Atoi dimSizeStr with
    | Some dimSize => dimSize
    | None => defaultDimensionSize
    end.

Definition getChunkSize (env : Env) : Z :=
  Z.quot (wrap64 (getDimensionSize env * 3)) 2.

Record Range : Type := mkRange { Range_Start : Z; Range_End : Z }.

(** A float32 is only ever copied: it is carried as its bit pattern. *)
Definition float32 : Type := Z.

Record Embedding : Type := mkEmbedding {
  Embedding_Embedding : list float32;
  Embedding_Model : gostring
}.

Record Chunk : Type := mkChunk {
  Chunk_Hash : gostring;
  Chunk_Text : gostring;
  Chunk_Range : Range;
  Chunk_LineRange : Range;
  Chunk_Embedding : Embedding
}.

Section ChunkService.

(** crypto/sha256.Sum256, the 32-byte digest of a byte string. *)
Variable Sum256 : gostring -> gostring.
Variable env : Env.

Definition createChunk (text path : gostring) (start end_ : Z)
    (model : gostring) : Chunk :=
  let hash := Sum256 text in
  {| Chunk_Hash := hex hash;
     Chunk_Text := markdownFilePrefix path ++ text ++ markdownFileSuffix;
     Chunk_Range := {| Range_Start := start; Range_End := end_ |};
     Chunk_LineRange := {| Range_Start := start; Range_End := end_ |};
     Chunk_Embedding :=
       {| Embedding_Embedding := []; Embedding_Model := [] |} |}.

(** The loop variables of SplitIntoChunks: the chunks appended so far,
    the string builder and the running start offset. *)
Record splitState : Type := mkSplit {
  chunks_ : list Chunk;
  sb : gostring;
  start_ : Z
}.

Definition splitLine (path model : gostring) (chunkSize : Z)
    (st : splitState) (line : gostring) : splitState :=
  let lineWithNewline := line ++ [nl] in
  if (len (sb st) + len lineWithNewline >? chunkSize) && (len (sb st) >? 0)
  then
    let chunkText := sb st in
    let chunk :=
      createChunk chunkText path (start_ st) (start_ st + len chunkText)
        model in
    {| chunks_ := chunks_ st ++ [chunk];
       sb := lineWithNewline;
       start_ := start_ st + len chunkText |}
  else
    {| chunks_ := chunks_ st;
       sb := sb st ++ lineWithNewline;
       start_ := start_ st |}.

Definition SplitIntoChunks (content path model : gostring)
    : result (list Chunk) :=
  let lines := Split content nl in
  let chunkSize := getChunkSize env in
  if chunkSize =? 0 then Panics DivideByZero
  else
    let estimatedChunks := Z.quot (len content) chunkSize + 1 in
    if estimatedChunks <? 0 then Panics MakesliceCapOutOfRange
    else
      let st :=
        fold_left (splitLine path model chunkSize) lines
          {| chunks_ := []; sb := []; start_ := 0 |} in
      if len (sb st) >? 0 then
        let chunkText := sb st in
        let chunk :=
          createChunk chunkText path (start_ st)
            (start_ st + len chunkText) model in
        Returns (chunks_ st ++ [chunk])
      else Returns (chunks_ st).

Definition extractPlainText (text : gostring) : gostring :=
  let idx := Index text [nl] in
  let text := if idx =? -1 then text else drop (Z.to_nat (idx + 1)) text in
  let text := TrimPrefix text (str "```shell" ++ [nl]) in
  let text := TrimSuffix text (str "```") in
  text.

(** The text between the envelope that createChunk puts around a chunk
    for [path]: what was hashed. *)
Definition unwrappedText (path : gostring) (c : Chunk) : gostring :=
  let skip := length (markdownFilePrefix path) in
  take (length (Chunk_Text c) - skip - length markdownFileSuffix)%nat
    (drop skip (Chunk_Text c)).

End ChunkService.

(** The start offset of every chunk is the number of bytes of the chunks
    before it. *)
Definition contiguous (path : gostring) (cs : list Chunk) : Prop :=
  forall (i : nat) (c : Chunk),
    cs !! i = Some c ->
    Range_Start (Chunk_Range c)
    = len (concat (map (unwrappedText path) (take i cs))).


(** ** The embedding client and GenerateEmbeddings *)

Inductive error : Type :=
| UpstreamError (msg : gostring)
    (** any error of GetEmbeddings: marshalling, transport, status, decoding *)
| NoEmbeddingsReturned
    (** fmt.Errorf("no embeddings returned") *)
| ChunkError (idx : nat) (cause : error).
    (** fmt.Errorf("failed to generate embedding for chunk %d: %w", idx, err) *)

Record EmbeddingData : Type := mkEmbeddingData {
  EmbeddingData_Embedding : list float32;
  EmbeddingData_Index : Z;
  EmbeddingData_Object : gostring
}.

Record EmbeddingResponse : Type := mkEmbeddingResponse {
  EmbeddingResponse_Data : list EmbeddingData;
  EmbeddingResponse_Model : gostring;
  EmbeddingResponse_Object : gostring
}.

(** chunks[idx].Embedding.Embedding = embedding *)
Definition setEmbedding (embedding : list float32) (c : Chunk) : Chunk :=
  {| Chunk_Hash := Chunk_Hash c;
     Chunk_Text := Chunk_Text c;
     Chunk_Range := Chunk_Range c;
     Chunk_LineRange := Chunk_LineRange c;
     Chunk_Embedding :=
       {| Embedding_Embedding := embedding;
          Embedding_Model := Embedding_Model (Chunk_Embedding c) |} |}.

(** [c'] has every field of [c] other than the vector: hash, text, both
    ranges and the model name of the embedding. *)
Definition unchangedButVector (c c' : Chunk) : Prop :=
  Chunk_Hash c' = Chunk_Hash c /\
  Chunk_Text c' = Chunk_Text c /\
  Chunk_Range c' = Chunk_Range c /\
  Chunk_LineRange c' = Chunk_LineRange c /\
  Embedding_Model (Chunk_Embedding c') = Embedding_Model (Chunk_Embedding c).

(** The vectors that a slice of chunks carries. *)
Definition vectors (chunks : list Chunk) : list (list float32) :=
  map (fun c => Embedding_Embedding (Chunk_Embedding c)) chunks.

(** chunks[idx].Text, for an index the range loop produced. *)
Definition textAt (chunks : list Chunk) (idx : nat) : gostring :=
  match chunks !! idx with
  | Some c => Chunk_Text c
  | None => []
  end.

(** The program counter of the goroutine started for one chunk. *)
Inductive workerPc : Type :=
| NotSpawned
| Waiting                       (** before [semaphore <- struct{}{}] *)
| Holding                       (** holds a permit, before GetEmbedding *)
| Called (r : error + list float32)   (** GetEmbedding has returned *)
| Releasing                     (** the deferred [<-semaphore], wg.Done() *)
| Finished.

(** The program counter of generateEmbeddingsParallel itself. *)
Inductive mainPc : Type :=
| MainLoop (i : nat)            (** in [for i := range chunks], then wg.Wait() *)
| MainReturned (err : option error).

Record parState : Type := mkPar {
  par_main : mainPc;
  par_workers : list workerPc;
  par_semaphore : nat;          (** permits held; the channel has capacity 10 *)
  par_errChan : list error;
  par_chunks : list Chunk
}.

(** One atomic action of one goroutine. *)
Inductive action : Type :=
| Spawn                         (** main: wg.Add(1); go func(idx) *)
| Acquire (idx : nat)
| Call (idx : nat)
| Commit (idx : nat)            (** errChan <- err, or the write to chunks[idx] *)
| Release (idx : nat)
| Return.                       (** main: wg.Wait() is over; close; select *)

Definition semaphoreCapacity : nat := 10.

Section EmbeddingClient.

(** The upstream call of EmbeddingClient.GetEmbeddings: an HTTP round
    trip, here a function of the texts sent. *)
Variable GetEmbeddings : list gostring -> error + EmbeddingResponse.

Definition GetEmbedding (text : gostring) : error + list float32 :=
  match GetEmbeddings [text] with
  | inl err => inl err
  | inr resp =>
      match EmbeddingResponse_Data resp with
      | [] => inl NoEmbeddingsReturned
      | d :: _ => inr (EmbeddingData_Embedding d)
      end
  end.

(** The body of [for i := range chunks] in generateEmbeddingsSerial,
    over the indices still to visit. *)
Fixpoint serialLoop (idxs : list nat) (chunks : list Chunk)
    : list Chunk * option error :=
  match idxs with
  | [] => (chunks, None)
  | i :: rest =>
      let text := extractPlainText (textAt chunks i) in
      match GetEmbedding text with
      | inl err => (chunks, Some (ChunkError i err))
      | inr embedding =>
          serialLoop rest (alter (setEmbedding embedding) i chunks)
      end
  end.

(** The slice is shared with the caller: the result is the slice after
    the call together with the error returned. *)
Definition generateEmbeddingsSerial (chunks : list Chunk)
    : list Chunk * option error :=
  serialLoop (seq 0 (length chunks)) chunks.

(** generateEmbeddingsParallel: the goroutines interleave; [parStep]
    performs one action when it is enabled. *)
Definition parInit (chunks : list Chunk) : parState :=
  {| par_main := MainLoop 0;
     par_workers := replicate (length chunks) NotSpawned;
     par_semaphore := 0;
     par_errChan := [];
     par_chunks := chunks |}.

Definition allFinished (ws : list workerPc) : bool :=
  forallb (fun w => match w with Finished => true | _ => false end) ws.

Definition setWorker (idx : nat) (w : workerPc) (s : parState) : parState :=
  {| par_main := par_main s;
     par_workers := <[idx := w]> (par_workers s);
     par_semaphore := par_semaphore s;
     par_errChan := par_errChan s;
     par_chunks := par_chunks s |}.

Definition parStep (a : action) (s : parState) : option parState :=
  match a with
  | Spawn =>
      match par_main s with
      | MainLoop i =>
          if bool_decide (i < length (par_chunks s))%nat then
            Some {| par_main := MainLoop (S i);
                    par_workers := <[i := Waiting]> (par_workers s);
                    par_semaphore := par_semaphore s;
                    par_errChan := par_errChan s;
                    par_chunks := par_chunks s |}
          else None
      | MainReturned _ => None
      end
  | Acquire idx =>
      match par_workers s !! idx with
      | Some Waiting =>
          if bool_decide (par_semaphore s < semaphoreCapacity)%nat then
            Some {| par_main := par_main s;
                    par_workers := <[idx := Holding]> (par_workers s);
                    par_semaphore := S (par_semaphore s);
                    par_errChan := par_errChan s;
                    par_chunks := par_chunks s |}
          else None
      | _ => None
      end
  | Call idx =>
      match par_workers s !! idx with
      | Some Holding =>
          let text := extractPlainText (textAt (par_chunks s) idx) in
          Some (setWorker idx (Called (GetEmbedding text)) s)
      | _ => None
      end
  | Commit idx =>
      match par_workers s !! idx with
      | Some (Called (inl err)) =>
          Some {| par_main := par_main s;
                  par_workers := <[idx := Releasing]> (par_workers s);
                  par_semaphore := par_semaphore s;
                  par_errChan := par_errChan s ++ [ChunkError idx err];
                  par_chunks := par_chunks s |}
      | Some (Called (inr embedding)) =>
          Some {| par_main := par_main s;
                  par_workers := <[idx := Releasing]> (par_workers s);
                  par_semaphore := par_semaphore s;
                  par_errChan := par_errChan s;
                  par_chunks :=
                    alter (setEmbedding embedding) idx (par_chunks s) |}
      | _ => None
      end
  | Release idx =>
      match par_workers s !! idx with
      | Some Releasing =>
          Some {| par_main := par_main s;
                  par_workers := <[idx := Finished]> (par_workers s);
                  par_semaphore := pred (par_semaphore s);
                  par_errChan := par_errChan s;
                  par_chunks := par_chunks s |}
      | _ => None
      end
  | Return =>
      match par_main s with
      | MainLoop i =>
          if bool_decide (i = length (par_chunks s))
             && allFinished (par_workers s)
          then
            Some {| par_main := MainReturned (head (par_errChan s));
                    par_workers := par_workers s;
                    par_semaphore := par_semaphore s;
                    par_errChan := par_errChan s;
                    par_chunks := par_chunks s |}
          else None
      | MainReturned _ => None
      end
  end.

(** Running a schedule, action by action; None when an action of the
    schedule is not enabled. *)
Fixpoint parExec (schedule : list action) (s : parState)
    : option parState :=
  match schedule with
  | [] => Some s
  | a :: rest =>
      match parStep a s with
      | Some s' => parExec rest s'
      | None => None
      end
  end.

Definition parReachable (chunks : list Chunk) (s : parState) : Prop :=
  exists schedule, parExec schedule (parInit chunks) = Some s.

(** generateEmbeddingsParallel returns [err] and leaves the slice as
    [chunks'] under some schedule. *)
Definition generateEmbeddingsParallel (chunks : list Chunk)
    (out : list Chunk * option error) : Prop :=
  exists s,
    parReachable chunks s /\
    par_main s = MainReturned (snd out) /\
    par_chunks s = fst out.

Inductive GenerateEmbeddings (chunks : list Chunk)
    : list Chunk * option error -> Prop :=
| GenerateEmbeddings_none :
    length chunks = 0%nat ->
    GenerateEmbeddings chunks (chunks, None)
| GenerateEmbeddings_serial :
    length chunks <> 0%nat ->
    (length chunks <= 5)%nat ->
    GenerateEmbeddings chunks (generateEmbeddingsSerial chunks)
| GenerateEmbeddings_parallel out :
    (5 < length chunks)%nat ->
    generateEmbeddingsParallel chunks out ->
    GenerateEmbeddings chunks out.

(** Steps left to a goroutine, and to the whole call. *)
Definition workerFuel (w : workerPc) : nat :=
  match w with
  | NotSpawned => 5
  | Waiting => 4
  | Holding => 3
  | Called _ => 2
  | Releasing => 1
  | Finished => 0
  end.

Definition parFuel (s : parState) : nat :=
  (match par_main s with MainLoop _ => 1 | MainReturned _ => 0 end
   + list_sum (map workerFuel (par_workers s)))%nat.

Definition holdsPermit (w : workerPc) : bool :=
  match w with
  | Holding | Called _ | Releasing => true
  | _ => false
  end.

(** *** What every reachable state of the parallel path satisfies *)

Definition answer (c : Chunk) : error + list float32 :=
  GetEmbedding (extractPlainText (Chunk_Text c)).

(** The chunk once its goroutine has committed. *)
Definition embedded (c : Chunk) : Chunk :=
  match answer c with
  | inr embedding => setEmbedding embedding c
  | inl _ => c
  end.

Definition workerInv (s : parState) (idx : nat) (w : workerPc)
    (c0 : Chunk) : Prop :=
  match w with
  | NotSpawned | Waiting | Holding => par_chunks s !! idx = Some c0
  | Called r => r = answer c0 /\ par_chunks s !! idx = Some c0
  | Releasing | Finished =>
      par_chunks s !! idx = Some (embedded c0) /\
      forall e, answer c0 = inl e -> In (ChunkError idx e) (par_errChan s)
  end.

Definition mainInv (n : nat) (s : parState) : Prop :=
  match par_main s with
  | MainLoop i =>
      (i <= n)%nat /\
      forall idx w, par_workers s !! idx = Some w ->
                    (w = NotSpawned <-> (i <= idx)%nat)
  | MainReturned err =>
      err = head (par_errChan s) /\ allFinished (par_workers s) = true
  end.

Definition permits (ws : list workerPc) : nat :=
  list_sum (map (fun w => if holdsPermit w then 1%nat else 0%nat) ws).

Record parInv (chunks0 : list Chunk) (s : parState) : Prop := mkParInv {
  inv_workers : length (par_workers s) = length chunks0;
  inv_chunks : length (par_chunks s) = length chunks0;
  inv_permits : par_semaphore s = permits (par_workers s);
  inv_bound : (par_semaphore s <= semaphoreCapacity)%nat;
  inv_worker :
    forall idx w, par_workers s !! idx = Some w ->
      exists c0, chunks0 !! idx = Some c0 /\ workerInv s idx w c0;
  inv_errors :
    forall err, In err (par_errChan s) ->
      exists idx e c0,
        err = ChunkError idx e /\ chunks0 !! idx = Some c0 /\
        answer c0 = inl e;
  inv_main : mainInv (length chunks0) s
}.

End EmbeddingClient.


(** ** JSON documents, gjson and sjson

    ChatCompletions reads and rewrites the request body with
    github.com/tidwall/gjson and github.com/tidwall/sjson.  The body is
    modelled after parsing, as a tree; an object keeps the order of its
    members and may repeat a key, and both libraries act on the first
    member with a given key.  A number is an integer literal.  A path is
    the list of its dot-separated parts; the source only builds paths from
    fixed keys and decimal indices. *)

Local Set Warnings "-register-all".

Inductive JSON : Type :=
| JNull
| JTrue
| JFalse
| JNumber (z : Z)
| JString (s : gostring)
| JArray (elems : list JSON)
| JObject (members : list (gostring * JSON)).

(** strconv.Itoa and the %d verb, for an index. *)
Fixpoint digitsOf (d : Decimal.uint) : gostring :=
  match d with
  | Decimal.Nil => []
  | Decimal.D0 r => "0"%char :: digitsOf r
  | Decimal.D1 r => "1"%char :: digitsOf r
  | Decimal.D2 r => "2"%char :: digitsOf r
  | Decimal.D3 r => "3"%char :: digitsOf r
  | Decimal.D4 r => "4"%char :: digitsOf r
  | Decimal.D5 r => "5"%char :: digitsOf r
  | Decimal.D6 r => "6"%char :: digitsOf r
  | Decimal.D7 r => "7"%char :: digitsOf r
  | Decimal.D8 r => "8"%char :: digitsOf r
  | Decimal.D9 r => "9"%char :: digitsOf r
  end.

Definition Itoa (n : nat) : gostring := digitsOf (Nat.to_uint n).

(** gjson's parseUint: one or more decimal digits. *)
Definition parseUint (part : gostring) : option nat :=
  match part with
  | [] => None
  | _ => Z.to_nat <$> parseDigits 0 part
  end.

(** sjson's atoui: decimal digits only, the empty part counting as 0. *)
Definition atoui (part : gostring) : option nat :=
  Z.to_nat <$> parseDigits 0 part.

Fixpoint findMember (members : list (gostring * JSON)) (key : gostring)
    : option JSON :=
  match members with
  | [] => None
  | (k, x) :: rest => if eqs k key then Some x else findMember rest key
  end.

Fixpoint replaceMember (members : list (gostring * JSON)) (key : gostring)
    (v : JSON) : list (gostring * JSON) :=
  match members with
  | [] => []
  | (k, x) :: rest =>
      if eqs k key then (k, v) :: rest
      else (k, x) :: replaceMember rest key v
  end.

Fixpoint removeMember (members : list (gostring * JSON)) (key : gostring)
    : list (gostring * JSON) :=
  match members with
  | [] => []
  | (k, x) :: rest =>
      if eqs k key then rest else (k, x) :: removeMember rest key
  end.

(** One part of a gjson path: a member of an object, or an element of an
    array when the part is a decimal index. *)
Definition getPart (j : JSON) (part : gostring) : option JSON :=
  match j with
  | JObject members => findMember members part
  | JArray elems =>
      match parseUint part with
      | Some n => elems !! n
      | None => None
      end
  | _ => None
  end.

(** gjson.GetBytes(json, path); None is a result that does not exist. *)
Fixpoint GetBytes (j : JSON) (path : list gostring) : option JSON :=
  match path with
  | [] => Some j
  | part :: rest =>
      match getPart j part with
      | Some child => GetBytes child rest
      | None => None
      end
  end.

Definition Result_Exists (r : option JSON) : bool :=
  match r with Some _ => true | None => false end.

(** gjson's parseInt: an optional minus sign and decimal digits, computed
    in int64; anything else reads as 0. *)
Definition gjsonParseInt (s : gostring) : Z :=
  match s with
  | [] => 0
  | c :: r =>
      let '(neg, ds) := if Ascii.eqb c "-"%char then (true, r)
                        else (false, s) in
      match ds with
      | [] => 0
      | _ =>
          match parseDigits 0 ds with
          | Some n => wrap64 (if neg : bool then - n else n)
          | None => 0
          end
      end
  end.

(** Result.Int() *)
Definition Result_Int (r : option JSON) : Z :=
  match r with
  | Some JTrue => 1
  | Some (JString s) => gjsonParseInt s
  | Some (JNumber z) => wrap64 z
  | _ => 0
  end.

(** Result.Array(): nothing for a missing or null value, the elements of
    an array, and any other value alone. *)
Definition Result_Array (r : option JSON) : list JSON :=
  match r with
  | None | Some JNull => []
  | Some (JArray elems) => elems
  | Some j => [j]
  end.

(** The value put at the parts of a path that do not exist yet (sjson's
    appendBuild). *)
Fixpoint build (path : list gostring) (v : JSON) : JSON :=
  match path with
  | [] => v
  | part :: rest =>
      match atoui part with
      | Some n => JArray (repeat JNull n ++ [build rest v])
      | None =>
          if eqs part (str "-1") then JArray [build rest v]
          else JObject [(part, build rest v)]
      end
  end.

Definition replacePart (j : JSON) (part : gostring) (v : JSON) : JSON :=
  match j with
  | JObject members => JObject (replaceMember members part v)
  | JArray elems =>
      match parseUint part with
      | Some n => JArray (<[n := v]> elems)
      | None => j
      end
  | _ => j
  end.

Definition removePart (j : JSON) (part : gostring) : JSON :=
  match j with
  | JObject members => JObject (removeMember members part)
  | JArray elems =>
      match parseUint part with
      | Some n => JArray (delete n elems)
      | None => j
      end
  | _ => j
  end.

(** sjson's set for a value; None is an error ("cannot set array element
    for non-numeric key"). *)
Fixpoint sjsonSet (j : JSON) (path : list gostring) (v : JSON)
    : option JSON :=
  match path with
  | [] => Some v
  | part :: rest =>
      match getPart j part with
      | Some child =>
          match rest with
          | [] => Some (replacePart j part v)
          | _ =>
              match sjsonSet child rest v with
              | Some child' => Some (replacePart j part child')
              | None => None
              end
          end
      | None =>
          match j with
          | JObject members =>
              Some (JObject (members ++ [(part, build rest v)]))
          | JArray elems =>
              match atoui part with
              | Some n =>
                  Some (JArray (elems
                                ++ repeat JNull (n - length elems)
                                ++ [build rest v]))
              | None =>
                  if eqs part (str "-1")
                  then Some (JArray (elems ++ [build rest v]))
                  else None
              end
          | _ =>
              match atoui part with
              | Some n => Some (JArray (repeat JNull n ++ [build rest v]))
              | None => Some (JObject [(part, build rest v)])
              end
          end
      end
  end.

(** [body, _ = sjson.SetBytes(body, path, value)]: on an error sjson gives
    the document back as it was. *)
Definition SetBytes (body : JSON) (path : list gostring) (v : JSON) : JSON :=
  match sjsonSet body path v with
  | Some body' => body'
  | None => body
  end.

(** [body, _ = sjson.DeleteBytes(body, path)]: the first value at the path
    is removed; a path that leads nowhere changes nothing. *)
Fixpoint DeleteBytes (body : JSON) (path : list gostring) : JSON :=
  match path with
  | [] => body
  | [part] =>
      match getPart body part with
      | Some _ => removePart body part
      | None => body
      end
  | part :: rest =>
      match getPart body part with
      | Some child => replacePart body part (DeleteBytes child rest)
      | None => body
      end
  end.


(** ** ChatCompletions *)

(** strings.Replace(s, old, new, 1) for a non-empty [old]. *)
Definition ReplaceFirst (s old new : gostring) : gostring :=
  let i := Index s old in
  if i <? 0 then s
  else take (Z.to_nat i) s ++ new ++ drop (Z.to_nat i + length old) s.

(** strconv.ParseBool; an error reads as false under [v, _ :=]. *)
Definition ParseBool (s : gostring) : bool :=
  existsb (fun t => eqs s (str t)) ["1"; "t"; "T"; "TRUE"; "true"; "True"].

(** What the handler writes without calling upstream. *)
Inductive reply : Type :=
| StreamDone               (** "data: [DONE]\n\n" *)
| VS2022FirstChatTemplate. (** the fixed frames of vs2022FirstChatTemplate *)

Inductive outcome : Type :=
| Panicked (p : panic)
| ShortCircuit (r : reply)
| Forward (url apiKey : gostring) (body : JSON).

Definition localeMarker : gostring := str "Respond in the following locale".

Definition followUpPrompt : gostring :=
  str "Write a short one-sentence question that I can ask that naturally follows from the previous few questions and answers. It should not ask a question which is already answered in the conversation. It should be a question that you are capable of answering. Reply with only the text of the question and nothing else.".

Definition categoryMarker : gostring :=
  str "If you cannot choose just one category, or if none of the categories seem like they would provide the user with a better result, you must always respond with".

(** json.Marshal of the default parameters map: keys in sorted order. *)
Definition defaultParams : JSON :=
  JObject [(str "properties", JObject []); (str "type", JString (str "object"))].

(** The top-level keys that the handler deletes or rewrites below, other
    than model, stream, messages, max_tokens and n. *)
Definition strippedKeys : list gostring :=
  map str ["intent"; "intent_threshold"; "intent_content"; "logprobs";
           "tools"; "tool_call"; "functions"; "function_call"; "tool_choice"].

(** A message as the message block leaves it when the locale is not
    added: an empty tool_calls member is dropped. *)
Definition withoutEmptyToolCalls (msg : JSON) : JSON :=
  if len (Result_Array (getPart msg (str "tool_calls"))) =? 0
  then DeleteBytes msg [str "tool_calls"]
  else msg.

Section ChatCompletions.

(** The text of a number, array or object as it stands in the body:
    gjson's Raw, which the tree does not keep. *)
Variable Raw : JSON -> gostring.
Variable env : Env.

(** Result.String() *)
Definition Result_String (r : option JSON) : gostring :=
  match r with
  | None | Some JNull => []
  | Some JTrue => str "true"
  | Some JFalse => str "false"
  | Some (JString s) => s
  | Some j => Raw j
  end.

(** [for i, msg := range messages]: drop an empty tool_calls. *)
Fixpoint stripToolCalls (i : nat) (messages : list JSON) (body : JSON)
    : JSON :=
  match messages with
  | [] => body
  | msg :: rest =>
      let toolCalls := Result_Array (getPart msg (str "tool_calls")) in
      let body :=
        if len toolCalls =? 0
        then DeleteBytes body [str "messages"; Itoa i; str "tool_calls"]
        else body in
      stripToolCalls (S i) rest body
  end.

(** The block under [if !gjson.GetBytes(body, "function_call").Exists()]. *)
Definition normalizeMessages (body : JSON) : result JSON :=
  let messages := Result_Array (GetBytes body [str "messages"]) in
  let body := stripToolCalls 0 messages body in
  let lastIndex := len messages - 1 in
  let chatLocale := Getenv env "CHAT_LOCALE" in
  if eqs chatLocale [] then Returns body
  else
    match last messages with
    | None => Panics (IndexOutOfRange lastIndex (len messages))
    | Some lastMessage =>
        let content :=
          Result_String (getPart lastMessage (str "content")) in
        if negb (Contains content localeMarker) then
          Returns
            (SetBytes body
               [str "messages"; Itoa (Z.to_nat lastIndex); str "content"]
               (JString (content ++ str "Respond in the following locale: "
                                 ++ chatLocale ++ str ".")))
        else Returns body
    end.

(** The loop over [tools.%d]; its bound is read again at every round and
    never changes, so the initial length is enough fuel. *)
Fixpoint defaultToolParameters (fuel i : nat) (body : JSON) : JSON :=
  match fuel with
  | O => body
  | S fuel =>
      if Z.of_nat i <? len (Result_Array (GetBytes body [str "tools"])) then
        let body :=
          if negb (Result_Exists (GetBytes body [str "tools"; Itoa i]))
          then body
          else if negb (Result_Exists
                          (GetBytes body [str "tools"; Itoa i; str "function"]))
          then body
          else if negb (Result_Exists
                          (GetBytes body [str "tools"; Itoa i; str "function";
                                          str "parameters"]))
          then SetBytes body
                 [str "tools"; Itoa i; str "function"; str "parameters"]
                 defaultParams
          else body in
        defaultToolParameters fuel (S i) body
      else body
  end.

Definition stripIntent (body : JSON) : JSON :=
  let body := DeleteBytes body [str "intent"] in
  let body := DeleteBytes body [str "intent_threshold"] in
  let body := DeleteBytes body [str "intent_content"] in
  DeleteBytes body [str "logprobs"].

Definition stripTools (body : JSON) : JSON :=
  let body := DeleteBytes body [str "tools"] in
  let body := DeleteBytes body [str "tool_call"] in
  let body := DeleteBytes body [str "functions"] in
  let body := DeleteBytes body [str "function_call"] in
  DeleteBytes body [str "tool_choice"].

(** The rewriting of the body after the message block, up to the
    dispatch tests. *)
Definition rewriteLimits (body : JSON) : JSON :=
  let body := stripIntent body in
  let chatUseTools := ParseBool (Getenv env "CHAT_USE_TOOLS") in
  let body := if negb chatUseTools then stripTools body else body in
  let body :=
    if Result_Exists (GetBytes body [str "tools"]) then
      defaultToolParameters
        (length (Result_Array (GetBytes body [str "tools"]))) 0 body
    else body in
  let ChatMaxTokens := AtoiValue (Getenv env "CHAT_MAX_TOKENS") in
  let body :=
    if Result_Int (GetBytes body [str "max_tokens"]) >? ChatMaxTokens
    then SetBytes body [str "max_tokens"] (JNumber ChatMaxTokens)
    else body in
  if Result_Int (GetBytes body [str "n"]) >? 1
  then SetBytes body [str "n"] (JNumber 1)
  else body.

(** From [messages := gjson.GetBytes(body, "messages").Array()] to the
    upstream request. *)
Definition dispatch (userAgent chatAPIURL apiKey : gostring) (body : JSON)
    : outcome :=
  let messages := Result_Array (GetBytes body [str "messages"]) in
  let firstRole :=
    Result_String (GetBytes body [str "messages"; str "0"; str "role"]) in
  let firstContent :=
    Result_String (GetBytes body [str "messages"; str "0"; str "content"]) in
  if Contains firstRole (str "system")
     && Contains firstContent
          (str "You are a helpful AI programming assistant to a user")
     && negb (Contains firstContent categoryMarker)
     && negb (Result_Exists (GetBytes body [str "tool_choice"]))
  then ShortCircuit StreamDone
  else if Contains userAgent (str "VSCopilotClient") then
    match last messages with
    | None => Panicked (IndexOutOfRange (len messages - 1) (len messages))
    | Some lastMessage =>
        let messageRole :=
          Result_String (getPart lastMessage (str "role")) in
        let messageContent :=
          Result_String (getPart lastMessage (str "content")) in
        if Contains firstRole (str "system")
           && Contains firstContent (str "You are an AI programming assistant")
        then ShortCircuit VS2022FirstChatTemplate
        else if eqs messageRole (str "user")
                && eqs messageContent followUpPrompt
        then ShortCircuit StreamDone
        else Forward chatAPIURL apiKey body
    end
  else Forward chatAPIURL apiKey body.

Definition ChatCompletions (userAgent : gostring) (body : JSON) : outcome :=
  let apiModelName := Result_String (GetBytes body [str "model"]) in
  let lightweight :=
    Contains apiModelName (Getenv env "LIGHTWEIGHT_MODEL") in
  let envModelName :=
    if lightweight then Getenv env "CODEX_API_MODEL_NAME"
    else Getenv env "CHAT_API_MODEL_NAME" in
  let chatAPIURL :=
    if lightweight
    then ReplaceFirst (Getenv env "CODEX_API_BASE")
           (str "/v1/completions") (str "/v1/chat/completions")
    else Getenv env "CHAT_API_BASE" in
  let apiKey :=
    if lightweight then Getenv env "CODEX_API_KEY"
    else Getenv env "CHAT_API_KEY" in
  let body := SetBytes body [str "model"] (JString envModelName) in
  let body := SetBytes body [str "stream"] JTrue in
  let normalized :=
    if negb (Result_Exists (GetBytes body [str "function_call"]))
    then normalizeMessages body
    else Returns body in
  match normalized with
  | Panics p => Panicked p
  | Returns body => dispatch userAgent chatAPIURL apiKey (rewriteLimits body)
  end.

End ChatCompletions.


(** ** main: starting the two listeners

    The part of [main] between [serverStarted := make(chan struct{}, 2)]
    and [message.ShowAppLaunchMessage()]: main starts one goroutine per
    listener, receives twice from [serverStarted] and shows the launch
    message.  Each goroutine logs, sends on [serverStarted] (the HTTPS one
    only while [httpsServer] is still nil) and then calls ListenAndServe
    or ListenAndServeTLS.  The goroutines interleave; [startStep] performs
    one action when it is enabled. *)

Inductive mainStage : Type :=
| GoHTTP          (** before [g.Go] of the HTTP goroutine *)
| GoHTTPS         (** in startHTTPSServer, before its [g.Go] *)
| AssignHTTPS     (** before [httpsServer = ] the returned server *)
| Receive1        (** before the first [<-serverStarted] *)
| Receive2        (** before the second [<-serverStarted] *)
| Launch          (** before message.ShowAppLaunchMessage() *)
| Launched.       (** the launch message has been shown *)

Inductive listenerStage : Type :=
| NotStarted
| Started         (** the goroutine runs, before its send *)
| Signalled       (** past the send, before ListenAndServe *)
| Accepting       (** ListenAndServe has bound the port and accepts *)
| Exited.         (** ListenAndServe returned an error *)

Record startState : Type := mkStart {
  start_main : mainStage;
  start_http : listenerStage;
  start_https : listenerStage;
  start_serverStarted : nat;   (** values buffered in the channel, capacity 2 *)
  start_httpsServer : bool     (** [httpsServer != nil] *)
}.

Inductive startAction : Type :=
| MainStep         (** the next statement of main *)
| HTTPSend
| HTTPListen (ok : bool)
| HTTPSSend
| HTTPSListen (ok : bool).

Definition startInit : startState :=
  {| start_main := GoHTTP;
     start_http := NotStarted;
     start_https := NotStarted;
     start_serverStarted := 0;
     start_httpsServer := false |}.

Definition serverStartedCapacity : nat := 2.

Definition startStep (a : startAction) (s : startState) : option startState :=
  match a with
  | MainStep =>
      match start_main s with
      | GoHTTP =>
          Some {| start_main := GoHTTPS;
                  start_http := Started;
                  start_https := start_https s;
                  start_serverStarted := start_serverStarted s;
                  start_httpsServer := start_httpsServer s |}
      | GoHTTPS =>
          Some {| start_main := AssignHTTPS;
                  start_http := start_http s;
                  start_https := Started;
                  start_serverStarted := start_serverStarted s;
                  start_httpsServer := start_httpsServer s |}
      | AssignHTTPS =>
          Some {| start_main := Receive1;
                  start_http := start_http s;
                  start_https := start_https s;
                  start_serverStarted := start_serverStarted s;
                  start_httpsServer := true |}
      | Receive1 =>
          match start_serverStarted s with
          | O => None
          | S n =>
              Some {| start_main := Receive2;
                      start_http := start_http s;
                      start_https := start_https s;
                      start_serverStarted := n;
                      start_httpsServer := start_httpsServer s |}
          end
      | Receive2 =>
          match start_serverStarted s with
          | O => None
          | S n =>
              Some {| start_main := Launch;
                      start_http := start_http s;
                      start_https := start_https s;
                      start_serverStarted := n;
                      start_httpsServer := start_httpsServer s |}
          end
      | Launch =>
          Some {| start_main := Launched;
                  start_http := start_http s;
                  start_https := start_https s;
                  start_serverStarted := start_serverStarted s;
                  start_httpsServer := start_httpsServer s |}
      | Launched => None
      end
  | HTTPSend =>
      match start_http s with
      | Started =>
          if bool_decide (start_serverStarted s < serverStartedCapacity)%nat
          then
            Some {| start_main := start_main s;
                    start_http := Signalled;
                    start_https := start_https s;
                    start_serverStarted := S (start_serverStarted s);
                    start_httpsServer := start_httpsServer s |}
          else None
      | _ => None
      end
  | HTTPListen ok =>
      match start_http s with
      | Signalled =>
          Some {| start_main := start_main s;
                  start_http := if ok then Accepting else Exited;
                  start_https := start_https s;
                  start_serverStarted := start_serverStarted s;
                  start_httpsServer := start_httpsServer s |}
      | _ => None
      end
  | HTTPSSend =>
      match start_https s with
      | Started =>
          if start_httpsServer s then
            Some {| start_main := start_main s;
                    start_http := start_http s;
                    start_https := Signalled;
                    start_serverStarted := start_serverStarted s;
                    start_httpsServer := start_httpsServer s |}
          else if bool_decide
                    (start_serverStarted s < serverStartedCapacity)%nat
          then
            Some {| start_main := start_main s;
                    start_http := start_http s;
                    start_https := Signalled;
                    start_serverStarted := S (start_serverStarted s);
                    start_httpsServer := start_httpsServer s |}
          else None
      | _ => None
      end
  | HTTPSListen ok =>
      match start_https s with
      | Signalled =>
          Some {| start_main := start_main s;
                  start_http := start_http s;
                  start_https := if ok then Accepting else Exited;
                  start_serverStarted := start_serverStarted s;
                  start_httpsServer := start_httpsServer s |}
      | _ => None
      end
  end.

Fixpoint startExec (schedule : list startAction) (s : startState)
    : option startState :=
  match schedule with
  | [] => Some s
  | a :: rest =>
      match startStep a s with
      | Some s' => startExec rest s'
      | None => None
      end
  end.

Definition startReachable (s : startState) : Prop :=
  exists schedule, startExec schedule startInit = Some s.

(** The goroutine is past its send on [serverStarted]. *)
Definition pastSend (l : listenerStage) : bool :=
  match l with
  | NotStarted | Started => false
  | _ => true
  end.

(** Receives that main has completed. *)
Definition received (m : mainStage) : nat :=
  match m with
  | GoHTTP | GoHTTPS | AssignHTTPS | Receive1 => 0
  | Receive2 => 1
  | Launch | Launched => 2
  end.

Definition startInv (s : startState) : Prop :=
  (start_serverStarted s + received (start_main s)
   <= (if pastSend (start_http s) then 1 else 0)
      + (if pastSend (start_https s) then 1 else 0))%nat /\
  match start_main s with
  | GoHTTP => start_http s = NotStarted /\ start_https s = NotStarted
  | GoHTTPS => start_https s = NotStarted
  | _ => True
  end.



(** ** The defaults of main and the token middleware *)

(** os.Setenv *)
Definition Setenv (env : Env) (key : string) (value : gostring) : Env :=
  fun k => if String.eqb k key then value else env k.

(** initDefaultEnv of main.go.  Each test reads the environment as the
    statements before it have left it; the fourth test reads
    HTTP_CLIENT_TIMEOUT and writes DISGUISE_COPILOT_TOKEN_EXPIRES_AT, as
    the source does. *)
Definition initDefaultEnv (env : Env) : Env :=
  let env :=
    if eqs (Getenv env "COPILOT_PROXY_ALL") []
    then Setenv env "COPILOT_PROXY_ALL" (str "false") else env in
  let env :=
    if eqs (Getenv env "COPILOT_CLIENT_TYPE") []
    then Setenv env "COPILOT_CLIENT_TYPE" (str "default") else env in
  let env :=
    if eqs (Getenv env "DISGUISE_COPILOT_TOKEN_EXPIRES_AT") []
    then Setenv env "DISGUISE_COPILOT_TOKEN_EXPIRES_AT" (str "1800")
    else env in
  let env :=
    if eqs (Getenv env "HTTP_CLIENT_TIMEOUT") []
    then Setenv env "DISGUISE_COPILOT_TOKEN_EXPIRES_AT" (str "60")
    else env in
  let env :=
    if eqs (Getenv env "COPILOT_ACCOUNT_TYPE") []
    then Setenv env "COPILOT_ACCOUNT_TYPE" (str "individual") else env in
  if eqs (Getenv env "LIGHTWEIGHT_MODEL") []
  then Setenv env "LIGHTWEIGHT_MODEL" (str "gpt-4o-mini") else env.

(** The variables that initDefaultEnv may write. *)
Definition defaultedKeys : list string :=
  ["COPILOT_PROXY_ALL"; "COPILOT_CLIENT_TYPE";
   "DISGUISE_COPILOT_TOKEN_EXPIRES_AT"; "COPILOT_ACCOUNT_TYPE";
   "LIGHTWEIGHT_MODEL"].

(** strings.SplitN(s, sep, 2) for a one-byte separator: the text before
    the first separator and the text after it, or the string alone. *)
Fixpoint SplitN2 (s : gostring) (sep : ascii) : list gostring :=
  match s with
  | [] => [[]]
  | c :: r =>
      if Ascii.eqb c sep then [[]; r]
      else
        match SplitN2 r sep with
        | h :: t => (c :: h) :: t
        | [] => [[c]]
        end
  end.

(** The keys that parseAuthorizationToken keeps. *)
Definition allowedTokenKey (key : gostring) : bool :=
  eqs key (str "tid") || eqs key (str "exp") || eqs key (str "sku")
  || eqs key (str "st") || eqs key (str "8kp") || eqs key (str "chat")
  || eqs key (str "u").

(** The body of [for _, pair := range pairs]. *)
Definition parseTokenPair (result : gmap gostring gostring)
    (pair : gostring) : gmap gostring gostring :=
  match SplitN2 pair "="%char with
  | [key; value] =>
      if allowedTokenKey key then <[key := value]> result else result
  | _ => result
  end.

Definition parseAuthorizationToken (token : gostring)
    : gmap gostring gostring :=
  fold_left parseTokenPair (Split token ";"%char) ∅.

(** [m[key]] on a map[string]string: the empty string for a missing key. *)
Definition mapIndex (m : gmap gostring gostring) (key : gostring)
    : gostring :=
  default [] (m !! key).

(** isExpired, [now] being time.Now().Unix(); None is the error returned
    when strconv.ParseInt(expStr, 10, 64) fails. *)
Definition isExpired (now : Z) (expStr : gostring) : option bool :=
  match ParseInt expStr with
  | (exp, None) => Some (now >? exp)
  | (_, Some _) => None
  end.

(** response.TokenWrongful and response.TokenOverdue *)
Inductive FailStruct : Type := TokenWrongful | TokenOverdue.

(** What the middleware does with the request: c.Next(), or a 401 answer
    with the given body and c.Abort(). *)
Inductive authResult : Type :=
| Next
| Unauthorized (body : FailStruct).

(** The handler that TokenCheckAuth returns; [authorization] is
    c.Request.Header.Get("Authorization"), empty when the header is
    missing. *)
Definition TokenCheckAuth (env : Env) (now : Z) (authorization : gostring)
    : authResult :=
  let clientType := Getenv env "COPILOT_CLIENT_TYPE" in
  let copilotProxyAll := ParseBool (Getenv env "COPILOT_PROXY_ALL") in
  if eqs clientType (str "github") && negb copilotProxyAll then Next
  else
    let token := authorization in
    if eqs token [] then Unauthorized TokenWrongful
    else
      let last := Index token (str " ") in
      if (len token <? last) || (last =? -1) then Unauthorized TokenWrongful
      else
        let token := drop (Z.to_nat (last + 1)) token in
        let parsedToken := parseAuthorizationToken token in
        match isExpired now (mapIndex parsedToken (str "exp")) with
        | None => Unauthorized TokenWrongful
        | Some true => Unauthorized TokenOverdue
        | Some false => Next
        end.

(** The values of the fields [key=value] among the pairs of a token, in
    the order of the pairs. *)
Definition fieldValues (key : gostring) (pairs : list gostring)
    : list gostring :=
  omap (fun pair =>
          if HasPrefix pair (key ++ str "=")
          then Some (drop (length key + 1) pair)
          else None) pairs.

(** The verdict on the text of the exp field that counts. *)
Definition expVerdict (now : Z) (exp : option gostring) : authResult :=
  match exp with
  | None => Unauthorized TokenWrongful
  | Some expStr =>
      match ParseInt expStr with
      | (exp, None) =>
          if now >? exp then Unauthorized TokenOverdue else Next
      | (_, Some _) => Unauthorized TokenWrongful
      end
  end.


(** ** The embedding client and the chunks handler *)

(** An EmbeddingClient, without its http.Client (built from
    HTTP_CLIENT_TIMEOUT, which no result below depends on). *)
Record EmbeddingClient : Type := mkEmbeddingClient {
  client_apiURL : gostring;
  client_apiKey : gostring;
  client_model : gostring;
  client_dimensions : Z
}.

(** NewEmbeddingClient; the left side is the message of the error. *)
Definition NewEmbeddingClient (env : Env) (dimensions : Z)
    : gostring + EmbeddingClient :=
  let apiURL := Getenv env "EMBEDDING_API_BASE" in
  let apiKey := Getenv env "EMBEDDING_API_KEY" in
  if eqs apiURL [] || eqs apiKey [] then
    inl (str "EMBEDDING_API_BASE or EMBEDDING_API_KEY environment variable not set")
  else if eqs (Getenv env "EMBEDDING_API_MODEL_NAME") [] then
    inl (str "EMBEDDING_API_MODEL_NAME environment variable not set")
  else
    inr {| client_apiURL := apiURL;
           client_apiKey := apiKey;
           client_model := Getenv env "EMBEDDING_API_MODEL_NAME";
           client_dimensions := dimensions |}.

(** The body of the request that GetEmbeddings posts. *)
Record EmbeddingRequest : Type := mkEmbeddingRequest {
  EmbeddingRequest_Model : gostring;
  EmbeddingRequest_Input : list gostring;
  EmbeddingRequest_Dimensions : Z
}.

Record ChunkService : Type := mkChunkService {
  embeddingClient : EmbeddingClient;
  modelName : gostring
}.

(** fmt.Errorf("failed to create embedding client: %w", err) *)
Definition NewChunkService (env : Env) : gostring + ChunkService :=
  match NewEmbeddingClient env (getDimensionSize env) with
  | inl err => inl (str "failed to create embedding client: " ++ err)
  | inr client =>
      inr {| embeddingClient := client;
             modelName := Getenv env "EMBEDDING_API_MODEL_NAME" |}
  end.

Record ChunkRequest : Type := mkChunkRequest {
  ChunkRequest_Content : gostring;
  ChunkRequest_Path : gostring;
  ChunkRequest_Embed : bool
}.

Record ChunkResponse : Type := mkChunkResponse {
  ChunkResponse_Chunks : list Chunk;
  ChunkResponse_EmbeddingModel : gostring
}.

(** What HandleChunks answers once the request is bound. *)
Inductive chunksReply : Type :=
| ChunksServiceError (msg : gostring)
    (** 500, "failed to initialize service: %v" *)
| ChunksEmbeddingError (err : error)
    (** 500, "failed to generate embeddings: %v" *)
| ChunksOK (resp : ChunkResponse)
    (** 200 *)
| ChunksPanic (p : panic).

Section HandleChunks.

Variable Sum256 : gostring -> gostring.
Variable env : Env.

(** The round trip of GetEmbeddings after the request is built: the
    POST to the URL with the bearer key, the status test and the
    decoding of the answer. *)
Variable roundTrip :
  gostring -> gostring -> EmbeddingRequest -> error + EmbeddingResponse.

(** EmbeddingClient.GetEmbeddings: the model sent is read from the
    environment, not from the client. *)
Definition clientGetEmbeddings (c : EmbeddingClient)
    (texts : list gostring) : error + EmbeddingResponse :=
  roundTrip (client_apiURL c) (client_apiKey c)
    {| EmbeddingRequest_Model := Getenv env "EMBEDDING_API_MODEL_NAME";
       EmbeddingRequest_Input := texts;
       EmbeddingRequest_Dimensions := client_dimensions c |}.

(** HandleChunks from [service, err := NewChunkService()] on, for a
    request that ShouldBindJSON has accepted.  The embedding step runs
    under some schedule of its goroutines. *)
Inductive HandleChunks (req : ChunkRequest) : chunksReply -> Prop :=
| HandleChunks_no_service msg :
    NewChunkService env = inl msg ->
    HandleChunks req
      (ChunksServiceError (str "failed to initialize service: " ++ msg))
| HandleChunks_panic service p :
    NewChunkService env = inr service ->
    SplitIntoChunks Sum256 env (ChunkRequest_Content req)
      (ChunkRequest_Path req) (modelName service) = Panics p ->
    HandleChunks req (ChunksPanic p)
| HandleChunks_plain service chunks :
    NewChunkService env = inr service ->
    SplitIntoChunks Sum256 env (ChunkRequest_Content req)
      (ChunkRequest_Path req) (modelName service) = Returns chunks ->
    ChunkRequest_Embed req = false ->
    HandleChunks req
      (ChunksOK {| ChunkResponse_Chunks := chunks;
                   ChunkResponse_EmbeddingModel := modelName service |})
| HandleChunks_embedded service chunks chunks' :
    NewChunkService env = inr service ->
    SplitIntoChunks Sum256 env (ChunkRequest_Content req)
      (ChunkRequest_Path req) (modelName service) = Returns chunks ->
    ChunkRequest_Embed req = true ->
    GenerateEmbeddings (clientGetEmbeddings (embeddingClient service))
      chunks (chunks', None) ->
    HandleChunks req
      (ChunksOK {| ChunkResponse_Chunks := chunks';
                   ChunkResponse_EmbeddingModel := modelName service |})
| HandleChunks_embedding_failed service chunks chunks' err :
    NewChunkService env = inr service ->
    SplitIntoChunks Sum256 env (ChunkRequest_Content req)
      (ChunkRequest_Path req) (modelName service) = Returns chunks ->
    ChunkRequest_Embed req = true ->
    GenerateEmbeddings (clientGetEmbeddings (embeddingClient service))
      chunks (chunks', Some err) ->
    HandleChunks req (ChunksEmbeddingError err).

End HandleChunks.

(** The embedding upstream is configured: the three variables that
    NewEmbeddingClient tests are set. *)
Definition embeddingConfigured (env : Env) : bool :=
  negb (eqs (Getenv env "EMBEDDING_API_BASE") [])
  && negb (eqs (Getenv env "EMBEDDING_API_KEY") [])
  && negb (eqs (Getenv env "EMBEDDING_API_MODEL_NAME") []).

(** ** The embeddings handler *)





Definition envOf (kvs : list (string * string)) : Env :=
  fun key =>
    match List.find (fun kv => String.eqb (fst kv) key) kvs with
    | Some kv => str (snd kv)
    | None => []
    end.

(** A stand-in digest for running the definitions: 32 bytes derived from
    the length of the input. *)
Definition toySum256 (s : gostring) : gostring :=
  repeat (ascii_of_nat (length s mod 256)) 32.

(** A stub upstream: it fails on a text containing "bad" and otherwise
    answers with one vector holding the length of the text. *)
Definition stubGetEmbeddings (texts : list gostring)
    : error + EmbeddingResponse :=
  match texts with
  | [text] =>
      if Contains text (str "bad")
      then inl (UpstreamError (str "API request failed with status 500"))
      else
        inr {| EmbeddingResponse_Data :=
                 [{| EmbeddingData_Embedding := [len text];
                     EmbeddingData_Index := 0;
                     EmbeddingData_Object := str "embedding" |}];
               EmbeddingResponse_Model := str "stub";
               EmbeddingResponse_Object := str "list" |}
  | _ => inl (UpstreamError (str "one input expected"))
  end.

Definition joinLines (lines : list string) : gostring :=
  match lines with
  | [] => []
  | l :: rest => str l ++ flat_map (fun x => nl :: str x) rest
  end.

(** The chunks of a file of short lines under a 3-byte budget: one chunk a
    line. *)
Definition chunksOfLines (lines : list string) : list Chunk :=
  match SplitIntoChunks toySum256 (envOf [("EMBEDDING_DIMENSION_SIZE", "2")])
          (joinLines lines) (str "main.go") (str "m") with
  | Returns chunks => chunks
  | Panics _ => []
  end.

Definition threeChunks : list Chunk :=
  Eval vm_compute in chunksOfLines ["aa"; "bad"; "cc"].

Definition sixChunks : list Chunk :=
  Eval vm_compute in chunksOfLines ["aa"; "bb"; "bad"; "dd"; "ee"; "ff"].

(** The text of a value in a body written without white space, for
    strings that need no escaping. *)
Definition dquote : ascii := ascii_of_nat 34.

Definition renderInt (z : Z) : gostring :=
  if z <? 0 then "-"%char :: Itoa (Z.to_nat (- z)) else Itoa (Z.to_nat z).

Fixpoint compactRaw (j : JSON) : gostring :=
  match j with
  | JNull => str "null"
  | JTrue => str "true"
  | JFalse => str "false"
  | JNumber z => renderInt z
  | JString s => dquote :: s ++ [dquote]
  | JArray elems =>
      let fix items (l : list JSON) : gostring :=
        match l with
        | [] => []
        | [x] => compactRaw x
        | x :: rest => compactRaw x ++ str "," ++ items rest
        end in
      str "[" ++ items elems ++ str "]"
  | JObject members =>
      let fix items (l : list (gostring * JSON)) : gostring :=
        match l with
        | [] => []
        | [(k, x)] => dquote :: k ++ [dquote] ++ str ":" ++ compactRaw x
        | (k, x) :: rest =>
            dquote :: k ++ [dquote] ++ str ":" ++ compactRaw x ++ str ","
            ++ items rest
        end in
      str "{" ++ items members ++ str "}"
  end.

Definition member (key : string) (v : JSON) : gostring * JSON := (str key, v).

Definition message (role content : string) : JSON :=
  JObject [member "role" (JString (str role));
           member "content" (JString (str content))].

Definition chatEnv : Env :=
  envOf [("CHAT_LOCALE", "zh-CN"); ("CHAT_MAX_TOKENS", "4096");
         ("CHAT_API_BASE", "https://upstream/v1/chat/completions");
         ("CHAT_API_KEY", "sk-test"); ("CHAT_API_MODEL_NAME", "gpt-4o");
         ("LIGHTWEIGHT_MODEL", "gpt-4o-mini")].

Definition sampleRequest : JSON :=
  JObject [member "model" (JString (str "gpt-4"));
           member "n" (JNumber 3);
           member "max_tokens" (JNumber 100000);
           member "intent" JTrue;
           member "messages"
             (JArray [JObject [member "role" (JString (str "assistant"));
                               member "content" (JString (str "Hi."));
                               member "tool_calls" (JArray [])];
                      message "user" "Explain this code."])].

(** A request whose limits exceed their bounds as numbers but not as
    gjson's Int() reads them: 2^64 wraps to 0 and 2^63 to MinInt64. *)
Definition wrappingLimitsRequest : JSON :=
  JObject [member "model" (JString (str "gpt-4"));
           member "n" (JNumber 18446744073709551616);
           member "max_tokens" (JNumber 9223372036854775808);
           member "messages" (JArray [message "user" "Explain this code."])].

(** A request that carries the legacy function_call field. *)
Definition functionCallRequest : JSON :=
  JObject [member "model" (JString (str "gpt-4"));
           member "function_call" (JString (str "auto"));
           member "messages" (JArray [message "user" "Explain this code."])].


(** A request with fields that the handler strips, one of them twice. *)
Definition strippedRequest : JSON :=
  JObject [member "model" (JString (str "gpt-4"));
           member "intent" JTrue;
           member "logprobs" JTrue;
           member "tools" (JArray []);
           member "logprobs" JFalse;
           member "messages" (JArray [message "user" "Explain this code."])].

(** ** Further definitions used by the properties below *)

(** The text of a group of lines, each followed by a newline. *)
Definition renderLines (g : list gostring) : gostring :=
  concat (map (fun line => line ++ [nl]) g).

(** A group of lines that a chunk may hold: not empty, and within the
    budget unless it is a single line. *)
Definition groupFits (chunkSize : Z) (g : list gostring) : Prop :=
  g <> [] /\ (len (renderLines g) <= chunkSize \/ length g = 1%nat).


(** The number of top-level members of a document with a given key. *)
Fixpoint countMember (members : list (gostring * JSON)) (key : gostring)
    : nat :=
  match members with
  | [] => 0
  | (k, _) :: rest => (if eqs k key then 1 else 0) + countMember rest key
  end.

Definition occurrences (key : gostring) (j : JSON) : nat :=
  match j with
  | JObject members => countMember members key
  | _ => 0%nat
  end.

(** The keys that the handler always deletes, and those it deletes unless
    CHAT_USE_TOOLS is true. *)
Definition intentKeys : list gostring :=
  map str ["intent"; "intent_threshold"; "intent_content"; "logprobs"].

Definition toolKeys : list gostring :=
  map str ["tools"; "tool_call"; "functions"; "function_call"; "tool_choice"].


(** * Properties *)

(** ** Strings *)

Lemma len_app {A : Type} (a b : list A) : len (a ++ b) = len a + len b.
Proof. unfold len. rewrite length_app. lia. Qed.

Lemma len_nonneg {A : Type} (a : list A) : 0 <= len a.
Proof. unfold len. lia. Qed.

Lemma len_nil_iff {A : Type} (a : list A) : (len a >? 0) = false <-> a = [].
Proof.
  unfold len. destruct a; simpl; split; intros H; try done; lia.
Qed.

Lemma ascii_eqb_refl (c : ascii) : Ascii.eqb c c = true.
Proof. apply Ascii.eqb_eq. reflexivity. Qed.

Lemma HasPrefix_app (p s : gostring) : HasPrefix (p ++ s) p = true.
Proof.
  induction p as [|c p IH]; simpl; [reflexivity|].
  rewrite ascii_eqb_refl. exact IH.
Qed.

Lemma TrimPrefix_app (p s : gostring) : TrimPrefix (p ++ s) p = s.
Proof.
  unfold TrimPrefix. rewrite HasPrefix_app. apply drop_app_length.
Qed.

Lemma TrimSuffix_app (s x : gostring) : TrimSuffix (s ++ x) x = s.
Proof.
  unfold TrimSuffix, HasSuffix. rewrite rev_app_distr, HasPrefix_app.
  rewrite length_app.
  replace (length s + length x - length x)%nat with (length s) by lia.
  apply take_app_length.
Qed.

Lemma Index_first_newline (a b : gostring) :
  ~ In nl a -> Index (a ++ nl :: b) [nl] = len a.
Proof.
  induction a as [|c a IH]; intros Hnl.
  - destruct b; reflexivity.
  - assert (Hc : Ascii.eqb c nl = false).
    { apply Ascii.eqb_neq. intros ->. apply Hnl. left. reflexivity. }
    assert (Ha : ~ In nl a) by (intros Hin; apply Hnl; right; exact Hin).
    specialize (IH Ha).
    change (Index ((c :: a) ++ nl :: b) [nl])
      with (if Ascii.eqb c nl && true then 0
            else let i := Index (a ++ nl :: b) [nl] in
                 if i <? 0 then -1 else i + 1).
    rewrite Hc, IH. simpl.
    pose proof (len_nonneg a) as Hge.
    destruct (len a <? 0) eqn:E; [lia|].
    unfold len. simpl length. lia.
Qed.

Lemma Split_nonempty (s : gostring) (sep : ascii) : Split s sep <> [].
Proof.
  destruct s as [|c r]; simpl; [discriminate|].
  destruct (Ascii.eqb c sep); [discriminate|].
  destruct (Split r sep); discriminate.
Qed.

(** Joining the lines of strings.Split, each followed by the separator,
    gives the string followed by one separator. *)
Lemma Split_lines_concat (s : gostring) (sep : ascii) :
  concat (map (fun line => line ++ [sep]) (Split s sep)) = s ++ [sep].
Proof.
  induction s as [|c r IH]; simpl; [reflexivity|].
  destruct (Ascii.eqb c sep) eqn:E.
  - apply Ascii.eqb_eq in E. subst c. simpl. rewrite IH. reflexivity.
  - pose proof (Split_nonempty r sep) as Hne.
    destruct (Split r sep) as [|h t]; [congruence|].
    simpl in *. rewrite <- IH. reflexivity.
Qed.

(** extractPlainText undoes the envelope of createChunk. *)
Lemma extractPlainText_envelope (path text : gostring) :
  ~ In nl path ->
  extractPlainText (markdownFilePrefix path ++ text ++ markdownFileSuffix)
  = text.
Proof.
  intros Hnl.
  set (fence := str "```shell" ++ [nl]).
  set (header := str "File: `" ++ path ++ str "`").
  assert (Hh : ~ In nl header).
  { unfold header. rewrite !in_app_iff. intros [H|[H|H]].
    - vm_compute in H. intuition discriminate.
    - exact (Hnl H).
    - vm_compute in H. intuition discriminate. }
  assert (E : markdownFilePrefix path ++ text ++ markdownFileSuffix
              = header ++ nl :: (fence ++ text ++ markdownFileSuffix)).
  { unfold markdownFilePrefix, header, fence.
    rewrite <- !app_assoc. reflexivity. }
  rewrite E. unfold extractPlainText. cbv zeta.
  rewrite Index_first_newline by exact Hh.
  pose proof (len_nonneg header) as Hge.
  destruct (len header =? -1) eqn:E1; [lia|].
  replace (Z.to_nat (len header + 1)) with (length (header ++ [nl])).
  2:{ rewrite length_app. unfold len. simpl. lia. }
  replace (header ++ nl :: fence ++ text ++ markdownFileSuffix)
    with ((header ++ [nl]) ++ fence ++ text ++ markdownFileSuffix).
  2:{ rewrite <- app_assoc. reflexivity. }
  rewrite drop_app_length. fold fence.
  rewrite TrimPrefix_app. apply TrimSuffix_app.
Qed.

(** ** SplitIntoChunks *)

Section ChunkProperties.

Variable Sum256 : gostring -> gostring.
Variable env : Env.
Variables path model : gostring.

Let wrapped := fun text s e => createChunk Sum256 text path s e model.
Let texts := fun cs : list Chunk => concat (map (unwrappedText path) cs).

Lemma unwrappedText_createChunk (text : gostring) (s e : Z) (m : gostring) :
  unwrappedText path (createChunk Sum256 text path s e m) = text.
Proof.
  unfold unwrappedText, createChunk. cbn [Chunk_Text].
  rewrite drop_app_length, !length_app.
  replace (length (markdownFilePrefix path)
           + (length text + length markdownFileSuffix)
           - length (markdownFilePrefix path)
           - length markdownFileSuffix)%nat with (length text) by lia.
  apply take_app_length.
Qed.

Lemma texts_snoc (cs : list Chunk) (text : gostring) (s e : Z) :
  texts (cs ++ [wrapped text s e]) = texts cs ++ text.
Proof.
  unfold texts, wrapped. rewrite map_app, concat_app. simpl.
  rewrite unwrappedText_createChunk, app_nil_r. reflexivity.
Qed.

(** What the loop keeps: sealed text plus the builder is the text read so
    far, and [start] is the length of the sealed text. *)
Lemma splitLoop_texts (chunkSize : Z) (lines : list gostring)
    (st : splitState) :
  let st' := fold_left (splitLine Sum256 path model chunkSize) lines st in
  texts (chunks_ st') ++ sb st'
  = texts (chunks_ st) ++ sb st
    ++ concat (map (fun line => line ++ [nl]) lines).
Proof.
  revert st. induction lines as [|line lines IH]; intros st; simpl.
  - rewrite app_nil_r. reflexivity.
  - rewrite IH. unfold splitLine.
    destruct ((len (sb st) + len (line ++ [nl]) >? chunkSize)
              && (len (sb st) >? 0)); simpl.
    + fold (wrapped (sb st) (start_ st) (start_ st + len (sb st))).
      rewrite texts_snoc, <- !app_assoc. reflexivity.
    + rewrite <- !app_assoc. reflexivity.
Qed.

Lemma splitLoop_start (chunkSize : Z) (lines : list gostring)
    (st : splitState) :
  start_ st = len (texts (chunks_ st)) ->
  let st' := fold_left (splitLine Sum256 path model chunkSize) lines st in
  start_ st' = len (texts (chunks_ st')).
Proof.
  revert st. induction lines as [|line lines IH]; intros st Hst; simpl.
  - exact Hst.
  - apply IH. unfold splitLine.
    destruct ((len (sb st) + len (line ++ [nl]) >? chunkSize)
              && (len (sb st) >? 0)); simpl.
    + fold (wrapped (sb st) (start_ st) (start_ st + len (sb st))).
      rewrite texts_snoc, len_app, Hst. reflexivity.
    + exact Hst.
Qed.

Lemma splitLoop_sb (chunkSize : Z) (lines : list gostring)
    (st : splitState) :
  lines <> [] \/ sb st <> [] ->
  sb (fold_left (splitLine Sum256 path model chunkSize) lines st) <> [].
Proof.
  revert st. induction lines as [|line lines IH]; intros st H; simpl.
  - destruct H as [H|H]; [congruence|exact H].
  - apply IH. right. unfold splitLine.
    destruct ((len (sb st) + len (line ++ [nl]) >? chunkSize)
              && (len (sb st) >? 0)); simpl.
    + destruct line; discriminate.
    + destruct (sb st); destruct line; discriminate.
Qed.

(** Every sealed chunk is a createChunk of some text at [start],
    [start + len text]. *)
Lemma splitLoop_Forall (P : Chunk -> Prop) (chunkSize : Z)
    (lines : list gostring) (st : splitState) :
  (forall text s, P (wrapped text s (s + len text))) ->
  Forall P (chunks_ st) ->
  Forall P
    (chunks_ (fold_left (splitLine Sum256 path model chunkSize) lines st)).
Proof.
  intros HP. revert st.
  induction lines as [|line lines IH]; intros st Hall; simpl.
  - exact Hall.
  - apply IH. unfold splitLine.
    destruct ((len (sb st) + len (line ++ [nl]) >? chunkSize)
              && (len (sb st) >? 0)); simpl.
    + apply Forall_app. split; [exact Hall|].
      constructor; [apply HP|constructor].
    + exact Hall.
Qed.

(** The value SplitIntoChunks returns, when it returns. *)
Lemma SplitIntoChunks_Returns (content : gostring) (chunks : list Chunk) :
  SplitIntoChunks Sum256 env content path model = Returns chunks ->
  let st := fold_left (splitLine Sum256 path model (getChunkSize env))
              (Split content nl) {| chunks_ := []; sb := []; start_ := 0 |} in
  chunks = chunks_ st ++ [wrapped (sb st) (start_ st) (start_ st + len (sb st))].
Proof.
  unfold SplitIntoChunks.
  destruct (getChunkSize env =? 0); [discriminate|].
  destruct (_ <? 0); [discriminate|].
  set (st := fold_left _ _ _). intros H.
  assert (Hsb : sb st <> []).
  { apply splitLoop_sb. left. apply Split_nonempty. }
  destruct (len (sb st) >? 0) eqn:E.
  - injection H as <-. reflexivity.
  - apply len_nil_iff in E. congruence.
Qed.

(** SplitIntoChunks returns for every positive chunk size. *)
Lemma SplitIntoChunks_total (content : gostring) :
  0 < getChunkSize env ->
  exists chunks,
    SplitIntoChunks Sum256 env content path model = Returns chunks.
Proof.
  intros Hpos. unfold SplitIntoChunks.
  destruct (getChunkSize env =? 0) eqn:E0; [lia|].
  assert (Hq : 0 <= len content ÷ getChunkSize env).
  { apply Z.quot_pos; [apply len_nonneg|lia]. }
  destruct (_ <? 0) eqn:E1; [lia|].
  destruct (_ >? 0); eexists; reflexivity.
Qed.

Lemma SplitIntoChunks_texts (content : gostring) (chunks : list Chunk) :
  SplitIntoChunks Sum256 env content path model = Returns chunks ->
  texts chunks = content ++ [nl].
Proof.
  intros H. apply SplitIntoChunks_Returns in H. simpl in H. subst chunks.
  rewrite texts_snoc, splitLoop_texts. simpl.
  apply Split_lines_concat.
Qed.

Lemma SplitIntoChunks_Forall (P : Chunk -> Prop) (content : gostring)
    (chunks : list Chunk) :
  (forall text s, P (wrapped text s (s + len text))) ->
  SplitIntoChunks Sum256 env content path model = Returns chunks ->
  Forall P chunks.
Proof.
  intros HP H. apply SplitIntoChunks_Returns in H. simpl in H. subst chunks.
  apply Forall_app. split.
  - apply splitLoop_Forall; [exact HP|constructor].
  - constructor; [apply HP|constructor].
Qed.

(** The start offset of every sealed chunk is the length of the text
    sealed before it. *)
Let contiguous := contiguous path.

Lemma contiguous_snoc (cs : list Chunk) (text : gostring) (e : Z) :
  contiguous cs ->
  contiguous (cs ++ [wrapped text (len (texts cs)) e]).
Proof.
  intros Hcs i c Hi.
  destruct (decide (i < length cs)%nat) as [Hlt|Hge].
  - rewrite lookup_app_l in Hi by exact Hlt.
    rewrite take_app_le by lia. apply Hcs. exact Hi.
  - pose proof (lookup_lt_Some _ _ _ Hi) as Hlen.
    rewrite length_app in Hlen. simpl in Hlen.
    assert (i = length cs) as -> by lia.
    rewrite list_lookup_middle in Hi by reflexivity.
    injection Hi as <-.
    rewrite take_app_length. reflexivity.
Qed.

Lemma splitLoop_contiguous (chunkSize : Z) (lines : list gostring)
    (st : splitState) :
  start_ st = len (texts (chunks_ st)) ->
  contiguous (chunks_ st) ->
  contiguous
    (chunks_ (fold_left (splitLine Sum256 path model chunkSize) lines st)).
Proof.
  revert st. induction lines as [|line lines IH]; intros st Hst Hc; simpl.
  - exact Hc.
  - unfold splitLine at 2.
    destruct ((len (sb st) + len (line ++ [nl]) >? chunkSize)
              && (len (sb st) >? 0)).
    + apply IH; simpl.
      * fold (wrapped (sb st) (start_ st) (start_ st + len (sb st))).
        rewrite texts_snoc, len_app, Hst. reflexivity.
      * rewrite Hst. apply contiguous_snoc. exact Hc.
    + apply IH; assumption.
Qed.

Lemma SplitIntoChunks_contiguous (content : gostring)
    (chunks : list Chunk) :
  SplitIntoChunks Sum256 env content path model = Returns chunks ->
  contiguous chunks.
Proof.
  intros H. apply SplitIntoChunks_Returns in H. simpl in H. subst chunks.
  set (st0 := {| chunks_ := []; sb := []; start_ := 0 |}).
  assert (H0 : start_ st0 = len (texts (chunks_ st0))) by reflexivity.
  pose proof (splitLoop_start (getChunkSize env) (Split content nl) st0 H0)
    as Hs.
  simpl in Hs. rewrite Hs.
  apply contiguous_snoc, splitLoop_contiguous; [exact H0|].
  intros i c Hi. simpl in Hi. rewrite lookup_nil in Hi. discriminate.
Qed.

(** While the whole text fits the budget, nothing is sealed. *)
Lemma splitLoop_fits (chunkSize : Z) (lines : list gostring)
    (st : splitState) :
  len (sb st) + len (concat (map (fun line => line ++ [nl]) lines))
    <= chunkSize ->
  fold_left (splitLine Sum256 path model chunkSize) lines st
  = {| chunks_ := chunks_ st;
       sb := sb st ++ concat (map (fun line => line ++ [nl]) lines);
       start_ := start_ st |}.
Proof.
  revert st. induction lines as [|line lines IH]; intros st Hfit; simpl.
  - rewrite app_nil_r. destruct st; reflexivity.
  - simpl in Hfit. rewrite len_app in Hfit.
    pose proof (len_nonneg (concat (map (fun l => l ++ [nl]) lines))).
    unfold splitLine at 2.
    destruct (len (sb st) + len (line ++ [nl]) >? chunkSize) eqn:E; [lia|].
    simpl. rewrite IH; simpl.
    + rewrite <- app_assoc. reflexivity.
    + rewrite len_app. lia.
Qed.

Lemma SplitIntoChunks_small (content : gostring) :
  len content < getChunkSize env ->
  SplitIntoChunks Sum256 env content path model
  = Returns [wrapped (content ++ [nl]) 0 (len content + 1)].
Proof.
  intros Hlt. pose proof (len_nonneg content) as Hge.
  unfold SplitIntoChunks.
  destruct (getChunkSize env =? 0) eqn:E0; [lia|].
  assert (Hq : 0 <= len content ÷ getChunkSize env).
  { apply Z.quot_pos; lia. }
  destruct (_ <? 0) eqn:E1; [lia|].
  rewrite splitLoop_fits; simpl.
  - rewrite Split_lines_concat.
    destruct (len (content ++ [nl]) >? 0) eqn:E.
    + rewrite len_app. reflexivity.
    + apply len_nil_iff in E. destruct content; discriminate.
  - rewrite Split_lines_concat. unfold len in *.
    rewrite length_app. simpl. lia.
Qed.

End ChunkProperties.

(** ** The claims about SplitIntoChunks *)

(** C1 (as amended).  SplitIntoChunks returns for every positive chunk
    size, and whenever it returns, the unwrapped texts of the chunks,
    concatenated in order, are the content followed by one newline: every
    line of strings.Split gets a newline back, the last one too. *)
Theorem SplitIntoChunks_concat_newline :
  forall (Sum256 : gostring -> gostring) (env : Env)
         (content path model : gostring),
    (0 < getChunkSize env ->
     exists chunks,
       SplitIntoChunks Sum256 env content path model = Returns chunks) /\
    (forall chunks,
       SplitIntoChunks Sum256 env content path model = Returns chunks ->
       concat (map (unwrappedText path) chunks) = content ++ [nl]).
Proof.
  intros Sum256 env content path model. split.
  - apply SplitIntoChunks_total.
  - intros chunks H. exact (SplitIntoChunks_texts _ _ _ _ _ _ H).
Qed.

Lemma SplitIntoChunks_concat_newline_witness :
  exists chunks,
    SplitIntoChunks toySum256 (envOf [("EMBEDDING_DIMENSION_SIZE", "2")])
      (str "ab" ++ [nl] ++ str "cd") (str "main.go") (str "m")
    = Returns chunks /\
    concat (map (unwrappedText (str "main.go")) chunks)
    = (str "ab" ++ [nl] ++ str "cd") ++ [nl].
Proof.
  destruct (SplitIntoChunks_concat_newline toySum256
              (envOf [("EMBEDDING_DIMENSION_SIZE", "2")])
              (str "ab" ++ [nl] ++ str "cd") (str "main.go") (str "m"))
    as [Htotal Hconcat].
  destruct (Htotal ltac:(reflexivity)) as [chunks Hchunks].
  exists chunks. split; [exact Hchunks|]. apply Hconcat. exact Hchunks.
Defined.

(** C1 as stated fails: the chunk of the content "a" has the text "a\n". *)
Lemma SplitIntoChunks_concat_counterexample :
  exists chunks,
    SplitIntoChunks toySum256 (envOf []) (str "a") (str "main.go") (str "m")
    = Returns chunks /\
    concat (map (unwrappedText (str "main.go")) chunks) <> str "a".
Proof.
  eexists. split; [vm_compute; reflexivity|]. vm_compute. discriminate.
Qed.

(** C2 (as amended).  A content strictly shorter than the chunk budget
    [getChunkSize] (so that the content and the newline added after its
    last line fit) comes back as exactly one chunk, whose unwrapped text
    is the content followed by one newline. *)
Theorem SplitIntoChunks_single_chunk :
  forall (Sum256 : gostring -> gostring) (env : Env)
         (content path model : gostring),
    len content < getChunkSize env ->
    exists c,
      SplitIntoChunks Sum256 env content path model = Returns [c] /\
      unwrappedText path c = content ++ [nl].
Proof.
  intros Sum256 env content path model Hlt.
  eexists. split.
  - apply SplitIntoChunks_small. exact Hlt.
  - apply unwrappedText_createChunk.
Qed.

Lemma SplitIntoChunks_single_chunk_witness :
  exists c,
    SplitIntoChunks toySum256 (envOf []) (str "package main") (str "main.go")
      (str "m") = Returns [c] /\
    unwrappedText (str "main.go") c = str "package main" ++ [nl].
Proof.
  apply (SplitIntoChunks_single_chunk toySum256 (envOf [])
           (str "package main") (str "main.go") (str "m")).
  reflexivity.
Defined.

(** C2 as stated fails twice.  With a budget of 3 bytes (dimension 2) the
    3-byte content "a\nb" is split in two chunks; and under the default
    budget the one chunk of "a" holds "a\n", not "a". *)
Lemma SplitIntoChunks_single_chunk_counterexample :
  (len (str "a" ++ [nl] ++ str "b")
     <= getChunkSize (envOf [("EMBEDDING_DIMENSION_SIZE", "2")]) /\
   exists c1 c2,
     SplitIntoChunks toySum256 (envOf [("EMBEDDING_DIMENSION_SIZE", "2")])
       (str "a" ++ [nl] ++ str "b") (str "main.go") (str "m")
     = Returns [c1; c2]) /\
  (len (str "a") <= getChunkSize (envOf []) /\
   exists c,
     SplitIntoChunks toySum256 (envOf []) (str "a") (str "main.go") (str "m")
     = Returns [c] /\
     unwrappedText (str "main.go") c <> str "a").
Proof.
  split; split.
  - vm_compute. discriminate.
  - do 2 eexists. vm_compute. reflexivity.
  - vm_compute. discriminate.
  - eexists. split; [vm_compute; reflexivity|]. vm_compute. discriminate.
Qed.

(** C5.  For a path without a newline, extractPlainText gives back the text
    that createChunk wrapped, so the fingerprint recomputed from the
    extracted text is the stored one, for every chunk of SplitIntoChunks. *)
Theorem extractPlainText_hash :
  forall (Sum256 : gostring -> gostring) (env : Env)
         (content path model : gostring) (chunks : list Chunk),
    ~ In nl path ->
    SplitIntoChunks Sum256 env content path model = Returns chunks ->
    Forall (fun c =>
              extractPlainText (Chunk_Text c) = unwrappedText path c /\
              hex (Sum256 (extractPlainText (Chunk_Text c))) = Chunk_Hash c)
      chunks.
Proof.
  intros Sum256 env content path model chunks Hnl H.
  apply (SplitIntoChunks_Forall Sum256 env path model _ content chunks);
    [|exact H].
  intros text s.
  rewrite unwrappedText_createChunk. unfold createChunk. cbn [Chunk_Text Chunk_Hash].
  rewrite extractPlainText_envelope by exact Hnl. split; reflexivity.
Qed.

Lemma extractPlainText_hash_witness :
  exists chunks,
    SplitIntoChunks toySum256 (envOf [("EMBEDDING_DIMENSION_SIZE", "2")])
      (str "ab" ++ [nl] ++ str "cd") (str "main.go") (str "m")
    = Returns chunks /\
    Forall (fun c =>
              extractPlainText (Chunk_Text c)
              = unwrappedText (str "main.go") c /\
              hex (toySum256 (extractPlainText (Chunk_Text c)))
              = Chunk_Hash c)
      chunks.
Proof.
  eexists. split; [vm_compute; reflexivity|].
  apply (extractPlainText_hash toySum256
           (envOf [("EMBEDDING_DIMENSION_SIZE", "2")])
           (str "ab" ++ [nl] ++ str "cd") (str "main.go") (str "m")).
  - vm_compute. intuition discriminate.
  - vm_compute. reflexivity.
Defined.

(** C10.  In every chunk SplitIntoChunks returns, LineRange is the same
    pair as Range, End - Start is the length of the unwrapped text, and
    Start is the number of bytes of the chunks before it: byte offsets,
    never line numbers. *)
Theorem SplitIntoChunks_ranges :
  forall (Sum256 : gostring -> gostring) (env : Env)
         (content path model : gostring) (chunks : list Chunk),
    SplitIntoChunks Sum256 env content path model = Returns chunks ->
    forall (i : nat) (c : Chunk),
      chunks !! i = Some c ->
      Chunk_LineRange c = Chunk_Range c /\
      Range_End (Chunk_Range c) - Range_Start (Chunk_Range c)
      = len (unwrappedText path c) /\
      Range_Start (Chunk_Range c)
      = len (concat (map (unwrappedText path) (take i chunks))).
Proof.
  intros Sum256 env content path model chunks H i c Hi.
  assert (Hall :
    Forall (fun c =>
              Chunk_LineRange c = Chunk_Range c /\
              Range_End (Chunk_Range c) - Range_Start (Chunk_Range c)
              = len (unwrappedText path c)) chunks).
  { apply (SplitIntoChunks_Forall Sum256 env path model _ content chunks);
      [|exact H].
    intros text s. rewrite unwrappedText_createChunk.
    unfold createChunk. cbn. split; [reflexivity|lia]. }
  rewrite Forall_lookup in Hall. destruct (Hall i c Hi) as [H1 H2].
  split; [exact H1|]. split; [exact H2|].
  exact (SplitIntoChunks_contiguous _ _ _ _ _ _ H i c Hi).
Qed.

Lemma SplitIntoChunks_ranges_witness :
  exists chunks c,
    SplitIntoChunks toySum256 (envOf [("EMBEDDING_DIMENSION_SIZE", "2")])
      (str "ab" ++ [nl] ++ str "cd") (str "main.go") (str "m")
    = Returns chunks /\
    chunks !! 1%nat = Some c /\
    Chunk_LineRange c = Chunk_Range c /\
    Range_End (Chunk_Range c) - Range_Start (Chunk_Range c)
    = len (unwrappedText (str "main.go") c) /\
    Range_Start (Chunk_Range c)
    = len (concat (map (unwrappedText (str "main.go")) (take 1 chunks))).
Proof.
  do 2 eexists. split; [vm_compute; reflexivity|].
  split; [reflexivity|].
  apply (SplitIntoChunks_ranges toySum256
           (envOf [("EMBEDDING_DIMENSION_SIZE", "2")])
           (str "ab" ++ [nl] ++ str "cd") (str "main.go") (str "m")).
  - vm_compute. reflexivity.
  - reflexivity.
Defined.


(** ** GenerateEmbeddings, serial path *)

Section SerialProperties.

Variable GetEmbeddings : list gostring -> error + EmbeddingResponse.

Local Abbreviation ans := (answer GetEmbeddings).
Local Abbreviation emb := (embedded GetEmbeddings).

Lemma embedded_inr (c : Chunk) (embedding : list float32) :
  ans c = inr embedding -> emb c = setEmbedding embedding c.
Proof. unfold embedded. intros ->. reflexivity. Qed.

Lemma embedded_inl (c : Chunk) (e : error) :
  ans c = inl e -> emb c = c.
Proof. unfold embedded. intros ->. reflexivity. Qed.

(** The assignment [chunks[idx].Embedding.Embedding = embedding] stores
    the vector and touches nothing else. *)
Lemma setEmbedding_fields (embedding : list float32) (c : Chunk) :
  Embedding_Embedding (Chunk_Embedding (setEmbedding embedding c))
  = embedding /\
  unchangedButVector c (setEmbedding embedding c).
Proof. unfold unchangedButVector. repeat split. Qed.

Lemma textAt_middle (done todo : list Chunk) (c : Chunk) :
  textAt (done ++ c :: todo) (length done) = Chunk_Text c.
Proof.
  unfold textAt. rewrite list_lookup_middle by reflexivity. reflexivity.
Qed.

Lemma alter_middle (f : Chunk -> Chunk) (done todo : list Chunk)
    (c : Chunk) :
  alter f (length done) (done ++ c :: todo) = (done ++ [f c]) ++ todo.
Proof.
  induction done as [|d done IH]; simpl; [reflexivity|].
  f_equal. exact IH.
Qed.

(** The loop stops at the first index whose upstream call fails. *)
Lemma serialLoop_first_failure (k : nat) :
  forall (done todo : list Chunk) (n : nat) (ck : Chunk) (e : error),
    (forall j c, (j < k)%nat -> todo !! j = Some c ->
                 exists embedding, ans c = inr embedding) ->
    todo !! k = Some ck ->
    ans ck = inl e ->
    (k < n)%nat ->
    serialLoop GetEmbeddings (seq (length done) n) (done ++ todo)
    = (done ++ map emb (take k todo) ++ drop k todo,
       Some (ChunkError (length done + k) e)).
Proof.
  induction k as [|k IH]; intros done todo n ck e Hok Hk He Hn.
  - destruct todo as [|c todo]; [discriminate|]. injection Hk as ->.
    destruct n as [|n]; [lia|]. simpl seq. cbn [serialLoop].
    rewrite textAt_middle. fold (ans ck). rewrite He.
    rewrite Nat.add_0_r. reflexivity.
  - destruct todo as [|c todo]; [discriminate|]. simpl in Hk.
    destruct n as [|n]; [lia|]. simpl seq. cbn [serialLoop].
    rewrite textAt_middle. fold (ans c).
    destruct (Hok 0%nat c ltac:(lia) eq_refl) as [embedding Hc].
    rewrite Hc, alter_middle.
    replace (S (length done)) with (length (done ++ [setEmbedding embedding c])).
    2:{ rewrite length_app. simpl. lia. }
    rewrite (IH _ todo n ck e); try assumption; try lia.
    + rewrite length_app. simpl. rewrite (embedded_inr c embedding Hc).
      replace (length done + 1 + k)%nat with (length done + S k)%nat by lia.
      rewrite <- app_assoc. reflexivity.
    + intros j c' Hj Hc'. apply (Hok (S j) c'); [lia|exact Hc'].
Qed.

(** Without a failure every chunk is assigned its vector. *)
Lemma serialLoop_all_ok :
  forall (todo done : list Chunk),
    (forall j c, todo !! j = Some c ->
                 exists embedding, ans c = inr embedding) ->
    serialLoop GetEmbeddings (seq (length done) (length todo))
      (done ++ todo)
    = (done ++ map emb todo, None).
Proof.
  induction todo as [|c todo IH]; intros done Hok.
  - reflexivity.
  - simpl length. simpl seq. cbn [serialLoop].
    rewrite textAt_middle. fold (ans c).
    destruct (Hok 0%nat c eq_refl) as [embedding Hc].
    rewrite Hc, alter_middle.
    replace (S (length done)) with (length (done ++ [setEmbedding embedding c])).
    2:{ rewrite length_app. simpl. lia. }
    rewrite IH.
    + simpl. rewrite (embedded_inr c embedding Hc), <- app_assoc.
      reflexivity.
    + intros j c' Hc'. apply (Hok (S j) c'). exact Hc'.
Qed.

Lemma generateEmbeddingsSerial_first_failure (chunks : list Chunk)
    (k : nat) (ck : Chunk) (e : error) :
  (forall j c, (j < k)%nat -> chunks !! j = Some c ->
               exists embedding, ans c = inr embedding) ->
  chunks !! k = Some ck ->
  ans ck = inl e ->
  generateEmbeddingsSerial GetEmbeddings chunks
  = (map emb (take k chunks) ++ drop k chunks,
     Some (ChunkError k e)).
Proof.
  intros Hok Hk He. unfold generateEmbeddingsSerial.
  pose proof (lookup_lt_Some _ _ _ Hk) as Hlen.
  exact (serialLoop_first_failure k [] chunks (length chunks) ck e
           Hok Hk He Hlen).
Qed.

Lemma generateEmbeddingsSerial_all_ok (chunks : list Chunk) :
  (forall j c, chunks !! j = Some c ->
               exists embedding, ans c = inr embedding) ->
  generateEmbeddingsSerial GetEmbeddings chunks
  = (map emb chunks, None).
Proof.
  intros Hok. exact (serialLoop_all_ok chunks [] Hok).
Qed.

(** With at most five chunks GenerateEmbeddings is the serial loop. *)
Lemma GenerateEmbeddings_small (chunks : list Chunk)
    (out : list Chunk * option error) :
  length chunks <> 0%nat ->
  (length chunks <= 5)%nat ->
  GenerateEmbeddings GetEmbeddings chunks out ->
  out = generateEmbeddingsSerial GetEmbeddings chunks.
Proof.
  intros Hne Hle H. destruct H as [H0|H1 H2|out H3 H4]; [lia|reflexivity|lia].
Qed.

End SerialProperties.

(** C7.  On one to five chunks GenerateEmbeddings runs the serial loop, and
    when [k] is the first index whose upstream call fails, it returns that
    error (wrapped with the index); each chunk before [k] carries as its
    vector the upstream result for its own extracted text, its other
    fields being as they were, and the chunks from [k] on are as they
    were. *)
Theorem GenerateEmbeddings_serial_first_error :
  forall (GetEmbeddings : list gostring -> error + EmbeddingResponse)
         (chunks : list Chunk) (k : nat) (ck : Chunk) (e : error),
    length chunks <> 0%nat ->
    (length chunks <= 5)%nat ->
    (forall j c, (j < k)%nat -> chunks !! j = Some c ->
       exists embedding,
         GetEmbedding GetEmbeddings (extractPlainText (Chunk_Text c))
         = inr embedding) ->
    chunks !! k = Some ck ->
    GetEmbedding GetEmbeddings (extractPlainText (Chunk_Text ck)) = inl e ->
    GenerateEmbeddings GetEmbeddings chunks
      (generateEmbeddingsSerial GetEmbeddings chunks) /\
    forall chunks' err,
      GenerateEmbeddings GetEmbeddings chunks (chunks', err) ->
      err = Some (ChunkError k e) /\
      length chunks' = length chunks /\
      (forall j c, (j < k)%nat -> chunks !! j = Some c ->
         exists embedding c',
           GetEmbedding GetEmbeddings (extractPlainText (Chunk_Text c))
           = inr embedding /\
           chunks' !! j = Some c' /\
           Embedding_Embedding (Chunk_Embedding c') = embedding /\
           unchangedButVector c c') /\
      (forall j, (k <= j)%nat -> chunks' !! j = chunks !! j).
Proof.
  intros GetEmbeddings chunks k ck e Hne Hle Hok Hk He. split.
  - constructor; assumption.
  - intros chunks' err Hrun.
    apply GenerateEmbeddings_small in Hrun; [|assumption..].
    rewrite (generateEmbeddingsSerial_first_failure GetEmbeddings chunks k ck e
               Hok Hk He) in Hrun.
    injection Hrun as -> ->.
    pose proof (lookup_lt_Some _ _ _ Hk) as Hlen.
    assert (Htake :
      length (map (embedded GetEmbeddings) (take k chunks)) = k).
    { rewrite length_map, length_take. lia. }
    split; [reflexivity|]. split; [|split].
    + rewrite length_app, Htake, length_drop. lia.
    + intros j c Hj Hc. destruct (Hok j c Hj Hc) as [embedding Hemb].
      exists embedding, (setEmbedding embedding c). split; [exact Hemb|].
      split; [|apply setEmbedding_fields].
      rewrite lookup_app_l by (rewrite Htake; exact Hj).
      rewrite list_lookup_fmap, lookup_take_lt by exact Hj.
      rewrite Hc. simpl. rewrite (embedded_inr _ c embedding Hemb).
      reflexivity.
    + intros j Hj.
      rewrite lookup_app_r by (rewrite Htake; exact Hj).
      rewrite Htake, lookup_drop. f_equal. lia.
Qed.

(** ** GenerateEmbeddings, parallel path *)

Lemma list_sum_insert {A : Type} (f : A -> nat) (l : list A) (i : nat)
    (x old : A) :
  l !! i = Some old ->
  (list_sum (map f (<[i := x]> l)) + f old = list_sum (map f l) + f x)%nat.
Proof.
  revert i. induction l as [|a l IH]; intros i Hi; [discriminate|].
  destruct i as [|i]; simpl in *.
  - injection Hi as ->. lia.
  - specialize (IH i Hi). lia.
Qed.

Lemma allFinished_lookup (ws : list workerPc) (idx : nat) (w : workerPc) :
  allFinished ws = true -> ws !! idx = Some w -> w = Finished.
Proof.
  unfold allFinished. rewrite forallb_forall. intros Hall Hw.
  apply list_elem_of_lookup_2, list_elem_of_In in Hw.
  specialize (Hall w Hw). destruct w; congruence.
Qed.

Lemma allFinished_false (ws : list workerPc) :
  allFinished ws = false ->
  exists idx w, ws !! idx = Some w /\ w <> Finished.
Proof.
  induction ws as [|a ws IH]; simpl; [discriminate|].
  destruct a; try (intros _; exists 0%nat; eexists; split;
                   [reflexivity|discriminate]).
  intros H. destruct (IH H) as (idx & w & Hw & Hne).
  exists (S idx), w. split; assumption.
Qed.

Lemma permits_positive (ws : list workerPc) :
  (0 < permits ws)%nat ->
  exists idx w, ws !! idx = Some w /\ holdsPermit w = true.
Proof.
  induction ws as [|a ws IH]; unfold permits; simpl; [lia|].
  destruct (holdsPermit a) eqn:E.
  - intros _. exists 0%nat, a. split; [reflexivity|exact E].
  - intros H. destruct (IH H) as (idx & w & Hw & Hp).
    exists (S idx), w. split; assumption.
Qed.

Lemma parExec_app (GetEmbeddings : list gostring -> error + EmbeddingResponse)
    (a b : list action) (s : parState) :
  parExec GetEmbeddings (a ++ b) s
  = match parExec GetEmbeddings a s with
    | Some s' => parExec GetEmbeddings b s'
    | None => None
    end.
Proof.
  revert s. induction a as [|x a IH]; intros s; simpl; [reflexivity|].
  destruct (parStep GetEmbeddings x s); [apply IH|reflexivity].
Qed.

(** Side conditions of a goroutine step that touches neither the chunks
    nor the error channel. *)
Ltac worker_side :=
  first
    [ done
    | assumption
    | (intros ? ?; left; assumption)
    | (unfold semaphoreCapacity in *; simpl; lia) ].

Section ParallelProperties.

Variable GetEmbeddings : list gostring -> error + EmbeddingResponse.
Variable chunks0 : list Chunk.

Local Abbreviation ans := (answer GetEmbeddings).
Local Abbreviation emb := (embedded GetEmbeddings).
Local Abbreviation Inv := (parInv GetEmbeddings chunks0).
Local Abbreviation permit := (fun w => if holdsPermit w then 1%nat else 0%nat).

Lemma parInit_inv : Inv (parInit chunks0).
Proof.
  constructor; simpl.
  - apply length_replicate.
  - reflexivity.
  - unfold permits. induction (length chunks0); simpl; [reflexivity|].
    assumption.
  - unfold semaphoreCapacity. lia.
  - intros idx w Hw. apply lookup_replicate in Hw as [-> Hlt].
    destruct (lookup_lt_is_Some_2 chunks0 idx Hlt) as [c0 Hc0].
    exists c0. split; [exact Hc0|exact Hc0].
  - intros err [].
  - unfold mainInv. simpl. split; [lia|].
    intros idx w Hw. apply lookup_replicate in Hw as [-> Hlt].
    split; [lia|reflexivity].
Qed.

(** A step of the goroutine [idx] from [w] to [w'] that leaves the other
    chunks alone and only adds to the error channel. *)
Lemma worker_step_inv (s : parState) (idx : nat) (w w' : workerPc)
    (sem' : nat) (errs' : list error) (chunks' : list Chunk) :
  Inv s ->
  par_workers s !! idx = Some w ->
  w <> NotSpawned -> w <> Finished -> w' <> NotSpawned ->
  length chunks' = length (par_chunks s) ->
  (forall j, j <> idx -> chunks' !! j = par_chunks s !! j) ->
  (forall err, In err (par_errChan s) -> In err errs') ->
  (forall err, In err errs' ->
     In err (par_errChan s) \/
     exists e c0, err = ChunkError idx e /\ chunks0 !! idx = Some c0 /\
                  ans c0 = inl e) ->
  (sem' + permit w = par_semaphore s + permit w')%nat ->
  (sem' <= semaphoreCapacity)%nat ->
  (forall c0, chunks0 !! idx = Some c0 -> workerInv GetEmbeddings s idx w c0 ->
     workerInv GetEmbeddings
       {| par_main := par_main s;
          par_workers := <[idx := w']> (par_workers s);
          par_semaphore := sem';
          par_errChan := errs';
          par_chunks := chunks' |} idx w' c0) ->
  Inv {| par_main := par_main s;
         par_workers := <[idx := w']> (par_workers s);
         par_semaphore := sem';
         par_errChan := errs';
         par_chunks := chunks' |}.
Proof.
  intros [Hws Hcs Hperm Hbound Hworker Herrs Hmain]
         Hw Hns Hnf Hns' Hlen Hother Hgrow Hnew Hsem Hcap Hstep.
  constructor; simpl.
  - rewrite length_insert. exact Hws.
  - rewrite Hlen. exact Hcs.
  - pose proof (list_sum_insert permit (par_workers s) idx w' w Hw) as Hsum.
    unfold permits in *. lia.
  - exact Hcap.
  - intros j wj Hj.
    destruct (decide (j = idx)) as [->|Hne].
    + rewrite list_lookup_insert_eq in Hj
        by (apply lookup_lt_is_Some_1; eauto).
      injection Hj as <-.
      destruct (Hworker idx w Hw) as (c0 & Hc0 & Hinv).
      exists c0. split; [exact Hc0|]. apply Hstep; assumption.
    + rewrite list_lookup_insert_ne in Hj by congruence.
      destruct (Hworker j wj Hj) as (c0 & Hc0 & Hinv).
      exists c0. split; [exact Hc0|].
      unfold workerInv in *. simpl. rewrite (Hother j Hne).
      destruct wj; try exact Hinv.
      * destruct Hinv as [H1 H2]. split; [exact H1|].
        intros e He. apply Hgrow, H2, He.
      * destruct Hinv as [H1 H2]. split; [exact H1|].
        intros e He. apply Hgrow, H2, He.
  - intros err Herr. destruct (Hnew err Herr) as [Hold|(e & c0 & H)].
    + apply Herrs, Hold.
    + exists idx, e, c0. exact H.
  - unfold mainInv in *. simpl. destruct (par_main s) as [i|err].
    + destruct Hmain as [Hi Hspawned]. split; [exact Hi|].
      intros j wj Hj. destruct (decide (j = idx)) as [->|Hne].
      * rewrite list_lookup_insert_eq in Hj
          by (apply lookup_lt_is_Some_1; eauto).
        injection Hj as <-.
        pose proof (Hspawned idx w Hw) as Hiff.
        split; [congruence|]. intros Hle. exfalso. tauto.
      * rewrite list_lookup_insert_ne in Hj by congruence.
        apply Hspawned, Hj.
    + destruct Hmain as [_ Hall]. exfalso.
      apply Hnf. exact (allFinished_lookup _ _ _ Hall Hw).
Qed.

Lemma parStep_inv (a : action) (s s' : parState) :
  Inv s -> parStep GetEmbeddings a s = Some s' -> Inv s'.
Proof.
  intros HI Hstep. destruct a as [|idx|idx|idx|idx|]; simpl in Hstep.
  - (* Spawn *)
    destruct (par_main s) as [i|] eqn:Hm; [|discriminate].
    case_bool_decide as Hi; [|discriminate]. injection Hstep as <-.
    destruct HI as [Hws Hcs Hperm Hbound Hworker Herrs Hmain].
    unfold mainInv in Hmain. rewrite Hm in Hmain.
    destruct Hmain as [Hle Hspawned].
    assert (Hlt : (i < length (par_workers s))%nat) by lia.
    destruct (lookup_lt_is_Some_2 _ _ Hlt) as [w Hw].
    assert (w = NotSpawned) as -> by (apply (Hspawned i w Hw); lia).
    constructor; simpl.
    + rewrite length_insert. exact Hws.
    + exact Hcs.
    + pose proof (list_sum_insert permit (par_workers s) i Waiting
                    NotSpawned Hw) as Hsum.
      unfold permits in *. simpl in Hsum. lia.
    + exact Hbound.
    + intros j wj Hj. destruct (decide (j = i)) as [->|Hne].
      * rewrite list_lookup_insert_eq in Hj by exact Hlt.
        injection Hj as <-. exact (Hworker i NotSpawned Hw).
      * rewrite list_lookup_insert_ne in Hj by congruence.
        exact (Hworker j wj Hj).
    + exact Herrs.
    + unfold mainInv. simpl. split; [lia|].
      intros j wj Hj. destruct (decide (j = i)) as [->|Hne].
      * rewrite list_lookup_insert_eq in Hj by exact Hlt.
        injection Hj as <-. split; [discriminate|lia].
      * rewrite list_lookup_insert_ne in Hj by congruence.
        rewrite (Hspawned j wj Hj). lia.
  - (* Acquire *)
    destruct (par_workers s !! idx) as [[| | | | |]|] eqn:Hw;
      try discriminate.
    case_bool_decide as Hfree; [|discriminate]. injection Hstep as <-.
    apply (worker_step_inv s idx Waiting Holding); try worker_side.
  - (* Call *)
    destruct (par_workers s !! idx) as [[| | | | |]|] eqn:Hw;
      try discriminate.
    injection Hstep as <-. unfold setWorker.
    pose proof (inv_bound _ _ _ HI) as Hbound.
    apply (worker_step_inv s idx Holding (Called _)); try worker_side.
    intros c0 Hc0 Hinv. unfold workerInv in *. simpl.
    split; [|exact Hinv].
    unfold textAt. rewrite Hinv. reflexivity.
  - (* Commit *)
    pose proof (inv_bound _ _ _ HI) as Hbound.
    destruct (par_workers s !! idx) as [[| | |[err|embedding]| |]|] eqn:Hw;
      try discriminate; injection Hstep as <-.
    + destruct (inv_worker _ _ _ HI idx _ Hw) as (c0 & Hc0 & Hr & Hc).
      apply (worker_step_inv s idx (Called (inl err)) Releasing);
        try worker_side.
      * intros e He. apply in_or_app. left. exact He.
      * intros e He. apply in_app_or in He as [He|[<-|[]]].
        -- left. exact He.
        -- right. exists err, c0. split; [reflexivity|].
           split; [exact Hc0|]. symmetry. exact Hr.
      * intros c1 Hc1 [Hr1 Hinv]. unfold workerInv. simpl.
        rewrite (embedded_inl GetEmbeddings c1 err) by (symmetry; exact Hr1).
        split; [exact Hinv|].
        intros e He. rewrite <- Hr1 in He. injection He as <-.
        apply in_or_app. right. left. reflexivity.
    + apply (worker_step_inv s idx (Called (inr embedding)) Releasing);
        try worker_side.
      * apply length_alter.
      * intros j Hne. apply list_lookup_alter_ne. congruence.
      * intros c1 Hc1 [Hr1 Hinv]. unfold workerInv. simpl.
        rewrite list_lookup_alter_eq, Hinv. simpl.
        rewrite (embedded_inr GetEmbeddings c1 embedding)
          by (symmetry; exact Hr1).
        split; [reflexivity|].
        intros e He. rewrite <- Hr1 in He. discriminate.
  - (* Release *)
    destruct (par_workers s !! idx) as [[| | | | |]|] eqn:Hw;
      try discriminate.
    injection Hstep as <-.
    pose proof (inv_bound _ _ _ HI) as Hbound.
    assert (Hpos : (0 < par_semaphore s)%nat).
    { rewrite (inv_permits _ _ _ HI).
      pose proof (list_sum_insert permit (par_workers s) idx Finished
                    Releasing Hw) as Hsum.
      unfold permits. simpl in Hsum. lia. }
    apply (worker_step_inv s idx Releasing Finished); try worker_side.
  - (* Return *)
    destruct (par_main s) as [i|] eqn:Hm; [|discriminate].
    destruct (bool_decide (i = length (par_chunks s))
              && allFinished (par_workers s)) eqn:Hguard; [|discriminate].
    injection Hstep as <-.
    apply andb_true_iff in Hguard as [_ Hall].
    destruct HI as [Hws Hcs Hperm Hbound Hworker Herrs Hmain].
    constructor; simpl; try assumption.
    unfold mainInv. simpl. split; [reflexivity|exact Hall].
Qed.

Lemma parExec_inv (schedule : list action) (s s' : parState) :
  Inv s -> parExec GetEmbeddings schedule s = Some s' -> Inv s'.
Proof.
  revert s. induction schedule as [|a schedule IH]; intros s HI H.
  - injection H as <-. exact HI.
  - simpl in H. destruct (parStep GetEmbeddings a s) as [s1|] eqn:Hs;
      [|discriminate].
    apply (IH s1); [|exact H]. exact (parStep_inv a s s1 HI Hs).
Qed.

Lemma parReachable_inv (s : parState) : parReachable GetEmbeddings chunks0 s -> Inv s.
Proof.
  intros [schedule H]. exact (parExec_inv schedule _ s parInit_inv H).
Qed.

(** Every action uses up one unit of fuel: no run goes on forever. *)
Lemma parStep_fuel (a : action) (s s' : parState) :
  Inv s -> parStep GetEmbeddings a s = Some s' ->
  S (parFuel s') = parFuel s.
Proof.
  intros HI Hstep. unfold parFuel.
  destruct a as [|idx|idx|idx|idx|]; simpl in Hstep.
  - destruct (par_main s) as [i|] eqn:Hm; [|discriminate].
    case_bool_decide as Hi; [|discriminate]. injection Hstep as <-.
    pose proof (inv_main _ _ _ HI) as Hmain.
    unfold mainInv in Hmain. rewrite Hm in Hmain.
    destruct Hmain as [Hle Hspawned].
    assert (Hlt : (i < length (par_workers s))%nat).
    { rewrite (inv_workers _ _ _ HI), <- (inv_chunks _ _ _ HI). exact Hi. }
    destruct (lookup_lt_is_Some_2 _ _ Hlt) as [w Hw].
    assert (w = NotSpawned) as -> by (apply (Hspawned i w Hw); lia).
    pose proof (list_sum_insert workerFuel (par_workers s) i Waiting
                  NotSpawned Hw) as Hsum.
    simpl in *. lia.
  - destruct (par_workers s !! idx) as [[| | | | |]|] eqn:Hw;
      try discriminate.
    case_bool_decide; [|discriminate]. injection Hstep as <-.
    pose proof (list_sum_insert workerFuel (par_workers s) idx Holding
                  Waiting Hw) as Hsum.
    simpl in *. lia.
  - destruct (par_workers s !! idx) as [[| | | | |]|] eqn:Hw;
      try discriminate.
    injection Hstep as <-.
    pose proof (list_sum_insert workerFuel (par_workers s) idx
                  (Called (GetEmbedding GetEmbeddings
                     (extractPlainText (textAt (par_chunks s) idx))))
                  Holding Hw) as Hsum.
    simpl in *. lia.
  - destruct (par_workers s !! idx) as [[| | |[err|embedding]| |]|] eqn:Hw;
      try discriminate; injection Hstep as <-;
      pose proof (list_sum_insert workerFuel (par_workers s) idx Releasing
                    _ Hw) as Hsum;
      simpl in *; lia.
  - destruct (par_workers s !! idx) as [[| | | | |]|] eqn:Hw;
      try discriminate.
    injection Hstep as <-.
    pose proof (list_sum_insert workerFuel (par_workers s) idx Finished
                  Releasing Hw) as Hsum.
    simpl in *. lia.
  - destruct (par_main s) as [i|] eqn:Hm; [|discriminate].
    destruct (_ && _); [|discriminate].
    injection Hstep as <-. simpl. reflexivity.
Qed.

(** No deadlock: until generateEmbeddingsParallel has returned, some
    goroutine can take a step. *)
Lemma par_progress (s : parState) :
  Inv s ->
  (exists err, par_main s = MainReturned err) \/
  (exists a s', parStep GetEmbeddings a s = Some s').
Proof.
  intros HI. destruct (par_main s) as [i|err] eqn:Hm;
    [right|left; eexists; reflexivity].
  pose proof (inv_main _ _ _ HI) as Hmain.
  unfold mainInv in Hmain. rewrite Hm in Hmain.
  destruct Hmain as [Hle Hspawned].
  destruct (decide (i < length chunks0)%nat) as [Hlt|Hge].
  { exists Spawn. simpl. rewrite Hm, (inv_chunks _ _ _ HI).
    rewrite bool_decide_eq_true_2 by exact Hlt. eexists. reflexivity. }
  assert (Hi : i = length chunks0) by lia.
  destruct (allFinished (par_workers s)) eqn:Hall.
  { exists Return. simpl. rewrite Hm, (inv_chunks _ _ _ HI), Hall.
    rewrite bool_decide_eq_true_2 by exact Hi. eexists. reflexivity. }
  assert (Hmove : forall idx w,
            par_workers s !! idx = Some w -> holdsPermit w = true ->
            exists a s', parStep GetEmbeddings a s = Some s').
  { intros idx w Hw Hp. destruct w as [| | |r| |]; try discriminate.
    - exists (Call idx). simpl. rewrite Hw. eexists. reflexivity.
    - exists (Commit idx). simpl. rewrite Hw.
      destruct r; eexists; reflexivity.
    - exists (Release idx). simpl. rewrite Hw. eexists. reflexivity. }
  destruct (allFinished_false _ Hall) as (idx & w & Hw & Hnf).
  destruct w as [| | |r| |]; try congruence;
    try (apply (Hmove idx _ Hw); reflexivity).
  - exfalso. pose proof (lookup_lt_Some _ _ _ Hw) as Hidx.
    rewrite (inv_workers _ _ _ HI) in Hidx.
    assert (i <= idx)%nat by (apply (Hspawned idx NotSpawned Hw); reflexivity).
    lia.
  - destruct (decide (par_semaphore s < semaphoreCapacity)%nat) as [Hfree|Hfull].
    + exists (Acquire idx). simpl. rewrite Hw.
      rewrite bool_decide_eq_true_2 by exact Hfree. eexists. reflexivity.
    + assert (Hpos : (0 < permits (par_workers s))%nat).
      { rewrite <- (inv_permits _ _ _ HI). unfold semaphoreCapacity in *.
        lia. }
      destruct (permits_positive _ Hpos) as (idx' & w' & Hw' & Hp).
      exact (Hmove idx' w' Hw' Hp).
Qed.

(** Every reachable state can be run on until the call returns. *)
Lemma par_terminates (n : nat) :
  forall s, Inv s -> (parFuel s <= n)%nat ->
    exists schedule s' err,
      parExec GetEmbeddings schedule s = Some s' /\
      par_main s' = MainReturned err.
Proof.
  induction n as [|n IH]; intros s HI Hfuel.
  - destruct (par_progress s HI) as [[err Hm]|(a & s' & Hs)].
    + exists [], s, err. split; [reflexivity|exact Hm].
    + pose proof (parStep_fuel a s s' HI Hs). lia.
  - destruct (par_progress s HI) as [[err Hm]|(a & s1 & Hs)].
    + exists [], s, err. split; [reflexivity|exact Hm].
    + pose proof (parStep_fuel a s s1 HI Hs) as Hdec.
      destruct (IH s1 (parStep_inv a s s1 HI Hs) ltac:(lia))
        as (schedule & s' & err & Hrun & Hm).
      exists (a :: schedule), s', err. simpl. rewrite Hs.
      split; assumption.
Qed.

(** The state in which the call has returned. *)
Lemma par_final (s : parState) (err : option error) :
  Inv s -> par_main s = MainReturned err ->
  allFinished (par_workers s) = true /\
  err = head (par_errChan s) /\
  length (par_chunks s) = length chunks0 /\
  (forall idx c0, chunks0 !! idx = Some c0 ->
     par_chunks s !! idx = Some (emb c0) /\
     forall e, ans c0 = inl e -> In (ChunkError idx e) (par_errChan s)).
Proof.
  intros HI Hm. pose proof (inv_main _ _ _ HI) as Hmain.
  unfold mainInv in Hmain. rewrite Hm in Hmain.
  destruct Hmain as [Herr Hall].
  split; [exact Hall|]. split; [exact Herr|].
  split; [exact (inv_chunks _ _ _ HI)|].
  intros idx c0 Hc0.
  assert (Hlt : (idx < length (par_workers s))%nat).
  { rewrite (inv_workers _ _ _ HI). exact (lookup_lt_Some _ _ _ Hc0). }
  destruct (lookup_lt_is_Some_2 _ _ Hlt) as [w Hw].
  pose proof (allFinished_lookup _ _ _ Hall Hw) as ->.
  destruct (inv_worker _ _ _ HI idx Finished Hw) as (c1 & Hc1 & Hinv).
  rewrite Hc0 in Hc1. injection Hc1 as <-. exact Hinv.
Qed.

End ParallelProperties.

Lemma GenerateEmbeddings_serial_first_error_witness :
  GenerateEmbeddings stubGetEmbeddings threeChunks
    (generateEmbeddingsSerial stubGetEmbeddings threeChunks) /\
  vectors threeChunks = [[]; []; []] /\
  forall chunks' err,
    GenerateEmbeddings stubGetEmbeddings threeChunks (chunks', err) ->
    err = Some (ChunkError 1
                  (UpstreamError (str "API request failed with status 500"))) /\
    vectors chunks' = [[3]; []; []].
Proof.
  let ck := eval vm_compute in
              (nth 1 threeChunks
                 (mkChunk [] [] (mkRange 0 0) (mkRange 0 0)
                    (mkEmbedding [] []))) in
  destruct (GenerateEmbeddings_serial_first_error stubGetEmbeddings
              threeChunks 1 ck
              (UpstreamError (str "API request failed with status 500")))
    as [Hrun Hall].
  - vm_compute. discriminate.
  - vm_compute. lia.
  - intros j c Hj Hc. destruct j as [|j]; [|lia].
    vm_compute in Hc. injection Hc as <-. eexists. vm_compute. reflexivity.
  - vm_compute. reflexivity.
  - vm_compute. reflexivity.
  - split; [exact Hrun|]. split; [vm_compute; reflexivity|].
    intros chunks' err Hout.
    destruct (Hall chunks' err Hout) as (Herr & Hlen & Hbefore & Hafter).
    split; [exact Herr|].
    destruct (Hbefore 0%nat _ ltac:(lia) eq_refl)
      as (embedding & c0 & Hemb & H0 & Hv0 & _).
    vm_compute in Hemb. injection Hemb as <-.
    pose proof (Hafter 1%nat ltac:(lia)) as H1.
    pose proof (Hafter 2%nat ltac:(lia)) as H2.
    destruct chunks' as [|a [|b [|c [|d rest]]]]; try discriminate Hlen.
    simpl in H0, H1, H2.
    injection H0 as ->. injection H1 as ->. injection H2 as ->.
    unfold vectors. simpl. rewrite Hv0. reflexivity.
Defined.


(** Above five chunks GenerateEmbeddings is the goroutine pool. *)
Lemma GenerateEmbeddings_large
    (GetEmbeddings : list gostring -> error + EmbeddingResponse)
    (chunks : list Chunk) (out : list Chunk * option error) :
  (5 < length chunks)%nat ->
  GenerateEmbeddings GetEmbeddings chunks out ->
  generateEmbeddingsParallel GetEmbeddings chunks out.
Proof.
  intros Hlen H. destruct H as [H0|H1 H2|out H3 H4]; [lia|lia|exact H4].
Qed.

(** C6.  On more than five chunks of which exactly one, [k], fails
    upstream: GenerateEmbeddings has a run that returns; every reachable
    state of the goroutines either has returned or can take a step, each
    step using up fuel, so the goroutines run to completion; when the call
    has returned every goroutine is finished; and every run returns the
    error of chunk [k], leaves chunk [k] as it was and leaves every other
    chunk with the upstream result for its own extracted text as its
    vector, its other fields being as they were. *)
Theorem GenerateEmbeddings_parallel_one_failure :
  forall (GetEmbeddings : list gostring -> error + EmbeddingResponse)
         (chunks : list Chunk) (k : nat) (ck : Chunk) (e : error),
    (5 < length chunks)%nat ->
    chunks !! k = Some ck ->
    GetEmbedding GetEmbeddings (extractPlainText (Chunk_Text ck)) = inl e ->
    (forall j c, j <> k -> chunks !! j = Some c ->
       exists embedding,
         GetEmbedding GetEmbeddings (extractPlainText (Chunk_Text c))
         = inr embedding) ->
    (exists out, GenerateEmbeddings GetEmbeddings chunks out) /\
    (forall s, parReachable GetEmbeddings chunks s ->
       (par_semaphore s <= 10)%nat /\
       ((exists err, par_main s = MainReturned err /\
                     allFinished (par_workers s) = true) \/
        (exists a s', parStep GetEmbeddings a s = Some s' /\
                      S (parFuel s') = parFuel s))) /\
    (forall chunks' err,
       GenerateEmbeddings GetEmbeddings chunks (chunks', err) ->
       err = Some (ChunkError k e) /\
       length chunks' = length chunks /\
       chunks' !! k = Some ck /\
       forall j c, j <> k -> chunks !! j = Some c ->
         exists embedding c',
           GetEmbedding GetEmbeddings (extractPlainText (Chunk_Text c))
           = inr embedding /\
           chunks' !! j = Some c' /\
           Embedding_Embedding (Chunk_Embedding c') = embedding /\
           unchangedButVector c c').
Proof.
  intros GetEmbeddings chunks k ck e Hlen Hk He Hok.
  split; [|split].
  - destruct (par_terminates GetEmbeddings chunks _ (parInit chunks)
                (parInit_inv GetEmbeddings chunks) (Nat.le_refl _))
      as (schedule & s & err & Hrun & Hm).
    exists (par_chunks s, err). apply GenerateEmbeddings_parallel; [exact Hlen|].
    exists s. split; [exists schedule; exact Hrun|].
    split; [exact Hm|reflexivity].
  - intros s Hs. pose proof (parReachable_inv _ _ _ Hs) as HI.
    split; [exact (inv_bound _ _ _ HI)|].
    destruct (par_progress _ _ s HI) as [[err Hm]|(a & s' & Hstep)].
    + left. exists err. split; [exact Hm|].
      exact (proj1 (par_final _ _ s err HI Hm)).
    + right. exists a, s'. split; [exact Hstep|].
      exact (parStep_fuel _ _ a s s' HI Hstep).
  - intros chunks' err Hrun.
    apply GenerateEmbeddings_large in Hrun as (s & Hs & Hm & Hc);
      [|exact Hlen].
    simpl in Hm, Hc. subst chunks'.
    pose proof (parReachable_inv _ _ _ Hs) as HI.
    destruct (par_final _ _ s err HI Hm) as (_ & Herr & Hl & Hall).
    split; [|split; [exact Hl|split]].
    + destruct (Hall k ck Hk) as [_ Hin]. specialize (Hin e He).
      destruct (par_errChan s) as [|x errs] eqn:Hch; [destruct Hin|].
      simpl in Herr. subst err. f_equal.
      destruct (inv_errors _ _ _ HI x) as (idx & e' & c' & -> & Hc' & He').
      { rewrite Hch. left. reflexivity. }
      destruct (decide (idx = k)) as [->|Hne].
      * rewrite Hk in Hc'. injection Hc' as <-.
        unfold answer in He'. rewrite He in He'. injection He' as <-.
        reflexivity.
      * destruct (Hok idx c' Hne Hc') as [embedding Hemb].
        unfold answer in He'. rewrite Hemb in He'. discriminate.
    + destruct (Hall k ck Hk) as [Hck _].
      rewrite (embedded_inl GetEmbeddings ck e He) in Hck. exact Hck.
    + intros j c Hj Hc. destruct (Hok j c Hj Hc) as [embedding Hemb].
      exists embedding, (setEmbedding embedding c). split; [exact Hemb|].
      split; [|apply setEmbedding_fields].
      destruct (Hall j c Hc) as [Hcj _].
      rewrite (embedded_inr GetEmbeddings c embedding Hemb) in Hcj.
      exact Hcj.
Qed.

Lemma GenerateEmbeddings_parallel_one_failure_witness :
  (exists out, GenerateEmbeddings stubGetEmbeddings sixChunks out) /\
  (forall s, parReachable stubGetEmbeddings sixChunks s ->
     (par_semaphore s <= 10)%nat /\
     ((exists err, par_main s = MainReturned err /\
                   allFinished (par_workers s) = true) \/
      (exists a s', parStep stubGetEmbeddings a s = Some s' /\
                    S (parFuel s') = parFuel s))) /\
  vectors sixChunks = [[]; []; []; []; []; []] /\
  (forall chunks' err,
     GenerateEmbeddings stubGetEmbeddings sixChunks (chunks', err) ->
     err = Some (ChunkError 2
                   (UpstreamError (str "API request failed with status 500"))) /\
     vectors chunks' = [[3]; [3]; []; [3]; [3]; [3]]).
Proof.
  let ck := eval vm_compute in
              (nth 2 sixChunks
                 (mkChunk [] [] (mkRange 0 0) (mkRange 0 0)
                    (mkEmbedding [] []))) in
  destruct (GenerateEmbeddings_parallel_one_failure stubGetEmbeddings
              sixChunks 2 ck
              (UpstreamError (str "API request failed with status 500")))
    as (Hruns & Hprogress & Hall).
  - vm_compute. lia.
  - vm_compute. reflexivity.
  - vm_compute. reflexivity.
  - intros j c Hj Hc.
    destruct j as [|[|[|[|[|[|j]]]]]]; try congruence;
      vm_compute in Hc; try discriminate;
      injection Hc as <-; eexists; vm_compute; reflexivity.
  - split; [exact Hruns|]. split; [exact Hprogress|].
    split; [vm_compute; reflexivity|].
    intros chunks' err Hout.
    destruct (Hall chunks' err Hout) as (Herr & Hlen & Hk & Hother).
    split; [exact Herr|].
    destruct (Hother 0%nat _ ltac:(lia) eq_refl)
      as (e0 & c0 & Hemb0 & H0 & Hv0 & _).
    destruct (Hother 1%nat _ ltac:(lia) eq_refl)
      as (e1 & c1 & Hemb1 & H1 & Hv1 & _).
    destruct (Hother 3%nat _ ltac:(lia) eq_refl)
      as (e3 & c3 & Hemb3 & H3 & Hv3 & _).
    destruct (Hother 4%nat _ ltac:(lia) eq_refl)
      as (e4 & c4 & Hemb4 & H4 & Hv4 & _).
    destruct (Hother 5%nat _ ltac:(lia) eq_refl)
      as (e5 & c5 & Hemb5 & H5 & Hv5 & _).
    vm_compute in Hemb0, Hemb1, Hemb3, Hemb4, Hemb5.
    injection Hemb0 as <-. injection Hemb1 as <-. injection Hemb3 as <-.
    injection Hemb4 as <-. injection Hemb5 as <-.
    destruct chunks' as [|a0 [|a1 [|a2 [|a3 [|a4 [|a5 [|a6 rest]]]]]]];
      try discriminate Hlen.
    simpl in H0, H1, Hk, H3, H4, H5.
    injection H0 as ->. injection H1 as ->. injection Hk as ->.
    injection H3 as ->. injection H4 as ->. injection H5 as ->.
    unfold vectors. simpl. rewrite Hv0, Hv1, Hv3, Hv4, Hv5. reflexivity.
Defined.


(** ** gjson and sjson on trees *)

Lemma parseDigits_digitsOf (d : Decimal.uint) (acc : nat) :
  parseDigits (Z.of_nat acc) (digitsOf d)
  = Some (Z.of_nat (Nat.of_uint_acc d acc)).
Proof.
  revert acc. induction d as [|d IH|d IH|d IH|d IH|d IH|d IH|d IH|d IH|d IH|d IH];
    intros acc; [reflexivity|..];
    cbn [digitsOf parseDigits Nat.of_uint_acc];
    match goal with
    | |- context [digit ?c] =>
        let v := eval vm_compute in (digit c) in
        change (digit c) with v; cbv iota beta
    end;
    rewrite <- IH; f_equal; rewrite Nat.tail_mul_spec; lia.
Qed.

Lemma Itoa_nonempty (n : nat) : Itoa n <> [].
Proof.
  unfold Itoa. pose proof (DecimalNat.Unsigned.of_to n) as Hn.
  destruct (Nat.to_uint n) eqn:E; try discriminate.
  simpl in Hn. subst n. vm_compute in E. discriminate.
Qed.

Lemma parseDigits_Itoa (n : nat) : parseDigits 0 (Itoa n) = Some (Z.of_nat n).
Proof.
  unfold Itoa. change 0 with (Z.of_nat 0).
  rewrite (parseDigits_digitsOf (Nat.to_uint n) 0).
  change (Nat.of_uint_acc (Nat.to_uint n) 0) with (Nat.of_uint (Nat.to_uint n)).
  rewrite DecimalNat.Unsigned.of_to. reflexivity.
Qed.

Lemma parseUint_Itoa (n : nat) : parseUint (Itoa n) = Some n.
Proof.
  unfold parseUint. pose proof (Itoa_nonempty n) as Hne.
  destruct (Itoa n) eqn:E; [congruence|].
  rewrite <- E, parseDigits_Itoa. simpl. rewrite Nat2Z.id. reflexivity.
Qed.

Lemma getPart_index (elems : list JSON) (i : nat) :
  getPart (JArray elems) (Itoa i) = elems !! i.
Proof. simpl. rewrite parseUint_Itoa. reflexivity. Qed.

Lemma eqs_true (a b : gostring) : eqs a b = true <-> a = b.
Proof. unfold eqs. apply bool_decide_eq_true. Qed.

Lemma eqs_false (a b : gostring) : eqs a b = false <-> a <> b.
Proof. unfold eqs. apply bool_decide_eq_false. Qed.

(** A part that is not a decimal index: a key. *)
Lemma atoui_parseUint (k : gostring) : atoui k = None -> parseUint k = None.
Proof.
  unfold atoui, parseUint. destruct k; [discriminate|].
  destruct (parseDigits 0 (a :: k)); [discriminate|reflexivity].
Qed.

Lemma findMember_replace_ne (ms : list (gostring * JSON)) (p k : gostring)
    (v : JSON) :
  k <> p -> findMember (replaceMember ms p v) k = findMember ms k.
Proof.
  intros Hne. induction ms as [|[k' x] ms IH]; simpl; [reflexivity|].
  destruct (eqs k' p) eqn:Ep; simpl.
  - apply eqs_true in Ep. subst k'.
    destruct (eqs p k) eqn:Ek; [apply eqs_true in Ek; congruence|reflexivity].
  - rewrite IH. reflexivity.
Qed.

Lemma findMember_replace_eq (ms : list (gostring * JSON)) (k : gostring)
    (x v : JSON) :
  findMember ms k = Some x -> findMember (replaceMember ms k v) k = Some v.
Proof.
  induction ms as [|[k' y] ms IH]; simpl; [discriminate|].
  destruct (eqs k' k) eqn:Ek; simpl; rewrite Ek; [reflexivity|exact IH].
Qed.

Lemma findMember_remove_ne (ms : list (gostring * JSON)) (p k : gostring) :
  k <> p -> findMember (removeMember ms p) k = findMember ms k.
Proof.
  intros Hne. induction ms as [|[k' x] ms IH]; simpl; [reflexivity|].
  destruct (eqs k' p) eqn:Ep; simpl.
  - apply eqs_true in Ep. subst k'.
    destruct (eqs p k) eqn:Ek; [apply eqs_true in Ek; congruence|reflexivity].
  - rewrite IH. reflexivity.
Qed.

Lemma findMember_app (ms : list (gostring * JSON)) (p k : gostring)
    (v : JSON) :
  findMember (ms ++ [(p, v)]) k
  = match findMember ms k with
    | Some x => Some x
    | None => if eqs p k then Some v else None
    end.
Proof.
  induction ms as [|[k' x] ms IH]; simpl; [reflexivity|].
  destruct (eqs k' k); [reflexivity|exact IH].
Qed.

Lemma getPart_replacePart_ne (j : JSON) (p k : gostring) (v : JSON) :
  atoui k = None -> k <> p ->
  getPart (replacePart j p v) k = getPart j k.
Proof.
  intros Hk Hne. apply atoui_parseUint in Hk.
  destruct j; simpl; try reflexivity.
  - destruct (parseUint p); simpl; rewrite Hk; reflexivity.
  - apply findMember_replace_ne. exact Hne.
Qed.

Lemma getPart_removePart_ne (j : JSON) (p k : gostring) :
  atoui k = None -> k <> p ->
  getPart (removePart j p) k = getPart j k.
Proof.
  intros Hk Hne. apply atoui_parseUint in Hk.
  destruct j; simpl; try reflexivity.
  - destruct (parseUint p); simpl; rewrite Hk; reflexivity.
  - apply findMember_remove_ne. exact Hne.
Qed.

(** A key found in a document makes it an object. *)
Lemma getPart_key_object (j x : JSON) (k : gostring) :
  atoui k = None -> getPart j k = Some x ->
  exists ms, j = JObject ms /\ findMember ms k = Some x.
Proof.
  intros Hk Hx. apply atoui_parseUint in Hk.
  destruct j; simpl in Hx; try discriminate.
  - rewrite Hk in Hx. discriminate.
  - eexists. split; [reflexivity|exact Hx].
Qed.

(** SetBytes and DeleteBytes leave the other keys of the document alone. *)
Lemma getPart_SetBytes_ne (j : JSON) (p : gostring) (rest : list gostring)
    (v : JSON) (k : gostring) :
  atoui k = None -> k <> p ->
  getPart (SetBytes j (p :: rest) v) k = getPart j k.
Proof.
  intros Hk Hne. unfold SetBytes. cbn [sjsonSet].
  destruct (getPart j p) as [child|] eqn:Hp.
  - destruct rest as [|r rest].
    + apply getPart_replacePart_ne; assumption.
    + destruct (sjsonSet child (r :: rest) v); [|reflexivity].
      apply getPart_replacePart_ne; assumption.
  - pose proof (atoui_parseUint k Hk) as Hk'.
    assert (Hpk : eqs p k = false) by (apply eqs_false; congruence).
    destruct j;
      try (destruct (atoui p); simpl; rewrite ?Hk', ?Hpk; reflexivity).
    + destruct (atoui p); [simpl; rewrite Hk'; reflexivity|].
      destruct (eqs p (str "-1")); simpl; rewrite Hk'; reflexivity.
    + simpl. rewrite findMember_app, Hpk.
      destruct (findMember members k); reflexivity.
Qed.

Lemma getPart_DeleteBytes_ne (j : JSON) (p : gostring) (rest : list gostring)
    (k : gostring) :
  atoui k = None -> k <> p ->
  getPart (DeleteBytes j (p :: rest)) k = getPart j k.
Proof.
  intros Hk Hne. cbn [DeleteBytes].
  destruct rest as [|r rest]; destruct (getPart j p); try reflexivity.
  - apply getPart_removePart_ne; assumption.
  - apply getPart_replacePart_ne; assumption.
Qed.

(** Setting a key that is there. *)
Lemma getPart_SetBytes_eq (j x : JSON) (k : gostring) (v : JSON) :
  atoui k = None -> getPart j k = Some x ->
  getPart (SetBytes j [k] v) k = Some v.
Proof.
  intros Hk Hx. unfold SetBytes. cbn [sjsonSet]. rewrite Hx.
  destruct (getPart_key_object j x k Hk Hx) as (ms & -> & Hf).
  simpl. exact (findMember_replace_eq ms k x v Hf).
Qed.

(** Setting a key of an object, there or not. *)
Lemma getPart_SetBytes_object (ms : list (gostring * JSON)) (k : gostring)
    (v : JSON) :
  exists ms',
    SetBytes (JObject ms) [k] v = JObject ms' /\
    findMember ms' k = Some v /\
    forall k', k' <> k -> findMember ms' k' = findMember ms k'.
Proof.
  unfold SetBytes. cbn [sjsonSet getPart].
  destruct (findMember ms k) as [x|] eqn:Hf; simpl.
  - eexists. split; [reflexivity|]. split.
    + exact (findMember_replace_eq ms k x v Hf).
    + intros k' Hne. apply findMember_replace_ne. exact Hne.
  - eexists. split; [reflexivity|]. split.
    + rewrite findMember_app, Hf.
      rewrite (proj2 (eqs_true k k) eq_refl). reflexivity.
    + intros k' Hne. rewrite findMember_app.
      rewrite (proj2 (eqs_false k k')) by congruence.
      destruct (findMember ms k'); reflexivity.
Qed.

(** Rewriting below a key. *)
Lemma getPart_replacePart_eq (j x : JSON) (k : gostring) (v : JSON) :
  atoui k = None -> getPart j k = Some x ->
  getPart (replacePart j k v) k = Some v.
Proof.
  intros Hk Hx.
  destruct (getPart_key_object j x k Hk Hx) as (ms & -> & Hf).
  simpl. exact (findMember_replace_eq ms k x v Hf).
Qed.

Lemma getPart_DeleteBytes_below (j child : JSON) (k r : gostring)
    (rest : list gostring) :
  atoui k = None -> getPart j k = Some child ->
  getPart (DeleteBytes j (k :: r :: rest)) k
  = Some (DeleteBytes child (r :: rest)).
Proof.
  intros Hk Hc. cbn [DeleteBytes]. rewrite Hc.
  exact (getPart_replacePart_eq j child k _ Hk Hc).
Qed.

Lemma getPart_SetBytes_below (j child child' : JSON) (k r : gostring)
    (rest : list gostring) (v : JSON) :
  atoui k = None -> getPart j k = Some child ->
  sjsonSet child (r :: rest) v = Some child' ->
  getPart (SetBytes j (k :: r :: rest) v) k = Some child'.
Proof.
  intros Hk Hc Hset. unfold SetBytes.
  change (sjsonSet j (k :: r :: rest) v)
    with (match getPart j k with
          | Some child =>
              match sjsonSet child (r :: rest) v with
              | Some child' => Some (replacePart j k child')
              | None => None
              end
          | None =>
              match j with
              | JObject members =>
                  Some (JObject (members ++ [(k, build (r :: rest) v)]))
              | JArray elems =>
                  match atoui k with
                  | Some n =>
                      Some (JArray (elems ++ repeat JNull (n - length elems)
                                    ++ [build (r :: rest) v]))
                  | None =>
                      if eqs k (str "-1")
                      then Some (JArray (elems ++ [build (r :: rest) v]))
                      else None
                  end
              | _ =>
                  match atoui k with
                  | Some n =>
                      Some (JArray (repeat JNull n ++ [build (r :: rest) v]))
                  | None => Some (JObject [(k, build (r :: rest) v)])
                  end
              end
          end).
  rewrite Hc, Hset.
  exact (getPart_replacePart_eq j child k _ Hk Hc).
Qed.

(** ** ChatCompletions *)

Arguments str : simpl never.
Arguments SetBytes : simpl never.
Arguments DeleteBytes : simpl never.
Arguments GetBytes : simpl never.
Arguments getPart : simpl never.

(** Side conditions on the fixed keys of the source. *)
Ltac key :=
  first
    [ assumption
    | reflexivity
    | (vm_compute; reflexivity)
    | (let H := fresh in intros H; vm_compute in H; discriminate H)
    | (let H := fresh in
       intros H; vm_compute in H; repeat destruct H as [H|H];
       try discriminate H; try contradiction) ].

Lemma GetBytes_key (j : JSON) (k : gostring) : GetBytes j [k] = getPart j k.
Proof. unfold GetBytes. destruct (getPart j k); reflexivity. Qed.

Lemma GetBytes_cons (j child : JSON) (k : gostring) (rest : list gostring) :
  getPart j k = Some child -> GetBytes j (k :: rest) = GetBytes child rest.
Proof.
  intros H. change (GetBytes j (k :: rest))
    with (match getPart j k with
          | Some child => GetBytes child rest
          | None => None
          end).
  rewrite H. reflexivity.
Qed.

Lemma Result_Array_nil (r : option JSON) :
  Result_Array r = [] -> r = None \/ r = Some JNull \/ r = Some (JArray []).
Proof.
  destruct r as [[| | | | |elems|]|]; simpl; intros H;
    try discriminate; auto.
  subst elems. auto.
Qed.

Lemma getPart_stripToolCalls (messages : list JSON) (i : nat) (body : JSON)
    (k : gostring) :
  atoui k = None -> k <> str "messages" ->
  getPart (stripToolCalls i messages body) k = getPart body k.
Proof.
  intros Hk Hne. revert i body.
  induction messages as [|msg rest IH]; intros i body; simpl; [reflexivity|].
  rewrite IH. destruct (_ =? 0); [|reflexivity].
  apply getPart_DeleteBytes_ne; assumption.
Qed.

Lemma getPart_normalizeMessages (Raw : JSON -> gostring) (env : Env)
    (body body' : JSON) (k : gostring) :
  atoui k = None -> k <> str "messages" ->
  normalizeMessages Raw env body = Returns body' ->
  getPart body' k = getPart body k.
Proof.
  intros Hk Hne. unfold normalizeMessages.
  destruct (eqs (Getenv env "CHAT_LOCALE") []).
  - intros H. injection H as <-. apply getPart_stripToolCalls; assumption.
  - destruct (last _); [|discriminate].
    destruct (negb _); intros H; injection H as <-.
    + rewrite getPart_SetBytes_ne by assumption.
      apply getPart_stripToolCalls; assumption.
    + apply getPart_stripToolCalls; assumption.
Qed.

Lemma getPart_defaultToolParameters (fuel i : nat) (body : JSON)
    (k : gostring) :
  atoui k = None -> k <> str "tools" ->
  getPart (defaultToolParameters fuel i body) k = getPart body k.
Proof.
  intros Hk Hne. revert i body.
  induction fuel as [|fuel IH]; intros i body; simpl; [reflexivity|].
  destruct (_ <? _); [|reflexivity].
  rewrite IH.
  do 2 (destruct (negb _); [reflexivity|]).
  destruct (negb _); [|reflexivity].
  apply getPart_SetBytes_ne; assumption.
Qed.

(** strconv.Atoi without an error returns the value it parsed: the scan
    of ParseUint and the range test of ParseInt agree with [Atoi]. *)
Lemma digit_range (c : ascii) (d : Z) : digit c = Some d -> 0 <= d <= 9.
Proof.
  unfold digit. destruct (_ && _) eqn:E; [|discriminate].
  intros H. injection H as <-. apply andb_true_iff in E. lia.
Qed.

Lemma parseDigits_le (s : gostring) :
  forall acc n, 0 <= acc -> parseDigits acc s = Some n -> acc <= n.
Proof.
  induction s as [|c r IH]; intros acc n Hacc H; simpl in H.
  - injection H as <-. lia.
  - destruct (digit c) as [d|] eqn:Ed; [|discriminate].
    apply digit_range in Ed. apply IH in H; lia.
Qed.

Lemma ParseUint_parseDigits (s : gostring) :
  forall acc n,
    0 <= acc -> parseDigits acc s = Some n -> n <= maxUint64 ->
    ParseUint acc s = inr n.
Proof.
  assert (Hmax : maxUint64 = 18446744073709551615) by reflexivity.
  assert (Hcut : maxUint64 / 10 + 1 = 1844674407370955162) by reflexivity.
  induction s as [|c r IH]; intros acc n Hacc H Hn; cbn [parseDigits] in H;
    cbn [ParseUint].
  - injection H as <-. reflexivity.
  - destruct (digit c) as [d|] eqn:Ed; [|discriminate].
    pose proof (digit_range c d Ed) as Hd.
    assert (Hle : acc * 10 + d <= n).
    { apply (parseDigits_le r (acc * 10 + d) n); [lia|exact H]. }
    rewrite Hcut. cbv zeta.
    destruct (acc >=? _) eqn:E1; [lia|].
    destruct (acc * 10 + d >? _) eqn:E2; [lia|].
    apply IH; [lia|exact H|exact Hn].
Qed.

Lemma parseDigits_ParseUint (s : gostring) :
  forall acc n,
    acc <= maxUint64 -> ParseUint acc s = inr n ->
    parseDigits acc s = Some n /\ n <= maxUint64.
Proof.
  assert (Hmax : maxUint64 = 18446744073709551615) by reflexivity.
  induction s as [|c r IH]; intros acc n Hacc H; cbn [ParseUint] in H;
    cbn [parseDigits].
  - injection H as <-. split; [reflexivity|exact Hacc].
  - destruct (digit c) as [d|] eqn:Ed; [|discriminate].
    cbv zeta in H.
    destruct (acc >=? _) eqn:E1; [discriminate|].
    destruct (acc * 10 + d >? _) eqn:E2; [discriminate|].
    apply IH; [lia|exact H].
Qed.

Lemma Atoi_ParseInt (s : gostring) (n : Z) :
  Atoi s = Some n <-> ParseInt s = (n, None).
Proof.
  unfold Atoi, ParseInt, MinInt64, MaxInt64.
  destruct s as [|c r]; [split; discriminate|].
  assert (Hsign : forall neg ds,
    match ds with
    | [] => None
    | _ :: _ =>
        match parseDigits 0 ds with
        | Some m =>
            let z := if neg : bool then - m else m in
            if (- 2 ^ 63 <=? z) && (z <=? 2 ^ 63 - 1) then Some z else None
        | None => None
        end
    end = Some n
    <->
    match ds with
    | [] => (0, Some ErrSyntax)
    | _ :: _ =>
        match ParseUint 0 ds with
        | inl ErrSyntax => (0, Some ErrSyntax)
        | inl ErrRange =>
            (if neg : bool then - 2 ^ 63 else 2 ^ 63 - 1, Some ErrRange)
        | inr un =>
            if negb neg && (un >=? 2 ^ 63) then (2 ^ 63 - 1, Some ErrRange)
            else if (neg : bool) && (un >? 2 ^ 63)
            then (- 2 ^ 63, Some ErrRange)
            else (if neg : bool then - un else un, None)
        end
    end = (n, None)).
  { intros neg ds. destruct ds as [|d0 ds0]; [split; discriminate|].
    set (ds := d0 :: ds0). split.
    - destruct (parseDigits 0 ds) as [m|] eqn:Em; [|discriminate].
      cbv zeta. destruct (_ && _) eqn:Er; [|discriminate].
      intros H. injection H as <-.
      apply andb_true_iff in Er.
      pose proof (parseDigits_le ds 0 m ltac:(lia) Em) as Hm.
      rewrite (ParseUint_parseDigits ds 0 m ltac:(lia) Em)
        by (unfold maxUint64; destruct neg; lia).
      destruct neg; simpl.
      + destruct (m >? _) eqn:E; [lia|reflexivity].
      + destruct (m >=? _) eqn:E; [lia|reflexivity].
    - destruct (ParseUint 0 ds) as [[|]|un] eqn:Eu; try discriminate.
      destruct (parseDigits_ParseUint ds 0 un ltac:(unfold maxUint64; lia) Eu)
        as [Hd _].
      rewrite Hd. cbv zeta.
      pose proof (parseDigits_le ds 0 un ltac:(lia) Hd) as Hm.
      destruct neg; simpl.
      + destruct (un >? _) eqn:E; [discriminate|].
        intros H. injection H as <-.
        destruct (_ && _) eqn:Er; [reflexivity|].
        apply andb_false_iff in Er. lia.
      + destruct (un >=? _) eqn:E; [discriminate|].
        intros H. injection H as <-.
        destruct (_ && _) eqn:Er; [reflexivity|].
        apply andb_false_iff in Er. lia. }
  destruct (Ascii.eqb c "-") eqn:Eminus; destruct (Ascii.eqb c "+") eqn:Eplus.
  - apply Ascii.eqb_eq in Eminus, Eplus. congruence.
  - exact (Hsign true r).
  - exact (Hsign false r).
  - exact (Hsign false (c :: r)).
Qed.

Lemma Atoi_AtoiValue (s : gostring) (n : Z) :
  Atoi s = Some n -> AtoiValue s = n.
Proof.
  intros H. apply Atoi_ParseInt in H. unfold AtoiValue. rewrite H.
  reflexivity.
Qed.

(** rewriteLimits first rewrites below the stripped keys only, then clamps
    max_tokens, then n. *)
Lemma rewriteLimits_stages (env : Env) (body : JSON) :
  exists stripped clamped,
    (forall k, atoui k = None -> ~ In k strippedKeys ->
               getPart stripped k = getPart body k) /\
    clamped
    = (let ChatMaxTokens := AtoiValue (Getenv env "CHAT_MAX_TOKENS") in
       if Result_Int (getPart stripped (str "max_tokens")) >? ChatMaxTokens
       then SetBytes stripped [str "max_tokens"] (JNumber ChatMaxTokens)
       else stripped) /\
    rewriteLimits env body
    = if Result_Int (getPart clamped (str "n")) >? 1
      then SetBytes clamped [str "n"] (JNumber 1)
      else clamped.
Proof.
  do 2 eexists. split; [|split; [reflexivity|]].
  2:{ unfold rewriteLimits. rewrite !GetBytes_key. reflexivity. }
  intros k Hk Hin.
  assert (Hne : forall s, In (str s) strippedKeys -> k <> str s).
  { intros s Hs ->. exact (Hin Hs). }
  assert (H1 : getPart (stripIntent body) k = getPart body k).
  { unfold stripIntent.
    rewrite !getPart_DeleteBytes_ne; try assumption; try reflexivity;
      apply Hne; vm_compute; tauto. }
  assert (H2 : getPart (stripTools (stripIntent body)) k = getPart body k).
  { unfold stripTools.
    rewrite !getPart_DeleteBytes_ne; try assumption;
      apply Hne; vm_compute; tauto. }
  assert (Htools : k <> str "tools") by (apply Hne; vm_compute; tauto).
  destruct (negb (ParseBool (Getenv env "CHAT_USE_TOOLS")));
    destruct (Result_Exists _);
    rewrite ?getPart_defaultToolParameters by assumption; assumption.
Qed.

Lemma dispatch_Forward (Raw : JSON -> gostring)
    (userAgent chatAPIURL apiKey url key : gostring) (body body' : JSON) :
  dispatch Raw userAgent chatAPIURL apiKey body = Forward url key body' ->
  body' = body.
Proof.
  unfold dispatch.
  destruct (_ && _ && _ && _); [discriminate|].
  destruct (Contains userAgent _).
  - destruct (last _); [|discriminate].
    destruct (_ && _); [discriminate|].
    destruct (_ && _); [discriminate|].
    intros H. injection H as _ _ <-. reflexivity.
  - intros H. injection H as _ _ <-. reflexivity.
Qed.

(** The body that ChatCompletions forwards. *)
Lemma ChatCompletions_Forward (Raw : JSON -> gostring) (env : Env)
    (userAgent url key : gostring) (body body' : JSON) :
  ChatCompletions Raw env userAgent body = Forward url key body' ->
  exists model normalized,
    let tagged :=
      SetBytes (SetBytes body [str "model"] (JString model)) [str "stream"]
        JTrue in
    body' = rewriteLimits env normalized /\
    ((getPart body (str "function_call") <> None /\ normalized = tagged) \/
     (getPart body (str "function_call") = None /\
      normalizeMessages Raw env tagged = Returns normalized)).
Proof.
  unfold ChatCompletions.
  set (model := if Contains _ _ then _ else _).
  set (tagged := SetBytes (SetBytes body [str "model"] (JString model))
                   [str "stream"] JTrue).
  assert (Hfc : getPart tagged (str "function_call")
                = getPart body (str "function_call")).
  { unfold tagged. rewrite !getPart_SetBytes_ne by key. reflexivity. }
  rewrite GetBytes_key, Hfc.
  destruct (getPart body (str "function_call")) as [fc|] eqn:E; simpl.
  - intros H. apply dispatch_Forward in H.
    exists model, tagged. simpl. split; [exact H|].
    left. split; [discriminate|reflexivity].
  - destruct (normalizeMessages Raw env tagged) as [p|normalized] eqn:En;
      [discriminate|].
    intros H. apply dispatch_Forward in H.
    exists model, normalized. simpl. split; [exact H|].
    right. split; [reflexivity|exact En].
Qed.

(** The keys that only the clamping steps touch keep their value up to
    there. *)
Lemma ChatCompletions_limits_in (Raw : JSON -> gostring) (env : Env)
    (model : gostring) (body normalized : JSON) (k : gostring) :
  atoui k = None ->
  k <> str "model" -> k <> str "stream" -> k <> str "messages" ->
  let tagged :=
    SetBytes (SetBytes body [str "model"] (JString model)) [str "stream"]
      JTrue in
  (getPart body (str "function_call") <> None /\ normalized = tagged) \/
  (getPart body (str "function_call") = None /\
   normalizeMessages Raw env tagged = Returns normalized) ->
  getPart normalized k = getPart body k.
Proof.
  intros Hk H1 H2 H3 tagged [[_ ->]|[_ Hn]].
  - unfold tagged. rewrite !getPart_SetBytes_ne by assumption. reflexivity.
  - rewrite (getPart_normalizeMessages Raw env tagged normalized k Hk H3 Hn).
    unfold tagged. rewrite !getPart_SetBytes_ne by assumption. reflexivity.
Qed.

(** C4.  In the body that ChatCompletions forwards, n is 1 whenever the
    inbound n, as the handler reads it (gjson's Int(), a 64-bit integer),
    exceeds 1, and, CHAT_MAX_TOKENS being a positive integer that
    strconv.Atoi accepts, max_tokens is that ceiling whenever the inbound
    max_tokens, read the same way, exceeds it. *)
Theorem ChatCompletions_clamps :
  forall (Raw : JSON -> gostring) (env : Env)
         (userAgent url key : gostring) (body body' : JSON),
    ChatCompletions Raw env userAgent body = Forward url key body' ->
    (1 < Result_Int (GetBytes body [str "n"]) ->
     GetBytes body' [str "n"] = Some (JNumber 1)) /\
    (forall ceiling,
       Atoi (Getenv env "CHAT_MAX_TOKENS") = Some ceiling ->
       0 < ceiling ->
       ceiling < Result_Int (GetBytes body [str "max_tokens"]) ->
       GetBytes body' [str "max_tokens"] = Some (JNumber ceiling)).
Proof.
  intros Raw env userAgent url key body body' H.
  apply ChatCompletions_Forward in H as (model & normalized & -> & Hn).
  pose proof (ChatCompletions_limits_in Raw env model body normalized
                (str "n") ltac:(key) ltac:(key) ltac:(key) ltac:(key) Hn)
    as Hkeep_n.
  pose proof (ChatCompletions_limits_in Raw env model body normalized
                (str "max_tokens") ltac:(key) ltac:(key) ltac:(key)
                ltac:(key) Hn)
    as Hkeep_m.
  destruct (rewriteLimits_stages env normalized)
    as (stripped & clamped & Hs & Hclamped & ->).
  pose proof (Hs (str "n") ltac:(key) ltac:(key)) as Hs_n.
  pose proof (Hs (str "max_tokens") ltac:(key) ltac:(key)) as Hs_m.
  cbv zeta in Hclamped. rewrite Hs_m, Hkeep_m in Hclamped.
  rewrite !GetBytes_key.
  assert (Hc : getPart clamped (str "n") = getPart body (str "n")).
  { rewrite Hclamped. destruct (_ >? _).
    - rewrite getPart_SetBytes_ne by key. congruence.
    - congruence. }
  split.
  - intros Hgt. rewrite Hc. destruct (_ >? 1) eqn:E; [|lia].
    destruct (getPart body (str "n")) as [x|] eqn:Ex;
      [|simpl in Hgt; lia].
    exact (getPart_SetBytes_eq clamped x (str "n") _ ltac:(key) Hc).
  - intros ceiling Hceil Hpos Hgt.
    rewrite (Atoi_AtoiValue _ ceiling Hceil) in Hclamped.
    destruct (_ >? ceiling) eqn:E; [|lia].
    destruct (getPart body (str "max_tokens")) as [x|] eqn:Ex;
      [|simpl in Hgt; lia].
    rewrite Hkeep_m in Hs_m.
    pose proof (getPart_SetBytes_eq stripped x (str "max_tokens")
                  (JNumber ceiling) ltac:(key) Hs_m) as Hset.
    rewrite <- Hclamped in Hset.
    destruct (_ >? 1).
    + rewrite getPart_SetBytes_ne by key. exact Hset.
    + exact Hset.
Qed.

Lemma ChatCompletions_clamps_witness :
  exists url key body',
    ChatCompletions compactRaw chatEnv (str "GitHubCopilotChat/0.22")
      sampleRequest = Forward url key body' /\
    GetBytes body' [str "n"] = Some (JNumber 1) /\
    GetBytes body' [str "max_tokens"] = Some (JNumber 4096).
Proof.
  assert (Hrun : exists url key body',
            ChatCompletions compactRaw chatEnv (str "GitHubCopilotChat/0.22")
              sampleRequest = Forward url key body').
  { do 3 eexists. vm_compute. reflexivity. }
  destruct Hrun as (url & key & body' & Hrun).
  destruct (ChatCompletions_clamps compactRaw chatEnv
              (str "GitHubCopilotChat/0.22") url key sampleRequest body' Hrun)
    as [Hn Hmax].
  exists url, key, body'. split; [exact Hrun|]. split.
  - apply Hn. vm_compute. reflexivity.
  - apply (Hmax 4096); vm_compute; reflexivity.
Defined.

(** C4 as stated fails: the handler compares what gjson's Int() reads, a
    64-bit integer, so n = 2^64 reads as 0 and max_tokens = 2^63 as
    MinInt64, and both are forwarded as they came although they exceed 1
    and the ceiling 4096. *)
Lemma ChatCompletions_clamps_counterexample :
  Atoi (Getenv chatEnv "CHAT_MAX_TOKENS") = Some 4096 /\
  GetBytes wrappingLimitsRequest [str "n"]
  = Some (JNumber 18446744073709551616) /\
  1 < 18446744073709551616 /\
  GetBytes wrappingLimitsRequest [str "max_tokens"]
  = Some (JNumber 9223372036854775808) /\
  4096 < 9223372036854775808 /\
  exists url key body',
    ChatCompletions compactRaw chatEnv (str "GitHubCopilotChat/0.22")
      wrappingLimitsRequest = Forward url key body' /\
    GetBytes body' [str "n"] = Some (JNumber 18446744073709551616) /\
    GetBytes body' [str "max_tokens"] = Some (JNumber 9223372036854775808).
Proof.
  split; [reflexivity|]. split; [reflexivity|]. split; [lia|].
  split; [reflexivity|]. split; [lia|].
  do 3 eexists. vm_compute. repeat split.
Qed.

(** With no message the first message has no role. *)
Lemma no_messages_first (Raw : JSON -> gostring) (body : JSON)
    (field : gostring) :
  Result_Array (getPart body (str "messages")) = [] ->
  Result_String Raw (GetBytes body [str "messages"; str "0"; field]) = [].
Proof.
  intros H. apply Result_Array_nil in H.
  destruct (getPart body (str "messages")) as [m|] eqn:E.
  - rewrite (GetBytes_cons body m _ _ E).
    destruct H as [H|[H|H]]; [discriminate|..]; injection H as ->;
      reflexivity.
  - unfold GetBytes. rewrite E. reflexivity.
Qed.

Lemma dispatch_no_messages (Raw : JSON -> gostring)
    (userAgent chatAPIURL apiKey : gostring) (body : JSON) :
  Result_Array (getPart body (str "messages")) = [] ->
  Contains userAgent (str "VSCopilotClient") = true ->
  dispatch Raw userAgent chatAPIURL apiKey body
  = Panicked (IndexOutOfRange (-1) 0).
Proof.
  intros Hm Hua. unfold dispatch.
  rewrite (no_messages_first Raw body (str "role") Hm).
  rewrite (no_messages_first Raw body (str "content") Hm).
  rewrite !GetBytes_key, Hm, Hua.
  reflexivity.
Qed.

Lemma rewriteLimits_messages (env : Env) (body : JSON) :
  getPart (rewriteLimits env body) (str "messages")
  = getPart body (str "messages").
Proof.
  destruct (rewriteLimits_stages env body)
    as (stripped & clamped & Hs & Hclamped & ->).
  assert (Hc : getPart clamped (str "messages")
               = getPart body (str "messages")).
  { rewrite Hclamped. cbv zeta. destruct (_ >? _).
    - rewrite getPart_SetBytes_ne by key. apply Hs; key.
    - apply Hs; key. }
  destruct (_ >? 1); [rewrite getPart_SetBytes_ne by key|]; exact Hc.
Qed.

(** C9.  With an empty messages array the handler indexes it at -1: in the
    message block when CHAT_LOCALE is set and the body has no
    function_call, and otherwise in the VS2022 branch when the User-Agent
    names VSCopilotClient. *)
Theorem ChatCompletions_empty_messages_panics :
  forall (Raw : JSON -> gostring) (env : Env) (userAgent : gostring)
         (body : JSON),
    Result_Array (GetBytes body [str "messages"]) = [] ->
    (Getenv env "CHAT_LOCALE" <> [] /\
     Result_Exists (GetBytes body [str "function_call"]) = false) \/
    Contains userAgent (str "VSCopilotClient") = true ->
    ChatCompletions Raw env userAgent body
    = Panicked (IndexOutOfRange (-1) 0).
Proof.
  intros Raw env userAgent body Hm Hcase.
  rewrite !GetBytes_key in *. unfold ChatCompletions.
  set (model := if Contains _ _ then _ else _).
  set (tagged := SetBytes (SetBytes body [str "model"] (JString model))
                   [str "stream"] JTrue).
  assert (Hfc : getPart tagged (str "function_call")
                = getPart body (str "function_call")).
  { unfold tagged. rewrite !getPart_SetBytes_ne by key. reflexivity. }
  assert (Hmt : getPart tagged (str "messages")
                = getPart body (str "messages")).
  { unfold tagged. rewrite !getPart_SetBytes_ne by key. reflexivity. }
  rewrite GetBytes_key, Hfc.
  assert (Hblock :
    normalizeMessages Raw env tagged
    = if eqs (Getenv env "CHAT_LOCALE") [] then Returns tagged
      else Panics (IndexOutOfRange (-1) 0)).
  { unfold normalizeMessages. rewrite GetBytes_key, Hmt, Hm. reflexivity. }
  destruct Hcase as [[Hlocale Hnofc]|Hua].
  - rewrite Hnofc, Hblock. cbn [negb].
    rewrite (proj2 (eqs_false _ _) Hlocale). reflexivity.
  - assert (Hgo : forall url key,
              dispatch Raw userAgent url key (rewriteLimits env tagged)
              = Panicked (IndexOutOfRange (-1) 0)).
    { intros url key. apply dispatch_no_messages; [|exact Hua].
      rewrite rewriteLimits_messages, Hmt. exact Hm. }
    destruct (negb (Result_Exists (getPart body (str "function_call")))).
    + rewrite Hblock. destruct (eqs _ []); [apply Hgo|reflexivity].
    + apply Hgo.
Qed.

Lemma ChatCompletions_empty_messages_panics_witness :
  ChatCompletions compactRaw chatEnv (str "GitHubCopilotChat/0.22")
    (JObject [member "model" (JString (str "gpt-4")); member "messages" (JArray [])])
  = Panicked (IndexOutOfRange (-1) 0) /\
  ChatCompletions compactRaw (envOf []) (str "VSCopilotClient/17.8")
    (JObject [member "model" (JString (str "gpt-4"))])
  = Panicked (IndexOutOfRange (-1) 0).
Proof.
  split.
  - apply ChatCompletions_empty_messages_panics; [reflexivity|].
    left. split; [discriminate|reflexivity].
  - apply ChatCompletions_empty_messages_panics; [reflexivity|].
    right. reflexivity.
Defined.

(** *** The message block *)

Lemma insert_after (done rest : list JSON) (m x : JSON) :
  <[length done := x]> (done ++ m :: rest) = done ++ x :: rest.
Proof.
  induction done as [|d done IH]; simpl; [reflexivity|].
  f_equal. exact IH.
Qed.

Lemma lookup_after (done rest : list JSON) (m : JSON) :
  (done ++ m :: rest) !! length done = Some m.
Proof. apply list_lookup_middle. reflexivity. Qed.

Lemma replacePart_index (elems : list JSON) (i : nat) (x : JSON) :
  replacePart (JArray elems) (Itoa i) x = JArray (<[i := x]> elems).
Proof. simpl. rewrite parseUint_Itoa. reflexivity. Qed.

Lemma DeleteBytes_element (done rest : list JSON) (m : JSON) (k : gostring) :
  DeleteBytes (JArray (done ++ m :: rest)) [Itoa (length done); k]
  = JArray (done ++ DeleteBytes m [k] :: rest).
Proof.
  change (DeleteBytes (JArray (done ++ m :: rest)) [Itoa (length done); k])
    with (match getPart (JArray (done ++ m :: rest)) (Itoa (length done)) with
          | Some child =>
              replacePart (JArray (done ++ m :: rest)) (Itoa (length done))
                (DeleteBytes child [k])
          | None => JArray (done ++ m :: rest)
          end).
  rewrite getPart_index, lookup_after, replacePart_index, insert_after.
  reflexivity.
Qed.

Lemma stripToolCalls_messages (todo : list JSON) :
  forall (done : list JSON) (body : JSON),
    getPart body (str "messages") = Some (JArray (done ++ todo)) ->
    getPart (stripToolCalls (length done) todo body) (str "messages")
    = Some (JArray (done ++ map withoutEmptyToolCalls todo)).
Proof.
  induction todo as [|msg rest IH]; intros done body Hm; [exact Hm|].
  cbn [stripToolCalls map].
  replace (S (length done))
    with (length (done ++ [withoutEmptyToolCalls msg]))
    by (rewrite length_app; simpl; lia).
  replace (done ++ withoutEmptyToolCalls msg :: map withoutEmptyToolCalls rest)
    with ((done ++ [withoutEmptyToolCalls msg])
          ++ map withoutEmptyToolCalls rest)
    by (rewrite <- app_assoc; reflexivity).
  apply IH. rewrite <- app_assoc. simpl. unfold withoutEmptyToolCalls.
  destruct (_ =? 0); [|exact Hm].
  assert (Hkey : atoui (str "messages") = None) by reflexivity.
  rewrite (getPart_DeleteBytes_below body (JArray (done ++ msg :: rest))
             (str "messages") (Itoa (length done)) [str "tool_calls"]
             Hkey Hm).
  rewrite DeleteBytes_element. reflexivity.
Qed.

Lemma withoutEmptyToolCalls_object (members : list (gostring * JSON)) :
  exists members',
    withoutEmptyToolCalls (JObject members) = JObject members' /\
    forall k, k <> str "tool_calls" ->
              findMember members' k = findMember members k.
Proof.
  unfold withoutEmptyToolCalls.
  destruct (_ =? 0); [|exists members; split; reflexivity].
  unfold DeleteBytes. destruct (getPart _ _).
  - eexists. split; [reflexivity|].
    intros k Hk. apply findMember_remove_ne. exact Hk.
  - exists members. split; reflexivity.
Qed.

Lemma sjsonSet_object_key (members : list (gostring * JSON)) (k : gostring)
    (v : JSON) :
  sjsonSet (JObject members) [k] v = Some (SetBytes (JObject members) [k] v).
Proof.
  unfold SetBytes. cbn [sjsonSet].
  destruct (getPart (JObject members) k); reflexivity.
Qed.

Lemma SetBytes_last_member (body : JSON) (init : list JSON)
    (members : list (gostring * JSON)) (k : gostring) (v : JSON) :
  getPart body (str "messages") = Some (JArray (init ++ [JObject members])) ->
  getPart (SetBytes body [str "messages"; Itoa (length init); k] v)
    (str "messages")
  = Some (JArray (init ++ [SetBytes (JObject members) [k] v])).
Proof.
  intros Hm.
  assert (Hkey : atoui (str "messages") = None) by reflexivity.
  apply (getPart_SetBytes_below body (JArray (init ++ [JObject members]))
           (JArray (init ++ [SetBytes (JObject members) [k] v]))
           (str "messages") (Itoa (length init)) [k] v Hkey Hm).
  change (sjsonSet (JArray (init ++ [JObject members])) [Itoa (length init); k] v)
    with (match getPart (JArray (init ++ [JObject members]))
                  (Itoa (length init)) with
          | Some child =>
              match sjsonSet child [k] v with
              | Some child' =>
                  Some (replacePart (JArray (init ++ [JObject members]))
                          (Itoa (length init)) child')
              | None => None
              end
          | None =>
              match atoui (Itoa (length init)) with
              | Some n =>
                  Some (JArray ((init ++ [JObject members])
                                ++ repeat JNull
                                     (n - length (init ++ [JObject members]))
                                ++ [build [k] v]))
              | None =>
                  if eqs (Itoa (length init)) (str "-1")
                  then Some (JArray ((init ++ [JObject members])
                                     ++ [build [k] v]))
                  else None
              end
          end).
  rewrite getPart_index, lookup_after, sjsonSet_object_key.
  rewrite replacePart_index, insert_after. reflexivity.
Qed.

Lemma normalizeMessages_locale (Raw : JSON -> gostring) (env : Env)
    (body : JSON) (init : list JSON) (members : list (gostring * JSON)) :
  Getenv env "CHAT_LOCALE" <> [] ->
  getPart body (str "messages") = Some (JArray (init ++ [JObject members])) ->
  Contains (Result_String Raw (findMember members (str "content")))
    localeMarker = false ->
  exists normalized members',
    normalizeMessages Raw env body = Returns normalized /\
    withoutEmptyToolCalls (JObject members) = JObject members' /\
    getPart normalized (str "messages")
    = Some (JArray
              (map withoutEmptyToolCalls init
               ++ [SetBytes (JObject members') [str "content"]
                     (JString
                        (Result_String Raw (findMember members (str "content"))
                         ++ str "Respond in the following locale: "
                         ++ Getenv env "CHAT_LOCALE" ++ str "."))])).
Proof.
  intros Hlocale Hm Hmarker.
  destruct (withoutEmptyToolCalls_object members) as (members' & Hw & Hsame).
  unfold normalizeMessages. rewrite GetBytes_key, Hm.
  cbn [Result_Array]. rewrite (proj2 (eqs_false _ _) Hlocale).
  rewrite last_snoc.
  change (getPart (JObject members) (str "content"))
    with (findMember members (str "content")).
  rewrite Hmarker. cbn [negb].
  eexists _, members'. split; [reflexivity|]. split; [exact Hw|].
  replace (Z.to_nat (len (init ++ [JObject members]) - 1))
    with (length (map withoutEmptyToolCalls init)).
  2:{ unfold len. rewrite length_map, length_app. simpl. lia. }
  apply SetBytes_last_member.
  pose proof (stripToolCalls_messages (init ++ [JObject members]) [] body Hm)
    as Hstrip.
  simpl in Hstrip. rewrite Hstrip, map_app. simpl. rewrite Hw. reflexivity.
Qed.

(** C3 (as amended).  When CHAT_LOCALE is set, the body has no
    function_call member, messages is an array ending in an object, and the
    content of that object lacks the locale directive, the forwarded body
    has the instruction sentence appended to the content of the last
    message; the other members of the last message and the other messages
    are as the tool_calls clean-up leaves them. *)
Theorem ChatCompletions_locale_appended :
  forall (Raw : JSON -> gostring) (env : Env)
         (userAgent url key : gostring) (body body' : JSON)
         (init : list JSON) (members : list (gostring * JSON)),
    Getenv env "CHAT_LOCALE" <> [] ->
    Result_Exists (GetBytes body [str "function_call"]) = false ->
    GetBytes body [str "messages"] = Some (JArray (init ++ [JObject members])) ->
    Contains (Result_String Raw (findMember members (str "content")))
      localeMarker = false ->
    ChatCompletions Raw env userAgent body = Forward url key body' ->
    let content := Result_String Raw (findMember members (str "content")) in
    let sentence :=
      str "Respond in the following locale: " ++ Getenv env "CHAT_LOCALE"
      ++ str "." in
    exists lastMessage,
      GetBytes body' [str "messages"]
      = Some (JArray (map withoutEmptyToolCalls init ++ [lastMessage])) /\
      getPart lastMessage (str "content")
      = Some (JString (content ++ sentence)) /\
      (forall k, k <> str "content" ->
         getPart lastMessage k
         = getPart (withoutEmptyToolCalls (JObject members)) k) /\
      GetBytes body' [str "messages"; Itoa (length init); str "content"]
      = Some (JString (content ++ sentence)).
Proof.
  intros Raw env userAgent url key body body' init members
         Hlocale Hnofc Hm Hmarker H content sentence.
  rewrite GetBytes_key in Hnofc, Hm.
  apply ChatCompletions_Forward in H as (model & normalized & -> & Hn).
  cbv zeta in Hn.
  set (tagged := SetBytes (SetBytes body [str "model"] (JString model))
                   [str "stream"] JTrue) in Hn.
  destruct Hn as [[Hfc _]|[_ Hn]].
  { destruct (getPart body (str "function_call")); [discriminate|congruence]. }
  assert (Hmt : getPart tagged (str "messages")
                = Some (JArray (init ++ [JObject members]))).
  { unfold tagged. rewrite !getPart_SetBytes_ne by key. exact Hm. }
  destruct (normalizeMessages_locale Raw env tagged init members
              Hlocale Hmt Hmarker)
    as (normalized' & members' & Hn' & Hw & Hmsgs).
  rewrite Hn in Hn'. injection Hn' as <-.
  destruct (getPart_SetBytes_object members' (str "content")
              (JString (content ++ sentence)))
    as (final & Hfinal & Hcontent & Hothers).
  fold content in Hmsgs. fold sentence in Hmsgs. rewrite Hfinal in Hmsgs.
  assert (Hout : getPart (rewriteLimits env normalized) (str "messages")
                 = Some (JArray (map withoutEmptyToolCalls init
                                 ++ [JObject final]))).
  { rewrite rewriteLimits_messages. exact Hmsgs. }
  exists (JObject final). rewrite GetBytes_key.
  split; [exact Hout|]. split; [exact Hcontent|]. split.
  - intros k Hk. rewrite Hw. exact (Hothers k Hk).
  - rewrite (GetBytes_cons _ _ _ _ Hout).
    assert (Hlast : getPart (JArray (map withoutEmptyToolCalls init
                                     ++ [JObject final]))
                      (Itoa (length init)) = Some (JObject final)).
    { rewrite getPart_index.
      replace (length init) with (length (map withoutEmptyToolCalls init))
        by apply length_map.
      apply lookup_after. }
    rewrite (GetBytes_cons _ _ _ _ Hlast), GetBytes_key. exact Hcontent.
Qed.

Lemma ChatCompletions_locale_appended_witness :
  exists url key body' lastMessage,
    ChatCompletions compactRaw chatEnv (str "GitHubCopilotChat/0.22")
      sampleRequest = Forward url key body' /\
    GetBytes body' [str "messages"]
    = Some (JArray [JObject [member "role" (JString (str "assistant"));
                             member "content" (JString (str "Hi."))];
                    lastMessage]) /\
    getPart lastMessage (str "content")
    = Some (JString (str "Explain this code.Respond in the following locale: zh-CN.")) /\
    GetBytes body' [str "messages"; str "1"; str "content"]
    = Some (JString (str "Explain this code.Respond in the following locale: zh-CN.")).
Proof.
  assert (Hrun : exists url key body',
            ChatCompletions compactRaw chatEnv (str "GitHubCopilotChat/0.22")
              sampleRequest = Forward url key body').
  { do 3 eexists. vm_compute. reflexivity. }
  destruct Hrun as (url & key & body' & Hrun).
  destruct (ChatCompletions_locale_appended compactRaw chatEnv
              (str "GitHubCopilotChat/0.22") url key sampleRequest body'
              [JObject [member "role" (JString (str "assistant"));
                        member "content" (JString (str "Hi."));
                        member "tool_calls" (JArray [])]]
              [member "role" (JString (str "user"));
               member "content" (JString (str "Explain this code."))])
    as (lastMessage & H1 & H2 & _ & H4).
  - discriminate.
  - reflexivity.
  - reflexivity.
  - vm_compute. reflexivity.
  - exact Hrun.
  - exists url, key, body', lastMessage.
    split; [exact Hrun|]. split; [exact H1|]. split; [exact H2|exact H4].
Defined.

(** C3 as stated fails: a request with a function_call member skips the
    message block, and its last message is forwarded without the sentence
    although CHAT_LOCALE is set. *)
Lemma ChatCompletions_locale_counterexample :
  Getenv chatEnv "CHAT_LOCALE" <> [] /\
  exists url key body',
    ChatCompletions compactRaw chatEnv (str "GitHubCopilotChat/0.22")
      functionCallRequest = Forward url key body' /\
    GetBytes functionCallRequest [str "messages"; str "0"; str "content"]
    = Some (JString (str "Explain this code.")) /\
    Contains (str "Explain this code.") localeMarker = false /\
    GetBytes body' [str "messages"; str "0"; str "content"]
    = Some (JString (str "Explain this code.")).
Proof.
  split; [discriminate|].
  do 3 eexists. split; [vm_compute; reflexivity|].
  split; [reflexivity|]. split; reflexivity.
Qed.


(** ** The start-up barrier of main *)

Lemma startStep_inv (a : startAction) (s s' : startState) :
  startInv s -> startStep a s = Some s' -> startInv s'.
Proof.
  unfold startInv. intros [HI Hm] Hstep.
  destruct s as [m h hs n set]. simpl in *.
  destruct a as [| |ok| |ok]; simpl in Hstep.
  - destruct m; try discriminate;
      try (destruct n; [discriminate|]);
      injection Hstep as <-; simpl in *;
      repeat match goal with H : _ /\ _ |- _ => destruct H end;
      subst; simpl in *; split; try tauto;
      destruct h; simpl in *; try lia;
      destruct hs; simpl in *; lia.
  - destruct h; try discriminate.
    case_bool_decide; [|discriminate].
    injection Hstep as <-. simpl.
    destruct m; simpl in *;
      repeat match goal with H : _ /\ _ |- _ => destruct H end;
      try discriminate; split; try tauto;
      destruct hs; simpl in *; lia.
  - destruct h; try discriminate.
    injection Hstep as <-. simpl.
    destruct m; simpl in *;
      repeat match goal with H : _ /\ _ |- _ => destruct H end;
      try discriminate; split; try tauto;
      destruct ok, hs; simpl in *; lia.
  - destruct hs; try discriminate. destruct set.
    + injection Hstep as <-. simpl.
      destruct m; simpl in *;
        repeat match goal with H : _ /\ _ |- _ => destruct H end;
        try discriminate; split; try tauto;
        destruct h; simpl in *; lia.
    + case_bool_decide; [|discriminate].
      injection Hstep as <-. simpl.
      destruct m; simpl in *;
        repeat match goal with H : _ /\ _ |- _ => destruct H end;
        try discriminate; split; try tauto;
        destruct h; simpl in *; lia.
  - destruct hs; try discriminate.
    injection Hstep as <-. simpl.
    destruct m; simpl in *;
      repeat match goal with H : _ /\ _ |- _ => destruct H end;
      try discriminate; split; try tauto;
      destruct ok, h; simpl in *; lia.
Qed.

Lemma startReachable_inv (s : startState) : startReachable s -> startInv s.
Proof.
  intros [schedule H].
  assert (Hgen : forall s0, startInv s0 ->
                   startExec schedule s0 = Some s -> startInv s).
  { clear H. induction schedule as [|a schedule IH]; intros s0 H0 H.
    - injection H as <-. exact H0.
    - simpl in H. destruct (startStep a s0) as [s1|] eqn:E; [|discriminate].
      exact (IH s1 (startStep_inv a s0 s1 H0 E) H). }
  apply (Hgen startInit); [|exact H]. unfold startInv. simpl.
  split; [lia|split; reflexivity].
Qed.

(** What the two receives do guarantee: when the launch message is shown,
    both goroutines are past their send. *)
Lemma startup_barrier (s : startState) :
  startReachable s -> start_main s = Launched ->
  pastSend (start_http s) = true /\ pastSend (start_https s) = true.
Proof.
  intros Hs Hm. apply startReachable_inv in Hs as [Hs _].
  rewrite Hm in Hs. simpl in Hs.
  destruct (pastSend (start_http s)), (pastSend (start_https s));
    split; try reflexivity; lia.
Qed.

(** C8.  The launch message can be shown while neither listener accepts:
    each goroutine sends on serverStarted before it calls ListenAndServe,
    so the two receives of main do not wait for the listeners. *)
Theorem startup_ready_before_listening :
  exists s,
    startExec
      [MainStep; MainStep; HTTPSend; HTTPSSend; MainStep; MainStep; MainStep;
       MainStep] startInit = Some s /\
    start_main s = Launched /\
    start_http s = Signalled /\
    start_https s = Signalled.
Proof.
  eexists. split; [reflexivity|]. repeat split.
Qed.


(** * Further properties of the code *)

(** ** SplitIntoChunks: whole lines and the budget *)

Lemma Split_no_sep (s : gostring) (sep : ascii) :
  Forall (fun line => ~ In sep line) (Split s sep).
Proof.
  induction s as [|c r IH]; simpl.
  - constructor; [intros []|constructor].
  - destruct (Ascii.eqb c sep) eqn:E.
    + constructor; [intros []|exact IH].
    + apply Ascii.eqb_neq in E.
      destruct (Split r sep) as [|h t]; [constructor; [|constructor]|].
      * intros [H|[]]. congruence.
      * inversion IH as [|? ? Hh Ht]; subst. constructor; [|exact Ht].
        intros [H|H]; [congruence|exact (Hh H)].
Qed.

Lemma renderLines_snoc (g : list gostring) (line : gostring) :
  renderLines (g ++ [line]) = renderLines g ++ line ++ [nl].
Proof.
  unfold renderLines. rewrite map_app, concat_app. simpl.
  rewrite app_nil_r. reflexivity.
Qed.

Lemma renderLines_nil_iff (g : list gostring) : renderLines g = [] <-> g = [].
Proof.
  split; [|intros ->; reflexivity].
  destruct g as [|l g]; [reflexivity|].
  unfold renderLines. simpl. destruct l; discriminate.
Qed.

Section LineGroups.

Variable Sum256 : gostring -> gostring.
Variables path model : gostring.
Variable chunkSize : Z.

(** The loop seals groups of whole lines; the builder holds the group
  being gathered. *)
Lemma splitLoop_groups (lines : list gostring) :
forall (st : splitState) (groups : list (list gostring))
       (cur : list gostring),
  map (unwrappedText path) (chunks_ st) = map renderLines groups ->
  sb st = renderLines cur ->
  Forall (groupFits chunkSize) groups ->
  cur = [] \/ groupFits chunkSize cur ->
  exists groups' cur',
    let st' := fold_left (splitLine Sum256 path model chunkSize) lines st in
    map (unwrappedText path) (chunks_ st') = map renderLines groups' /\
    sb st' = renderLines cur' /\
    Forall (groupFits chunkSize) groups' /\
    (cur' = [] \/ groupFits chunkSize cur') /\
    concat groups' ++ cur' = concat groups ++ cur ++ lines.
Proof.
induction lines as [|line lines IH]; intros st groups cur Hch Hsb Hgs Hcur.
- exists groups, cur. simpl. rewrite app_nil_r. auto.
- cbn [fold_left].
  destruct (len (sb st) + len (line ++ [nl]) >? chunkSize) eqn:Ebig;
    destruct (len (sb st) >? 0) eqn:Epos.
  + (* seal the builder, start a new group with this line *)
    assert (Hstep : splitLine Sum256 path model chunkSize st line
              = {| chunks_ := chunks_ st ++
                      [createChunk Sum256 (sb st) path (start_ st)
                         (start_ st + len (sb st)) model];
                   sb := line ++ [nl];
                   start_ := start_ st + len (sb st) |}).
    { unfold splitLine. rewrite Ebig, Epos. reflexivity. }
    rewrite Hstep.
    assert (Hne : cur <> []).
    { intros ->. rewrite Hsb in Epos. discriminate. }
    destruct Hcur as [->|Hfit]; [congruence|].
    destruct (IH {| chunks_ := chunks_ st ++
                      [createChunk Sum256 (sb st) path (start_ st)
                         (start_ st + len (sb st)) model];
                    sb := line ++ [nl];
                    start_ := start_ st + len (sb st) |}
                 (groups ++ [cur]) [line])
      as (groups' & cur' & H1 & H2 & H3 & H4 & H5).
    * cbn [chunks_]. rewrite !map_app, Hch. cbn [map].
      rewrite unwrappedText_createChunk, Hsb. reflexivity.
    * cbn [sb]. unfold renderLines. cbn [map concat].
      rewrite app_nil_r. reflexivity.
    * apply Forall_app. split; [exact Hgs|constructor; [exact Hfit|constructor]].
    * right. split; [discriminate|right; reflexivity].
    * exists groups', cur'. cbv zeta.
      split; [exact H1|]. split; [exact H2|]. split; [exact H3|].
      split; [exact H4|].
      rewrite H5, concat_app. cbn [concat]. rewrite app_nil_r, <- !app_assoc.
      reflexivity.
  + (* the builder is empty: the line opens a group, whatever its size *)
    assert (Hstep : splitLine Sum256 path model chunkSize st line
              = {| chunks_ := chunks_ st;
                   sb := sb st ++ line ++ [nl];
                   start_ := start_ st |}).
    { unfold splitLine. rewrite Ebig, Epos. reflexivity. }
    rewrite Hstep.
    apply len_nil_iff in Epos.
    assert (cur = []) as ->.
    { apply renderLines_nil_iff. congruence. }
    destruct (IH {| chunks_ := chunks_ st;
                    sb := sb st ++ line ++ [nl];
                    start_ := start_ st |} groups [line])
      as (groups' & cur' & H1 & H2 & H3 & H4 & H5).
    * exact Hch.
    * cbn [sb]. rewrite Epos. unfold renderLines. cbn [map concat].
      rewrite app_nil_r. reflexivity.
    * exact Hgs.
    * right. split; [discriminate|right; reflexivity].
    * exists groups', cur'. cbv zeta.
      split; [exact H1|]. split; [exact H2|]. split; [exact H3|].
      split; [exact H4|exact H5].
  + (* the line fits after a non-empty builder *)
    assert (Hstep : splitLine Sum256 path model chunkSize st line
              = {| chunks_ := chunks_ st;
                   sb := sb st ++ line ++ [nl];
                   start_ := start_ st |}).
    { unfold splitLine. rewrite Ebig, Epos. reflexivity. }
    rewrite Hstep.
    destruct (IH {| chunks_ := chunks_ st;
                    sb := sb st ++ line ++ [nl];
                    start_ := start_ st |} groups (cur ++ [line]))
      as (groups' & cur' & H1 & H2 & H3 & H4 & H5).
    * exact Hch.
    * cbn [sb]. rewrite renderLines_snoc, Hsb. reflexivity.
    * exact Hgs.
    * right. split; [destruct cur; discriminate|left].
      rewrite renderLines_snoc, <- Hsb, len_app. lia.
    * exists groups', cur'. cbv zeta.
      split; [exact H1|]. split; [exact H2|]. split; [exact H3|].
      split; [exact H4|].
      rewrite H5, <- !app_assoc. reflexivity.
  + (* the line fits and the builder is empty *)
    assert (Hstep : splitLine Sum256 path model chunkSize st line
              = {| chunks_ := chunks_ st;
                   sb := sb st ++ line ++ [nl];
                   start_ := start_ st |}).
    { unfold splitLine. rewrite Ebig, Epos. reflexivity. }
    rewrite Hstep.
    apply len_nil_iff in Epos.
    assert (cur = []) as ->.
    { apply renderLines_nil_iff. congruence. }
    destruct (IH {| chunks_ := chunks_ st;
                    sb := sb st ++ line ++ [nl];
                    start_ := start_ st |} groups [line])
      as (groups' & cur' & H1 & H2 & H3 & H4 & H5).
    * exact Hch.
    * cbn [sb]. rewrite Epos. unfold renderLines. cbn [map concat].
      rewrite app_nil_r. reflexivity.
    * exact Hgs.
    * right. split; [discriminate|right; reflexivity].
    * exists groups', cur'. cbv zeta.
      split; [exact H1|]. split; [exact H2|]. split; [exact H3|].
      split; [exact H4|exact H5].
Qed.

End LineGroups.

Lemma SplitIntoChunks_groups (Sum256 : gostring -> gostring) (env : Env)
    (content path model : gostring) (chunks : list Chunk) :
  SplitIntoChunks Sum256 env content path model = Returns chunks ->
  exists groups,
    concat groups = Split content nl /\
    map (unwrappedText path) chunks = map renderLines groups /\
    Forall (groupFits (getChunkSize env)) groups.
Proof.
  intros H. apply SplitIntoChunks_Returns in H. cbv zeta in H.
  destruct (splitLoop_groups Sum256 path model (getChunkSize env)
              (Split content nl)
              {| chunks_ := []; sb := []; start_ := 0 |} [] [])
    as (groups & cur & H1 & H2 & H3 & H4 & H5); try reflexivity.
  { constructor. }
  { left. reflexivity. }
  cbv zeta in *. set (st := fold_left _ _ _) in *.
  assert (Hsb : sb st <> []).
  { apply splitLoop_sb. left. apply Split_nonempty. }
  destruct H4 as [->|Hfit]; [rewrite H2 in Hsb; contradiction|].
  exists (groups ++ [cur]). subst chunks. split; [|split].
  - rewrite concat_app. simpl. rewrite app_nil_r. exact H5.
  - rewrite !map_app, H1. simpl.
    rewrite unwrappedText_createChunk, H2. reflexivity.
  - apply Forall_app. split; [exact H3|constructor; [exact Hfit|constructor]].
Qed.

(** X1.  The chunks cut the lines of the content into consecutive,
    non-empty groups: the unwrapped text of each chunk is a group of whole
    lines, each with its newline, and the groups in order are exactly the
    lines of strings.Split. *)
Theorem SplitIntoChunks_whole_lines :
  forall (Sum256 : gostring -> gostring) (env : Env)
         (content path model : gostring) (chunks : list Chunk),
    SplitIntoChunks Sum256 env content path model = Returns chunks ->
    exists groups : list (list gostring),
      concat groups = Split content nl /\
      Forall (fun g => g <> []) groups /\
      Forall (Forall (fun line => ~ In nl line)) groups /\
      map (unwrappedText path) chunks = map renderLines groups.
Proof.
  intros Sum256 env content path model chunks H.
  destruct (SplitIntoChunks_groups _ _ _ _ _ _ H) as (groups & Hc & Hm & Hf).
  exists groups. split; [exact Hc|]. split; [|split; [|exact Hm]].
  - eapply Forall_impl; [exact Hf|]. intros g [Hne _]. exact Hne.
  - pose proof (Split_no_sep content nl) as Hno. rewrite <- Hc in Hno.
    clear -Hno. induction groups as [|g groups IH]; [constructor|].
    simpl in Hno. apply Forall_app in Hno as [Hg Hrest].
    constructor; [exact Hg|exact (IH Hrest)].
Qed.

Lemma SplitIntoChunks_whole_lines_witness :
  exists chunks groups,
    SplitIntoChunks toySum256 (envOf [("EMBEDDING_DIMENSION_SIZE", "4")])
      (joinLines ["a"; "b"; "a long line"; "c"]) (str "main.go") (str "m")
    = Returns chunks /\
    concat groups = Split (joinLines ["a"; "b"; "a long line"; "c"]) nl /\
    Forall (fun g => g <> []) groups /\
    Forall (Forall (fun line => ~ In nl line)) groups /\
    map (unwrappedText (str "main.go")) chunks = map renderLines groups.
Proof.
  assert (Hrun : exists chunks,
            SplitIntoChunks toySum256
              (envOf [("EMBEDDING_DIMENSION_SIZE", "4")])
              (joinLines ["a"; "b"; "a long line"; "c"]) (str "main.go")
              (str "m") = Returns chunks).
  { eexists. vm_compute. reflexivity. }
  destruct Hrun as [chunks Hrun].
  destruct (SplitIntoChunks_whole_lines toySum256
              (envOf [("EMBEDDING_DIMENSION_SIZE", "4")])
              (joinLines ["a"; "b"; "a long line"; "c"]) (str "main.go")
              (str "m") chunks Hrun) as (groups & H).
  exists chunks, groups. split; [exact Hrun|exact H].
Defined.

(** X2.  A chunk goes over the budget only when it is a single line: the
    unwrapped text of every chunk is at most getChunkSize bytes long, or
    it is one line followed by its newline. *)
Theorem SplitIntoChunks_budget :
  forall (Sum256 : gostring -> gostring) (env : Env)
         (content path model : gostring) (chunks : list Chunk),
    SplitIntoChunks Sum256 env content path model = Returns chunks ->
    Forall (fun c =>
              len (unwrappedText path c) <= getChunkSize env \/
              exists line, ~ In nl line /\
                           unwrappedText path c = line ++ [nl])
      chunks.
Proof.
  intros Sum256 env content path model chunks H.
  destruct (SplitIntoChunks_groups _ _ _ _ _ _ H) as (groups & Hc & Hm & Hf).
  pose proof (Split_no_sep content nl) as Hno. rewrite <- Hc in Hno.
  clear Hc H. revert chunks Hm.
  induction groups as [|g groups IH]; intros chunks Hm.
  - destruct chunks; [constructor|discriminate].
  - destruct chunks as [|c chunks]; [discriminate|].
    simpl in Hm. injection Hm as Hc Hrest.
    inversion Hf as [|? ? [Hne Hfit] Hf']; subst.
    simpl in Hno. apply Forall_app in Hno as [Hg Hgs].
    constructor; [|exact (IH Hf' Hgs chunks Hrest)].
    rewrite Hc. destruct Hfit as [Hle|Hone]; [left; exact Hle|right].
    destruct g as [|line [|]]; try discriminate.
    exists line. inversion Hg; subst. split; [assumption|].
    unfold renderLines. simpl. rewrite app_nil_r. reflexivity.
Qed.

Lemma SplitIntoChunks_budget_witness :
  exists chunks,
    SplitIntoChunks toySum256 (envOf [("EMBEDDING_DIMENSION_SIZE", "4")])
      (joinLines ["a"; "b"; "a long line"; "c"]) (str "main.go") (str "m")
    = Returns chunks /\
    Forall (fun c =>
              len (unwrappedText (str "main.go") c)
              <= getChunkSize (envOf [("EMBEDDING_DIMENSION_SIZE", "4")]) \/
              exists line, ~ In nl line /\
                           unwrappedText (str "main.go") c = line ++ [nl])
      chunks.
Proof.
  assert (Hrun : exists chunks,
            SplitIntoChunks toySum256
              (envOf [("EMBEDDING_DIMENSION_SIZE", "4")])
              (joinLines ["a"; "b"; "a long line"; "c"]) (str "main.go")
              (str "m") = Returns chunks).
  { eexists. vm_compute. reflexivity. }
  destruct Hrun as [chunks Hrun].
  exists chunks. split; [exact Hrun|].
  exact (SplitIntoChunks_budget toySum256
           (envOf [("EMBEDDING_DIMENSION_SIZE", "4")])
           (joinLines ["a"; "b"; "a long line"; "c"]) (str "main.go")
           (str "m") chunks Hrun).
Defined.

(** ** SplitIntoChunks: when it panics *)

(** X3.  SplitIntoChunks divides by the chunk size and passes the quotient
    plus one to make: it panics with a division by zero exactly when the
    chunk size is 0, with a negative capacity exactly when the chunk size
    is negative and the content is at least twice its magnitude long, and
    returns in every other case. *)
Theorem SplitIntoChunks_panics :
  forall (Sum256 : gostring -> gostring) (env : Env)
         (content path model : gostring),
    (getChunkSize env = 0 <->
     SplitIntoChunks Sum256 env content path model = Panics DivideByZero) /\
    (getChunkSize env < 0 /\ - 2 * getChunkSize env <= len content <->
     SplitIntoChunks Sum256 env content path model
     = Panics MakesliceCapOutOfRange) /\
    (0 < getChunkSize env \/
     (getChunkSize env < 0 /\ len content < - 2 * getChunkSize env) <->
     exists chunks,
       SplitIntoChunks Sum256 env content path model = Returns chunks).
Proof.
  intros Sum256 env content path model.
  pose proof (len_nonneg content) as Hlen.
  set (cs := getChunkSize env).
  assert (Hq : cs <> 0 ->
               (len content ÷ cs + 1 < 0
                <-> cs < 0 /\ - 2 * cs <= len content)).
  { intros Hcs. destruct (Z.lt_ge_cases cs 0) as [Hneg|Hpos].
    - replace cs with (- (- cs)) at 1 by lia.
      rewrite Z.quot_opp_r by lia.
      rewrite Z.quot_div_nonneg by lia.
      split.
      + intros H. split; [exact Hneg|].
        assert (2 <= len content / - cs) by lia.
        pose proof (Z.mul_div_le (len content) (- cs) ltac:(lia)). nia.
      + intros [_ H].
        assert (2 <= len content / - cs).
        { apply Z.div_le_lower_bound; lia. }
        lia.
    - pose proof (Z.quot_pos (len content) cs Hlen ltac:(lia)). lia. }
  destruct (Z.eq_dec cs 0) as [Hz|Hnz].
  - assert (Hres : SplitIntoChunks Sum256 env content path model
                   = Panics DivideByZero).
    { unfold SplitIntoChunks. fold cs. rewrite Hz. reflexivity. }
    rewrite Hres. split; [|split].
    + split; [reflexivity|intros _; exact Hz].
    + split; [lia|discriminate].
    + split; [lia|intros [chunks H]; discriminate].
  - assert (E0 : (cs =? 0) = false) by (apply Z.eqb_neq; exact Hnz).
    destruct (len content ÷ cs + 1 <? 0) eqn:E1.
    + assert (Hres : SplitIntoChunks Sum256 env content path model
                     = Panics MakesliceCapOutOfRange).
      { unfold SplitIntoChunks. fold cs. rewrite E0, E1. reflexivity. }
      apply Z.ltb_lt in E1. apply (Hq Hnz) in E1.
      rewrite Hres. split; [|split].
      * split; [lia|discriminate].
      * split; [reflexivity|intros _; exact E1].
      * split; [lia|intros [chunks H]; discriminate].
    + assert (Hres : exists chunks,
                SplitIntoChunks Sum256 env content path model
                = Returns chunks).
      { unfold SplitIntoChunks. fold cs. rewrite E0, E1.
        destruct (_ >? 0); eexists; reflexivity. }
      apply Z.ltb_ge in E1.
      assert (Hnot : ~ (cs < 0 /\ - 2 * cs <= len content)).
      { intros H. apply (Hq Hnz) in H. lia. }
      destruct Hres as [chunks Hres]. rewrite Hres. split; [|split].
      * split; [lia|discriminate].
      * split; [tauto|discriminate].
      * split; [intros _; exists chunks; reflexivity|intros _; lia].
Qed.

Lemma SplitIntoChunks_panics_witness :
  SplitIntoChunks toySum256 (envOf [("EMBEDDING_DIMENSION_SIZE", "0")])
    (str "package main") (str "main.go") (str "m") = Panics DivideByZero /\
  SplitIntoChunks toySum256 (envOf [("EMBEDDING_DIMENSION_SIZE", "-2")])
    (str "package main") (str "main.go") (str "m")
  = Panics MakesliceCapOutOfRange /\
  exists chunks,
    SplitIntoChunks toySum256 (envOf [("EMBEDDING_DIMENSION_SIZE", "-2")])
      (str "main") (str "main.go") (str "m") = Returns chunks.
Proof.
  split; [|split].
  - apply (SplitIntoChunks_panics toySum256
             (envOf [("EMBEDDING_DIMENSION_SIZE", "0")])
             (str "package main") (str "main.go") (str "m")).
    reflexivity.
  - apply (SplitIntoChunks_panics toySum256
             (envOf [("EMBEDDING_DIMENSION_SIZE", "-2")])
             (str "package main") (str "main.go") (str "m")).
    split; vm_compute; [reflexivity|discriminate].
  - apply (SplitIntoChunks_panics toySum256
             (envOf [("EMBEDDING_DIMENSION_SIZE", "-2")])
             (str "main") (str "main.go") (str "m")).
    right. split; vm_compute; reflexivity.
Defined.

(** ** getChunkSize *)

Lemma wrap64_small (z : Z) : MinInt64 <= z <= MaxInt64 -> wrap64 z = z.
Proof.
  unfold wrap64, MinInt64, MaxInt64. intros H.
  rewrite Z.mod_small by lia. lia.
Qed.

Lemma Atoi_range (s : gostring) (z : Z) :
  Atoi s = Some z -> s <> [] /\ MinInt64 <= z <= MaxInt64.
Proof.
  unfold Atoi. destruct s as [|c r]; [discriminate|].
  intros H. split; [discriminate|].
  destruct (if Ascii.eqb c "-" then (true, r)
            else if Ascii.eqb c "+" then (false, r) else (false, c :: r))
    as [neg ds].
  destruct ds; [discriminate|].
  destruct (parseDigits 0 (a :: ds)); [|discriminate].
  destruct ((MinInt64 <=? _) && (_ <=? MaxInt64)) eqn:E; [|discriminate].
  injection H as <-. apply andb_true_iff in E as [E1 E2]. lia.
Qed.

(** X4.  The chunk budget is three halves of EMBEDDING_DIMENSION_SIZE,
    rounded towards zero, as long as three times the dimension fits a
    64-bit int; a value that strconv.Atoi rejects, like an unset variable,
    gives the budget of the default dimension 1536, which is 2304. *)
Theorem getChunkSize_of_dimension :
  forall (env : Env),
    (forall d,
       Atoi (Getenv env "EMBEDDING_DIMENSION_SIZE") = Some d ->
       MinInt64 <= 3 * d <= MaxInt64 ->
       getChunkSize env = (3 * d) ÷ 2) /\
    (Atoi (Getenv env "EMBEDDING_DIMENSION_SIZE") = None ->
     getChunkSize env = 2304).
Proof.
  intros env. unfold getChunkSize, getDimensionSize. split.
  - intros d Hd Hfit. destruct (Atoi_range _ _ Hd) as [Hne _].
    rewrite (proj2 (eqs_false _ _) Hne), Hd.
    rewrite wrap64_small by lia. f_equal. lia.
  - intros Hd. rewrite Hd. destruct (eqs _ []); reflexivity.
Qed.

Lemma getChunkSize_of_dimension_witness :
  getChunkSize (envOf [("EMBEDDING_DIMENSION_SIZE", "1025")]) = 1537 /\
  getChunkSize (envOf [("EMBEDDING_DIMENSION_SIZE", "1_024")]) = 2304.
Proof.
  split.
  - apply (proj1 (getChunkSize_of_dimension
                    (envOf [("EMBEDDING_DIMENSION_SIZE", "1025")])) 1025);
      vm_compute; [reflexivity|split; discriminate].
  - apply (proj2 (getChunkSize_of_dimension
                    (envOf [("EMBEDDING_DIMENSION_SIZE", "1_024")]))).
    reflexivity.
Defined.

(** ** createChunk: the fingerprint *)

Lemma hexDigit_value (n : nat) :
  (n < 16)%nat ->
  (let a := nat_of_ascii (hexDigit n) in
   if (a <? 58)%nat then (a - 48)%nat else (a - 87)%nat) = n.
Proof.
  intros H.
  do 16 (destruct n as [|n]; [reflexivity|]). lia.
Qed.

Lemma hexDigit_inj (i j : nat) :
  (i < 16)%nat -> (j < 16)%nat -> hexDigit i = hexDigit j -> i = j.
Proof.
  intros Hi Hj H.
  rewrite <- (hexDigit_value i Hi), <- (hexDigit_value j Hj), H.
  reflexivity.
Qed.

Lemma hexDigit_lower (n : nat) :
  (n < 16)%nat -> In (hexDigit n) (str "0123456789abcdef").
Proof.
  intros H.
  do 16 (destruct n as [|n]; [vm_compute; tauto|]). lia.
Qed.

Lemma nat_of_ascii_lt (c : ascii) : (nat_of_ascii c < 256)%nat.
Proof.
  destruct c as [[] [] [] [] [] [] [] []]; vm_compute; lia.
Qed.

Lemma hex_cons (c : ascii) (b : gostring) :
  hex (c :: b)
  = hexDigit (nat_of_ascii c / 16) :: hexDigit (nat_of_ascii c mod 16)
    :: hex b.
Proof. reflexivity. Qed.

Lemma hex_inj (a b : gostring) : hex a = hex b -> a = b.
Proof.
  revert b. induction a as [|c a IH]; intros [|d b] H;
    try reflexivity; try discriminate.
  rewrite !hex_cons in H.
  pose proof (nat_of_ascii_lt c) as Hc. pose proof (nat_of_ascii_lt d) as Hd.
  pose proof (Nat.div_mod_eq (nat_of_ascii c) 16) as Ec.
  pose proof (Nat.div_mod_eq (nat_of_ascii d) 16) as Ed.
  pose proof (Nat.mod_upper_bound (nat_of_ascii c) 16 ltac:(lia)) as Hmc.
  pose proof (Nat.mod_upper_bound (nat_of_ascii d) 16 ltac:(lia)) as Hmd.
  remember (nat_of_ascii c / 16)%nat as hc.
  remember (nat_of_ascii c mod 16)%nat as lc.
  remember (nat_of_ascii d / 16)%nat as hd.
  remember (nat_of_ascii d mod 16)%nat as ld.
  injection H as Hhi Hlo Hrest.
  apply hexDigit_inj in Hhi; [|lia..].
  apply hexDigit_inj in Hlo; [|lia..].
  assert (Hn : nat_of_ascii c = nat_of_ascii d) by lia.
  f_equal; [|exact (IH b Hrest)].
  rewrite <- (ascii_nat_embedding c), <- (ascii_nat_embedding d), Hn.
  reflexivity.
Qed.

(** X5.  The Hash of a chunk is lower-case hexadecimal, two digits for
    each byte of the digest, and two chunks have the same Hash exactly
    when their texts have the same digest: the encoding loses nothing. *)
Theorem createChunk_Hash :
  forall (Sum256 : gostring -> gostring)
         (text path model text' path' model' : gostring)
         (s e s' e' : Z),
    let c := createChunk Sum256 text path s e model in
    let c' := createChunk Sum256 text' path' s' e' model' in
    length (Chunk_Hash c) = (2 * length (Sum256 text))%nat /\
    Forall (fun x => In x (str "0123456789abcdef")) (Chunk_Hash c) /\
    (Chunk_Hash c = Chunk_Hash c' <-> Sum256 text = Sum256 text').
Proof.
  intros Sum256 text path model text' path' model' s e s' e' c c'.
  unfold c, c', createChunk. cbn [Chunk_Hash].
  split; [|split].
  - induction (Sum256 text) as [|x b IH]; [reflexivity|].
    rewrite hex_cons. cbn [length]. rewrite IH. lia.
  - induction (Sum256 text) as [|x b IH]; [constructor|].
    rewrite hex_cons. pose proof (nat_of_ascii_lt x) as Hx.
    constructor; [|constructor; [|exact IH]].
    + apply hexDigit_lower.
      pose proof (Nat.div_mod_eq (nat_of_ascii x) 16). lia.
    + apply hexDigit_lower. apply Nat.mod_upper_bound. lia.
  - split; [apply hex_inj|intros ->; reflexivity].
Qed.

(** ** extractPlainText and a path with a newline *)

Lemma first_newline (s : gostring) :
  In nl s -> exists a b, s = a ++ nl :: b /\ ~ In nl a.
Proof.
  induction s as [|c s IH]; intros H; [destruct H|].
  destruct (ascii_dec c nl) as [->|Hne].
  - exists [], s. split; [reflexivity|intros []].
  - destruct H as [H|H]; [congruence|].
    destruct (IH H) as (a & b & -> & Ha).
    exists (c :: a), b. split; [reflexivity|].
    intros [H'|H']; [congruence|exact (Ha H')].
Qed.

Lemma TrimPrefix_length (s p : gostring) :
  (length s - length p <= length (TrimPrefix s p))%nat.
Proof.
  unfold TrimPrefix. destruct (HasPrefix s p); [rewrite length_drop|]; lia.
Qed.

Lemma TrimSuffix_length (s x : gostring) :
  (length s - length x <= length (TrimSuffix s x))%nat.
Proof.
  unfold TrimSuffix. destruct (HasSuffix s x); [rewrite length_take|]; lia.
Qed.

(** X6.  When the path contains a newline, extractPlainText cuts the
    envelope at the wrong place: what it returns for a chunk of
    createChunk is strictly longer than the text that was hashed, so it is
    never that text. *)
Theorem extractPlainText_newline_path :
  forall (Sum256 : gostring -> gostring) (text path model : gostring)
         (s e : Z),
    In nl path ->
    (length text
     < length (extractPlainText
                 (Chunk_Text (createChunk Sum256 text path s e model))))%nat /\
    extractPlainText (Chunk_Text (createChunk Sum256 text path s e model))
    <> text.
Proof.
  intros Sum256 text path model s e Hin.
  assert (Hlen :
    (length text
     < length (extractPlainText
                 (Chunk_Text (createChunk Sum256 text path s e model))))%nat).
  { destruct (first_newline path Hin) as (p1 & p2 & -> & Hp1).
    unfold createChunk. cbn [Chunk_Text]. unfold markdownFilePrefix.
    set (tail := p2 ++ (str "`" ++ [nl] ++ str "```shell" ++ [nl])
                 ++ text ++ markdownFileSuffix).
    assert (E : (str "File: `" ++ (p1 ++ nl :: p2) ++ str "`" ++ [nl]
                 ++ str "```shell" ++ [nl]) ++ text ++ markdownFileSuffix
                = (str "File: `" ++ p1) ++ nl :: tail).
    { unfold tail. rewrite <- !app_assoc. reflexivity. }
    rewrite E. unfold extractPlainText. cbv zeta.
    assert (Hh : ~ In nl (str "File: `" ++ p1)).
    { rewrite in_app_iff. intros [H|H]; [|exact (Hp1 H)].
      vm_compute in H. intuition discriminate. }
    rewrite Index_first_newline by exact Hh.
    pose proof (len_nonneg (str "File: `" ++ p1)) as Hge.
    destruct (_ =? -1) eqn:E1; [lia|].
    replace (Z.to_nat (len (str "File: `" ++ p1) + 1))
      with (length ((str "File: `" ++ p1) ++ [nl])).
    2:{ rewrite length_app. unfold len. simpl. lia. }
    replace ((str "File: `" ++ p1) ++ nl :: tail)
      with (((str "File: `" ++ p1) ++ [nl]) ++ tail)
      by (rewrite <- app_assoc; reflexivity).
    rewrite drop_app_length.
    pose proof (TrimSuffix_length
                  (TrimPrefix tail (str "```shell" ++ [nl])) (str "```")).
    pose proof (TrimPrefix_length tail (str "```shell" ++ [nl])).
    assert (length tail = length p2 + 11 + length text + 3)%nat.
    { unfold tail. rewrite !length_app. simpl. lia. }
    change (length (str "```shell" ++ [nl])) with 9%nat in *.
    change (length (str "```")) with 3%nat in *.
    lia. }
  split; [exact Hlen|].
  intros Heq. rewrite Heq in Hlen. lia.
Qed.

Lemma extractPlainText_newline_path_witness :
  (length (str "x = 1")
   < length (extractPlainText
               (Chunk_Text
                  (createChunk toySum256 (str "x = 1")
                     (str "dir" ++ [nl] ++ str "a.py") 0 5 (str "m")))))%nat /\
  extractPlainText
    (Chunk_Text
       (createChunk toySum256 (str "x = 1")
          (str "dir" ++ [nl] ++ str "a.py") 0 5 (str "m")))
  <> str "x = 1".
Proof.
  apply (extractPlainText_newline_path toySum256 (str "x = 1")
           (str "dir" ++ [nl] ++ str "a.py") (str "m") 0 5).
  vm_compute. tauto.
Defined.


(** ** GenerateEmbeddings: what every run leaves behind *)

Section EmbeddingRuns.

Variable GetEmbeddings : list gostring -> error + EmbeddingResponse.

Local Abbreviation ans := (answer GetEmbeddings).
Local Abbreviation emb := (embedded GetEmbeddings).

Lemma first_failure_dec (chunks : list Chunk) :
(forall j c, chunks !! j = Some c -> exists embedding, ans c = inr embedding)
\/
(exists k ck e,
   (forall j c, (j < k)%nat -> chunks !! j = Some c ->
      exists embedding, ans c = inr embedding) /\
   chunks !! k = Some ck /\ ans ck = inl e).
Proof.
induction chunks as [|c chunks IH].
- left. intros j c H. rewrite lookup_nil in H. discriminate.
- destruct (ans c) as [e|embedding] eqn:Ec.
  + right. exists 0%nat, c, e. split; [intros j c' Hj; lia|].
    split; [reflexivity|exact Ec].
  + destruct IH as [Hall|(k & ck & e & Hbefore & Hk & He)].
    * left. intros [|j] c' Hc'.
      -- injection Hc' as <-. exists embedding. exact Ec.
      -- exact (Hall j c' Hc').
    * right. exists (S k), ck, e. split; [|split; [exact Hk|exact He]].
      intros [|j] c' Hj Hc'.
      -- injection Hc' as <-. exists embedding. exact Ec.
      -- apply (Hbefore j c'); [lia|exact Hc'].
Qed.

(** Every run of the goroutine pool ends in the same slice. *)
Lemma generateEmbeddingsParallel_result (chunks : list Chunk)
  (out : list Chunk * option error) :
generateEmbeddingsParallel GetEmbeddings chunks out ->
fst out = map emb chunks /\
(snd out = None <->
 forall j c, chunks !! j = Some c -> exists embedding, ans c = inr embedding)
/\
(forall err, snd out = Some err ->
   exists k ck e,
     err = ChunkError k e /\ chunks !! k = Some ck /\ ans ck = inl e).
Proof.
intros (s & Hs & Hm & Hc).
pose proof (parReachable_inv _ _ _ Hs) as HI.
destruct (par_final _ _ s (snd out) HI Hm) as (_ & Herr & Hlen & Hall).
split; [|split].
- rewrite <- Hc. apply list_eq. intros j. rewrite list_lookup_fmap.
  destruct (chunks !! j) as [c|] eqn:Ej.
  + exact (proj1 (Hall j c Ej)).
  + apply lookup_ge_None. apply lookup_ge_None in Ej. lia.
- split.
  + intros Hnone j c Hj. destruct (ans c) as [e|embedding] eqn:Ec.
    * destruct (Hall j c Hj) as [_ Hin]. specialize (Hin e Ec).
      rewrite Herr in Hnone.
      destruct (par_errChan s); [destruct Hin|discriminate].
    * exists embedding. reflexivity.
  + intros Hok. rewrite Herr.
    destruct (par_errChan s) as [|x errs] eqn:Ech; [reflexivity|].
    destruct (inv_errors _ _ _ HI x) as (k & e & ck & _ & Hk & He).
    { rewrite Ech. left. reflexivity. }
    destruct (Hok k ck Hk) as [embedding Hemb]. congruence.
- intros err Hsome. rewrite Herr in Hsome.
  destruct (par_errChan s) as [|x errs] eqn:Ech; [discriminate|].
  injection Hsome as <-.
  destruct (inv_errors _ _ _ HI x) as (k & e & ck & Hx & Hk & He).
  { rewrite Ech. left. reflexivity. }
  exists k, ck, e. split; [exact Hx|]. split; [exact Hk|exact He].
Qed.

Lemma generateEmbeddingsParallel_runs (chunks : list Chunk) :
exists out, generateEmbeddingsParallel GetEmbeddings chunks out.
Proof.
destruct (par_terminates GetEmbeddings chunks _ (parInit chunks)
            (parInit_inv GetEmbeddings chunks) (Nat.le_refl _))
  as (schedule & s & err & Hrun & Hm).
exists (par_chunks s, err), s.
split; [exists schedule; exact Hrun|]. split; [exact Hm|reflexivity].
Qed.

(** What the serial loop leaves: the chunks before the first failure are
  embedded, the others are as they were. *)
Lemma generateEmbeddingsSerial_result (chunks : list Chunk) :
exists k,
  fst (generateEmbeddingsSerial GetEmbeddings chunks)
  = map emb (take k chunks) ++ drop k chunks.
Proof.
destruct (first_failure_dec chunks) as [Hall|(k & ck & e & Hb & Hk & He)].
- exists (length chunks).
  rewrite (generateEmbeddingsSerial_all_ok GetEmbeddings chunks Hall).
  rewrite firstn_all, drop_all, app_nil_r. reflexivity.
- exists k.
  rewrite (generateEmbeddingsSerial_first_failure GetEmbeddings chunks k ck e
             Hb Hk He).
  reflexivity.
Qed.

End EmbeddingRuns.

(** X7.  When every upstream call succeeds, GenerateEmbeddings returns nil
    and gives every chunk the vector of its own extracted text, whatever
    the number of chunks: the serial loop and every schedule of the
    goroutine pool end in the same slice. *)
Theorem GenerateEmbeddings_all_ok :
  forall (GetEmbeddings : list gostring -> error + EmbeddingResponse)
         (chunks : list Chunk),
    (forall j c, chunks !! j = Some c ->
       exists embedding,
         GetEmbedding GetEmbeddings (extractPlainText (Chunk_Text c))
         = inr embedding) ->
    GenerateEmbeddings GetEmbeddings chunks
      (map (embedded GetEmbeddings) chunks, None) /\
    (forall out,
       GenerateEmbeddings GetEmbeddings chunks out ->
       out = (map (embedded GetEmbeddings) chunks, None)) /\
    (forall j c, chunks !! j = Some c ->
       exists embedding,
         GetEmbedding GetEmbeddings (extractPlainText (Chunk_Text c))
         = inr embedding /\
         map (embedded GetEmbeddings) chunks !! j
         = Some (setEmbedding embedding c)).
Proof.
  intros GetEmbeddings chunks Hok.
  assert (Huniq : forall out,
            GenerateEmbeddings GetEmbeddings chunks out ->
            out = (map (embedded GetEmbeddings) chunks, None)).
  { intros out Hrun. destruct Hrun as [H0|H1 H2|out H3 H4].
    - destruct chunks; [reflexivity|discriminate].
    - apply generateEmbeddingsSerial_all_ok. exact Hok.
    - destruct (generateEmbeddingsParallel_result _ _ _ H4) as (Hc & Hn & _).
      destruct out as [chunks' err]. simpl in *. subst chunks'.
      f_equal. apply Hn. exact Hok. }
  split; [|split; [exact Huniq|]].
  - destruct (decide (length chunks = 0%nat)) as [H0|Hne].
    + destruct chunks; [|discriminate]. constructor. reflexivity.
    + destruct (decide (length chunks <= 5)%nat) as [Hle|Hgt].
      * rewrite <- (generateEmbeddingsSerial_all_ok GetEmbeddings chunks Hok).
        constructor; assumption.
      * destruct (generateEmbeddingsParallel_runs GetEmbeddings chunks)
          as [out Hout].
        assert (Hrun : GenerateEmbeddings GetEmbeddings chunks out).
        { apply GenerateEmbeddings_parallel; [lia|exact Hout]. }
        rewrite <- (Huniq out Hrun). exact Hrun.
  - intros j c Hj. destruct (Hok j c Hj) as [embedding Hemb].
    exists embedding. split; [exact Hemb|].
    rewrite list_lookup_fmap, Hj. simpl.
    rewrite (embedded_inr GetEmbeddings c embedding Hemb). reflexivity.
Qed.

Lemma GenerateEmbeddings_all_ok_witness :
  GenerateEmbeddings stubGetEmbeddings (chunksOfLines ["aa"; "bb"])
    (map (embedded stubGetEmbeddings) (chunksOfLines ["aa"; "bb"]), None) /\
  map (fun c => Embedding_Embedding (Chunk_Embedding c))
    (map (embedded stubGetEmbeddings) (chunksOfLines ["aa"; "bb"]))
  = [[3]; [3]].
Proof.
  split; [|vm_compute; reflexivity].
  apply (GenerateEmbeddings_all_ok stubGetEmbeddings
           (chunksOfLines ["aa"; "bb"])).
  intros j c Hj.
  destruct j as [|[|j]]; vm_compute in Hj; try discriminate;
    injection Hj as <-; eexists; vm_compute; reflexivity.
Defined.

(** X8.  With more than five chunks the result does not depend on the
    schedule: every run leaves each chunk with the vector of its own text
    when its call succeeded and untouched when it failed, returns nil
    exactly when no call failed, and otherwise returns the error of one of
    the failing chunks, wrapped with its index. *)
Theorem GenerateEmbeddings_parallel_result :
  forall (GetEmbeddings : list gostring -> error + EmbeddingResponse)
         (chunks chunks' : list Chunk) (err : option error),
    (5 < length chunks)%nat ->
    GenerateEmbeddings GetEmbeddings chunks (chunks', err) ->
    chunks' = map (embedded GetEmbeddings) chunks /\
    (err = None <->
     forall j c, chunks !! j = Some c ->
       exists embedding,
         GetEmbedding GetEmbeddings (extractPlainText (Chunk_Text c))
         = inr embedding) /\
    (forall x, err = Some x ->
       exists k ck e,
         x = ChunkError k e /\ chunks !! k = Some ck /\
         GetEmbedding GetEmbeddings (extractPlainText (Chunk_Text ck))
         = inl e).
Proof.
  intros GetEmbeddings chunks chunks' err Hlen Hrun.
  apply GenerateEmbeddings_large in Hrun; [|exact Hlen].
  exact (generateEmbeddingsParallel_result GetEmbeddings chunks
           (chunks', err) Hrun).
Qed.

Lemma GenerateEmbeddings_parallel_result_witness :
  exists chunks' err,
    GenerateEmbeddings stubGetEmbeddings sixChunks (chunks', err) /\
    chunks' = map (embedded stubGetEmbeddings) sixChunks /\
    map (fun c => Embedding_Embedding (Chunk_Embedding c)) chunks'
    = [[3]; [3]; []; [3]; [3]; [3]].
Proof.
  assert (Hrun : exists chunks' err,
            GenerateEmbeddings stubGetEmbeddings sixChunks (chunks', err)).
  { destruct (generateEmbeddingsParallel_runs stubGetEmbeddings sixChunks)
      as [[chunks' err] Hout].
    exists chunks', err. apply GenerateEmbeddings_parallel; [|exact Hout].
    vm_compute. lia. }
  destruct Hrun as (chunks' & err & Hrun).
  destruct (GenerateEmbeddings_parallel_result stubGetEmbeddings sixChunks
              chunks' err) as (Hc & _ & _).
  - vm_compute. lia.
  - exact Hrun.
  - exists chunks', err. split; [exact Hrun|]. split; [exact Hc|].
    rewrite Hc. vm_compute. reflexivity.
Defined.

(** X9.  The pool never has more than ten goroutines between their
    [semaphore <- struct{}{}] and their deferred [<-semaphore], in any
    state that any schedule reaches, for any number of chunks. *)
Theorem generateEmbeddingsParallel_bounded :
  forall (GetEmbeddings : list gostring -> error + EmbeddingResponse)
         (chunks : list Chunk) (s : parState),
    parReachable GetEmbeddings chunks s ->
    (permits (par_workers s) <= 10)%nat /\
    par_semaphore s = permits (par_workers s).
Proof.
  intros GetEmbeddings chunks s Hs.
  pose proof (parReachable_inv _ _ _ Hs) as HI.
  pose proof (inv_bound _ _ _ HI) as Hb.
  pose proof (inv_permits _ _ _ HI) as Hp.
  unfold semaphoreCapacity in Hb. split; [lia|exact Hp].
Qed.

Lemma generateEmbeddingsParallel_bounded_witness :
  exists s,
    parExec stubGetEmbeddings
      [Spawn; Spawn; Spawn; Acquire 0; Acquire 2; Call 0]
      (parInit sixChunks) = Some s /\
    permits (par_workers s) = 2%nat /\
    (permits (par_workers s) <= 10)%nat /\
    par_semaphore s = permits (par_workers s).
Proof.
  assert (Hrun : exists s,
            parExec stubGetEmbeddings
              [Spawn; Spawn; Spawn; Acquire 0; Acquire 2; Call 0]
              (parInit sixChunks) = Some s).
  { eexists. vm_compute. reflexivity. }
  destruct Hrun as [s Hrun]. exists s. split; [exact Hrun|].
  split.
  - vm_compute in Hrun. injection Hrun as <-. reflexivity.
  - apply (generateEmbeddingsParallel_bounded stubGetEmbeddings sixChunks s).
    exists [Spawn; Spawn; Spawn; Acquire 0; Acquire 2; Call 0]. exact Hrun.
Defined.

(** X10.  GenerateEmbeddings only ever writes a vector: after any run the
    slice has the same length, and the chunk at each index has the hash,
    the text, both ranges and the model name it had before; its vector is
    either the one it had or the upstream result for its own extracted
    text. *)
Theorem GenerateEmbeddings_only_vectors :
  forall (GetEmbeddings : list gostring -> error + EmbeddingResponse)
         (chunks chunks' : list Chunk) (err : option error),
    GenerateEmbeddings GetEmbeddings chunks (chunks', err) ->
    length chunks' = length chunks /\
    forall j c, chunks !! j = Some c ->
      exists c',
        chunks' !! j = Some c' /\
        Chunk_Hash c' = Chunk_Hash c /\
        Chunk_Text c' = Chunk_Text c /\
        Chunk_Range c' = Chunk_Range c /\
        Chunk_LineRange c' = Chunk_LineRange c /\
        Embedding_Model (Chunk_Embedding c')
        = Embedding_Model (Chunk_Embedding c) /\
        (Embedding_Embedding (Chunk_Embedding c')
         = Embedding_Embedding (Chunk_Embedding c) \/
         GetEmbedding GetEmbeddings (extractPlainText (Chunk_Text c))
         = inr (Embedding_Embedding (Chunk_Embedding c'))).
Proof.
  intros GetEmbeddings chunks chunks' err Hrun.
  assert (Hsame : forall c c',
            c' = c \/
            (exists embedding,
               GetEmbedding GetEmbeddings (extractPlainText (Chunk_Text c))
               = inr embedding /\
               c' = setEmbedding embedding c) ->
            Chunk_Hash c' = Chunk_Hash c /\
            Chunk_Text c' = Chunk_Text c /\
            Chunk_Range c' = Chunk_Range c /\
            Chunk_LineRange c' = Chunk_LineRange c /\
            Embedding_Model (Chunk_Embedding c')
            = Embedding_Model (Chunk_Embedding c) /\
            (Embedding_Embedding (Chunk_Embedding c')
             = Embedding_Embedding (Chunk_Embedding c) \/
             GetEmbedding GetEmbeddings (extractPlainText (Chunk_Text c))
             = inr (Embedding_Embedding (Chunk_Embedding c')))).
  { intros c c' [->|(embedding & He & ->)].
    - repeat split. left. reflexivity.
    - destruct (setEmbedding_fields embedding c)
        as (Hv & Hh & Ht & Hr & Hl & Hm).
      repeat split; try assumption. right. rewrite Hv. exact He. }
  assert (Hemb : forall c,
            embedded GetEmbeddings c = c \/
            exists embedding,
              GetEmbedding GetEmbeddings (extractPlainText (Chunk_Text c))
              = inr embedding /\
              embedded GetEmbeddings c = setEmbedding embedding c).
  { intros c. unfold embedded, answer.
    destruct (GetEmbedding _ _) as [e|embedding]; [left; reflexivity|].
    right. exists embedding. split; reflexivity. }
  assert (Hprefix : forall k,
            chunks' = map (embedded GetEmbeddings) (take k chunks)
                      ++ drop k chunks ->
            length chunks' = length chunks /\
            forall j c, chunks !! j = Some c ->
              exists c',
                chunks' !! j = Some c' /\
                (c' = c \/
                 exists embedding,
                   GetEmbedding GetEmbeddings
                     (extractPlainText (Chunk_Text c))
                   = inr embedding /\
                   c' = setEmbedding embedding c)).
  { intros k ->. split.
    - rewrite length_app, length_map, length_take, length_drop. lia.
    - intros j c Hj.
      assert (Hlen : length (map (embedded GetEmbeddings) (take k chunks))
                     = Nat.min k (length chunks)).
      { rewrite length_map, length_take. reflexivity. }
      pose proof (lookup_lt_Some _ _ _ Hj) as Hjl.
      destruct (decide (j < k)%nat) as [Hlt|Hge].
      + exists (embedded GetEmbeddings c). split; [|exact (Hemb c)].
        rewrite lookup_app_l by lia.
        rewrite list_lookup_fmap, lookup_take_lt by exact Hlt.
        rewrite Hj. reflexivity.
      + exists c. split; [|left; reflexivity].
        rewrite lookup_app_r by lia.
        rewrite Hlen, lookup_drop, <- Hj. f_equal. lia. }
  assert (Hmain : length chunks' = length chunks /\
            forall j c, chunks !! j = Some c ->
              exists c',
                chunks' !! j = Some c' /\
                (c' = c \/
                 exists embedding,
                   GetEmbedding GetEmbeddings
                     (extractPlainText (Chunk_Text c))
                   = inr embedding /\
                   c' = setEmbedding embedding c)).
  { remember (chunks', err) as out eqn:Eout.
    destruct Hrun as [H0|H1 H2|out H3 H4].
    - injection Eout as Hc He. subst chunks'.
      split; [reflexivity|]. intros j c Hj. exists c.
      split; [exact Hj|left; reflexivity].
    - destruct (generateEmbeddingsSerial_result GetEmbeddings chunks)
        as [k Hk].
      rewrite Eout in Hk. simpl in Hk. exact (Hprefix k Hk).
    - destruct (generateEmbeddingsParallel_result _ _ _ H4) as (Hc & _ & _).
      subst out. simpl in Hc. apply (Hprefix (length chunks)).
      rewrite firstn_all, drop_all, app_nil_r. exact Hc. }
  destruct Hmain as [Hlen Hall]. split; [exact Hlen|].
  intros j c Hj. destruct (Hall j c Hj) as (c' & Hc' & Hcase).
  exists c'. split; [exact Hc'|]. exact (Hsame c c' Hcase).
Qed.

Lemma GenerateEmbeddings_only_vectors_witness :
  exists chunks' err,
    GenerateEmbeddings stubGetEmbeddings threeChunks (chunks', err) /\
    length chunks' = length threeChunks /\
    map Chunk_Hash chunks' = map Chunk_Hash threeChunks /\
    map Chunk_Text chunks' = map Chunk_Text threeChunks /\
    map Chunk_Range chunks' = map Chunk_Range threeChunks /\
    map Chunk_LineRange chunks' = map Chunk_LineRange threeChunks /\
    map (fun c => Embedding_Model (Chunk_Embedding c)) chunks'
    = map (fun c => Embedding_Model (Chunk_Embedding c)) threeChunks /\
    vectors threeChunks = [[]; []; []] /\
    vectors chunks' = [[3]; []; []].
Proof.
  assert (Hrun : GenerateEmbeddings stubGetEmbeddings threeChunks
                   (generateEmbeddingsSerial stubGetEmbeddings threeChunks)).
  { constructor; vm_compute; [discriminate|lia]. }
  destruct (generateEmbeddingsSerial stubGetEmbeddings threeChunks)
    as [chunks' err] eqn:E.
  destruct (GenerateEmbeddings_only_vectors stubGetEmbeddings threeChunks
              chunks' err Hrun) as [Hlen _].
  exists chunks', err. split; [exact Hrun|]. split; [exact Hlen|].
  vm_compute in E. injection E as <- <-. repeat split.
Defined.


(** ** ChatCompletions: what is forwarded *)

Lemma rewriteLimits_other (env : Env) (body : JSON) (k : gostring) :
  atoui k = None -> ~ In k strippedKeys ->
  k <> str "max_tokens" -> k <> str "n" ->
  getPart (rewriteLimits env body) k = getPart body k.
Proof.
  intros Hk Hin Hm Hn.
  destruct (rewriteLimits_stages env body)
    as (stripped & clamped & Hs & Hclamped & ->).
  assert (Hc : getPart clamped k = getPart body k).
  { rewrite Hclamped. cbv zeta. destruct (_ >? _).
    - rewrite getPart_SetBytes_ne by assumption. apply Hs; assumption.
    - apply Hs; assumption. }
  destruct (_ >? 1); [rewrite getPart_SetBytes_ne by assumption|]; exact Hc.
Qed.

(** The model name, the upstream URL and the key that ChatCompletions
    selects, and the body it forwards. *)
Lemma ChatCompletions_target (Raw : JSON -> gostring) (env : Env)
    (userAgent url key : gostring) (body body' : JSON) :
  ChatCompletions Raw env userAgent body = Forward url key body' ->
  let lightweight :=
    Contains (Result_String Raw (GetBytes body [str "model"]))
      (Getenv env "LIGHTWEIGHT_MODEL") in
  let model :=
    if lightweight then Getenv env "CODEX_API_MODEL_NAME"
    else Getenv env "CHAT_API_MODEL_NAME" in
  let tagged :=
    SetBytes (SetBytes body [str "model"] (JString model)) [str "stream"]
      JTrue in
  exists normalized,
    body' = rewriteLimits env normalized /\
    ((getPart body (str "function_call") <> None /\ normalized = tagged) \/
     (getPart body (str "function_call") = None /\
      normalizeMessages Raw env tagged = Returns normalized)).
Proof.
  intros H. cbv zeta. unfold ChatCompletions in H. cbv zeta in H.
  set (model := if Contains (Result_String Raw (GetBytes body [str "model"]))
                     (Getenv env "LIGHTWEIGHT_MODEL")
                then Getenv env "CODEX_API_MODEL_NAME"
                else Getenv env "CHAT_API_MODEL_NAME") in *.
  set (tagged := SetBytes (SetBytes body [str "model"] (JString model))
                   [str "stream"] JTrue) in *.
  rewrite GetBytes_key in H.
  assert (Hfc : getPart tagged (str "function_call")
                = getPart body (str "function_call")).
  { unfold tagged. rewrite !getPart_SetBytes_ne by key. reflexivity. }
  rewrite Hfc in H.
  destruct (getPart body (str "function_call")) as [fc|] eqn:E;
    cbn [Result_Exists negb] in H.
  - apply dispatch_Forward in H.
    exists tagged. split; [exact H|]. left. split; [discriminate|reflexivity].
  - destruct (normalizeMessages Raw env tagged) as [p|normalized] eqn:En;
      [discriminate|].
    apply dispatch_Forward in H.
    exists normalized. split; [exact H|]. right. split; reflexivity.
Qed.

(** The paths that the handler writes or deletes all start with a fixed
    key, which is neither a decimal index nor "-1".  Such a write leaves
    every other top-level part alone, whatever the document is: in an
    object it touches one member, and on an array sjson reports an error,
    which the handler discards together with the change. *)
Lemma getPart_SetBytes_frame (j : JSON) (p : gostring) (rest : list gostring)
    (v : JSON) (k : gostring) :
  atoui p = None -> p <> str "-1" -> k <> p ->
  getPart (SetBytes j (p :: rest) v) k = getPart j k.
Proof.
  intros Hp Hminus Hne. unfold SetBytes. cbn [sjsonSet].
  destruct (getPart j p) as [child|] eqn:Ep.
  - destruct (getPart_key_object j child p Hp Ep) as (ms & -> & _).
    assert (Hrep : forall x,
              getPart (replacePart (JObject ms) p x) k
              = getPart (JObject ms) k).
    { intros x. unfold replacePart, getPart.
      apply findMember_replace_ne. exact Hne. }
    destruct rest as [|r rest]; [apply Hrep|].
    destruct (sjsonSet child (r :: rest) v); [apply Hrep|reflexivity].
  - assert (Hpk : eqs p k = false) by (apply eqs_false; congruence).
    assert (Hm : eqs p (str "-1") = false) by (apply eqs_false; exact Hminus).
    destruct j; rewrite ?Hp, ?Hm; try reflexivity;
      try (unfold getPart, findMember; rewrite Hpk; reflexivity).
    unfold getPart. rewrite findMember_app, Hpk.
    destruct (findMember members k); reflexivity.
Qed.

Lemma DeleteBytes_last (j : JSON) (p : gostring) :
  DeleteBytes j [p]
  = match getPart j p with
    | Some _ => removePart j p
    | None => j
    end.
Proof. reflexivity. Qed.

Lemma DeleteBytes_below (j : JSON) (p r : gostring) (rest : list gostring) :
  DeleteBytes j (p :: r :: rest)
  = match getPart j p with
    | Some child => replacePart j p (DeleteBytes child (r :: rest))
    | None => j
    end.
Proof. reflexivity. Qed.

Lemma getPart_DeleteBytes_frame (j : JSON) (p : gostring)
    (rest : list gostring) (k : gostring) :
  atoui p = None -> k <> p ->
  getPart (DeleteBytes j (p :: rest)) k = getPart j k.
Proof.
  intros Hp Hne.
  destruct rest as [|r rest];
    rewrite ?DeleteBytes_last, ?DeleteBytes_below;
    (destruct (getPart j p) as [child|] eqn:Ep; [|reflexivity]);
    destruct (getPart_key_object j child p Hp Ep) as (ms & -> & _).
  - unfold removePart, getPart. apply findMember_remove_ne. exact Hne.
  - unfold replacePart, getPart. apply findMember_replace_ne. exact Hne.
Qed.

Lemma getPart_stripToolCalls_frame (messages : list JSON) (i : nat)
    (body : JSON) (k : gostring) :
  k <> str "messages" ->
  getPart (stripToolCalls i messages body) k = getPart body k.
Proof.
  intros Hne. revert i body.
  induction messages as [|msg rest IH]; intros i body; simpl; [reflexivity|].
  rewrite IH. destruct (_ =? 0); [|reflexivity].
  apply getPart_DeleteBytes_frame; [reflexivity|exact Hne].
Qed.

Lemma getPart_normalizeMessages_frame (Raw : JSON -> gostring) (env : Env)
    (body body' : JSON) (k : gostring) :
  k <> str "messages" ->
  normalizeMessages Raw env body = Returns body' ->
  getPart body' k = getPart body k.
Proof.
  intros Hne. unfold normalizeMessages.
  destruct (eqs (Getenv env "CHAT_LOCALE") []).
  - intros H. injection H as <-.
    apply getPart_stripToolCalls_frame. exact Hne.
  - destruct (last _); [|discriminate].
    destruct (negb _); intros H; injection H as <-.
    + rewrite getPart_SetBytes_frame by key.
      apply getPart_stripToolCalls_frame. exact Hne.
    + apply getPart_stripToolCalls_frame. exact Hne.
Qed.

Lemma getPart_defaultToolParameters_frame (fuel i : nat) (body : JSON)
    (k : gostring) :
  k <> str "tools" ->
  getPart (defaultToolParameters fuel i body) k = getPart body k.
Proof.
  intros Hne. revert i body.
  induction fuel as [|fuel IH]; intros i body; simpl; [reflexivity|].
  destruct (_ <? _); [|reflexivity].
  rewrite IH.
  do 2 (destruct (negb _); [reflexivity|]).
  destruct (negb _); [|reflexivity].
  apply getPart_SetBytes_frame; key.
Qed.

Lemma rewriteLimits_frame (env : Env) (body : JSON) (k : gostring) :
  ~ In k strippedKeys -> k <> str "max_tokens" -> k <> str "n" ->
  getPart (rewriteLimits env body) k = getPart body k.
Proof.
  intros Hin Hm Hn.
  assert (Hne : forall s, In (str s) strippedKeys -> k <> str s).
  { intros s Hs ->. exact (Hin Hs). }
  assert (H1 : getPart (stripIntent body) k = getPart body k).
  { unfold stripIntent.
    rewrite !getPart_DeleteBytes_frame; try reflexivity;
      apply Hne; vm_compute; tauto. }
  assert (H2 : getPart (stripTools (stripIntent body)) k = getPart body k).
  { unfold stripTools.
    rewrite !getPart_DeleteBytes_frame; try exact H1; try reflexivity;
      apply Hne; vm_compute; tauto. }
  assert (Htools : k <> str "tools") by (apply Hne; vm_compute; tauto).
  unfold rewriteLimits. cbv zeta.
  destruct (_ >? 1); [rewrite getPart_SetBytes_frame by key|];
    (destruct (_ >? _); [rewrite getPart_SetBytes_frame by key|]);
    destruct (negb (ParseBool (Getenv env "CHAT_USE_TOOLS")));
    destruct (Result_Exists _);
    rewrite ?getPart_defaultToolParameters_frame by assumption;
    assumption.
Qed.

(** X11.  A top-level member that the rewrite rules do not name is
    forwarded as it came: for every key other than model, stream,
    messages, max_tokens, n and the stripped keys, whatever its spelling
    (the empty key and keys made of digits included), the forwarded body
    has the same value, or the same absence, at every path below that
    key. *)
Theorem ChatCompletions_passes_unknown_fields :
  forall (Raw : JSON -> gostring) (env : Env)
         (userAgent url key : gostring) (body body' : JSON)
         (k : gostring) (rest : list gostring),
    ChatCompletions Raw env userAgent body = Forward url key body' ->
    ~ In k (map str ["model"; "stream"; "messages"; "max_tokens"; "n"]) ->
    ~ In k strippedKeys ->
    GetBytes body' (k :: rest) = GetBytes body (k :: rest).
Proof.
  intros Raw env userAgent url key body body' k rest H Hnamed Hstripped.
  assert (Hne : forall s, In s ["model"; "stream"; "messages";
                                "max_tokens"; "n"] -> k <> str s).
  { intros s Hs ->. apply Hnamed. apply in_map. exact Hs. }
  assert (Hmodel : k <> str "model") by (apply Hne; simpl; tauto).
  assert (Hstream : k <> str "stream") by (apply Hne; simpl; tauto).
  assert (Hmessages : k <> str "messages") by (apply Hne; simpl; tauto).
  apply ChatCompletions_Forward in H as (model & normalized & -> & Hn).
  assert (Hpart : getPart (rewriteLimits env normalized) k = getPart body k).
  { rewrite rewriteLimits_frame;
      [|assumption|apply Hne; simpl; tauto..].
    cbv zeta in Hn. destruct Hn as [[_ ->]|[_ Hn]].
    - rewrite !getPart_SetBytes_frame by key. reflexivity.
    - rewrite (getPart_normalizeMessages_frame Raw env _ normalized k
                 Hmessages Hn).
      rewrite !getPart_SetBytes_frame by key. reflexivity. }
  change (match getPart (rewriteLimits env normalized) k with
          | Some child => GetBytes child rest
          | None => None
          end
          = match getPart body k with
            | Some child => GetBytes child rest
            | None => None
            end).
  rewrite Hpart. reflexivity.
Qed.

Lemma ChatCompletions_passes_unknown_fields_witness :
  exists url key body',
    ChatCompletions compactRaw chatEnv (str "GitHubCopilotChat/0.22")
      (JObject [member "messages" (JArray [message "user" "Hi"]);
                member "temperature" (JNumber 1);
                member "2024" (JString (str "year"));
                member "metadata"
                  (JObject [member "tag" (JString (str "x"))])])
    = Forward url key body' /\
    GetBytes body' [str "metadata"; str "tag"] = Some (JString (str "x")) /\
    GetBytes body' [str "2024"] = Some (JString (str "year")) /\
    GetBytes body' [[]] = None.
Proof.
  assert (Hrun : exists url key body',
            ChatCompletions compactRaw chatEnv (str "GitHubCopilotChat/0.22")
              (JObject [member "messages" (JArray [message "user" "Hi"]);
                        member "temperature" (JNumber 1);
                        member "2024" (JString (str "year"));
                        member "metadata"
                          (JObject [member "tag" (JString (str "x"))])])
            = Forward url key body').
  { do 3 eexists. vm_compute. reflexivity. }
  destruct Hrun as (url & key & body' & Hrun).
  exists url, key, body'. split; [exact Hrun|].
  pose proof (fun k rest =>
                ChatCompletions_passes_unknown_fields compactRaw chatEnv
                  (str "GitHubCopilotChat/0.22") url key _ body' k rest Hrun)
    as Hpass.
  split; [|split].
  - rewrite (Hpass (str "metadata") [str "tag"]);
      [reflexivity|vm_compute; intuition discriminate..].
  - rewrite (Hpass (str "2024") []);
      [reflexivity|vm_compute; intuition discriminate..].
  - rewrite (Hpass [] []);
      [reflexivity|vm_compute; intuition discriminate..].
Defined.

(** X12.  For a request that is a JSON object, the forwarded body has
    stream set to true and model set to the configured model name (that
    of the code-completion upstream when the requested model contains the
    LIGHTWEIGHT_MODEL marker), whatever the request asked for. *)
Theorem ChatCompletions_forces_stream_and_model :
  forall (Raw : JSON -> gostring) (env : Env)
         (userAgent url key : gostring)
         (members : list (gostring * JSON)) (body' : JSON),
    ChatCompletions Raw env userAgent (JObject members)
    = Forward url key body' ->
    GetBytes body' [str "stream"] = Some JTrue /\
    GetBytes body' [str "model"]
    = Some (JString
              (if Contains
                    (Result_String Raw (findMember members (str "model")))
                    (Getenv env "LIGHTWEIGHT_MODEL")
               then Getenv env "CODEX_API_MODEL_NAME"
               else Getenv env "CHAT_API_MODEL_NAME")).
Proof.
  intros Raw env userAgent url key members body' H.
  apply ChatCompletions_target in H. cbv zeta in H.
  rewrite GetBytes_key in H.
  change (getPart (JObject members) (str "model"))
    with (findMember members (str "model")) in H.
  set (model := if Contains _ _ then _ else _) in *.
  destruct H as (normalized & -> & Hn).
  destruct (getPart_SetBytes_object members (str "model") (JString model))
    as (ms1 & E1 & Hm1 & _).
  destruct (getPart_SetBytes_object ms1 (str "stream") JTrue)
    as (ms2 & E2 & Hs2 & Ho2).
  rewrite E1, E2 in Hn.
  assert (Hmodel : findMember ms2 (str "model") = Some (JString model)).
  { rewrite Ho2 by key. exact Hm1. }
  assert (Hkeep : forall k, atoui k = None -> k <> str "messages" ->
            getPart normalized k = findMember ms2 k).
  { intros k Hk Hne. destruct Hn as [[_ ->]|[_ Hn]]; [reflexivity|].
    exact (getPart_normalizeMessages Raw env _ _ k Hk Hne Hn). }
  rewrite !GetBytes_key.
  rewrite !rewriteLimits_other by key.
  rewrite !Hkeep by key. split; assumption.
Qed.

Lemma ChatCompletions_forces_stream_and_model_witness :
  exists url key body',
    ChatCompletions compactRaw chatEnv (str "GitHubCopilotChat/0.22")
      (JObject [member "model" (JString (str "gpt-4"));
                member "stream" JFalse;
                member "messages" (JArray [message "user" "Hi"])])
    = Forward url key body' /\
    GetBytes body' [str "stream"] = Some JTrue /\
    GetBytes body' [str "model"] = Some (JString (str "gpt-4o")).
Proof.
  assert (Hrun : exists url key body',
            ChatCompletions compactRaw chatEnv (str "GitHubCopilotChat/0.22")
              (JObject [member "model" (JString (str "gpt-4"));
                        member "stream" JFalse;
                        member "messages" (JArray [message "user" "Hi"])])
            = Forward url key body').
  { do 3 eexists. vm_compute. reflexivity. }
  destruct Hrun as (url & key & body' & Hrun).
  exists url, key, body'. split; [exact Hrun|].
  exact (ChatCompletions_forces_stream_and_model compactRaw chatEnv
           (str "GitHubCopilotChat/0.22") url key _ body' Hrun).
Defined.

(** The two clamping steps, read on the inbound body. *)
Lemma ChatCompletions_limit_steps (Raw : JSON -> gostring) (env : Env)
    (userAgent url key : gostring) (body body' : JSON) :
  ChatCompletions Raw env userAgent body = Forward url key body' ->
  let ceiling := AtoiValue (Getenv env "CHAT_MAX_TOKENS") in
  exists stripped clamped,
    getPart stripped (str "max_tokens") = getPart body (str "max_tokens") /\
    getPart clamped (str "n") = getPart body (str "n") /\
    clamped
    = (if Result_Int (getPart body (str "max_tokens")) >? ceiling
       then SetBytes stripped [str "max_tokens"] (JNumber ceiling)
       else stripped) /\
    body'
    = (if Result_Int (getPart body (str "n")) >? 1
       then SetBytes clamped [str "n"] (JNumber 1)
       else clamped).
Proof.
  intros H ceiling.
  apply ChatCompletions_Forward in H as (model & normalized & -> & Hn).
  pose proof (ChatCompletions_limits_in Raw env model body normalized
                (str "n") ltac:(key) ltac:(key) ltac:(key) ltac:(key) Hn)
    as Hkeep_n.
  pose proof (ChatCompletions_limits_in Raw env model body normalized
                (str "max_tokens") ltac:(key) ltac:(key) ltac:(key)
                ltac:(key) Hn)
    as Hkeep_m.
  destruct (rewriteLimits_stages env normalized)
    as (stripped & clamped & Hs & Hclamped & ->).
  pose proof (Hs (str "n") ltac:(key) ltac:(key)) as Hs_n.
  pose proof (Hs (str "max_tokens") ltac:(key) ltac:(key)) as Hs_m.
  cbv zeta in Hclamped. fold ceiling in Hclamped.
  rewrite Hs_m, Hkeep_m in Hclamped.
  assert (Hc : getPart clamped (str "n") = getPart body (str "n")).
  { rewrite Hclamped. destruct (_ >? _).
    - rewrite getPart_SetBytes_ne by key. congruence.
    - congruence. }
  exists stripped, clamped.
  split; [congruence|]. split; [exact Hc|]. split; [exact Hclamped|].
  rewrite Hc. reflexivity.
Qed.

(** What strconv.Atoi returns next to its error. *)
Lemma ParseInt_error_value (s : gostring) :
  match ParseInt s with
  | (v, Some ErrSyntax) => v = 0
  | (v, Some ErrRange) => v = MaxInt64 \/ v = MinInt64
  | (v, None) => MinInt64 <= v <= MaxInt64
  end.
Proof.
  destruct (ParseInt s) as [v [[|]|]] eqn:E.
  - unfold ParseInt in E. destruct s as [|c r]; [congruence|].
    destruct (if Ascii.eqb c "+" then _ else _) as [neg ds].
    destruct ds as [|d0 ds0]; [congruence|].
    destruct (ParseUint 0 (d0 :: ds0)) as [[|]|un]; [congruence| |].
    + destruct neg; discriminate.
    + destruct (negb neg && _); [discriminate|].
      destruct (neg && _); discriminate.
  - unfold ParseInt in E. destruct s as [|c r]; [discriminate|].
    destruct (if Ascii.eqb c "+" then _ else _) as [neg ds].
    destruct ds as [|d0 ds0]; [discriminate|].
    destruct (ParseUint 0 (d0 :: ds0)) as [[|]|un]; [discriminate| |].
    + destruct neg; injection E as <-; auto.
    + destruct (negb neg && _); [injection E as <-; auto|].
      destruct (neg && _); [injection E as <-; auto|discriminate].
  - apply Atoi_ParseInt in E. apply Atoi_range in E. exact (proj2 E).
Qed.

Lemma wrap64_range (z : Z) : MinInt64 <= wrap64 z <= MaxInt64.
Proof.
  unfold wrap64, MinInt64, MaxInt64.
  pose proof (Z.mod_pos_bound (z + 2 ^ 63) (2 ^ 64) ltac:(lia)). lia.
Qed.

(** gjson's Int() yields an int64. *)
Lemma Result_Int_range (r : option JSON) :
  MinInt64 <= Result_Int r <= MaxInt64.
Proof.
  assert (H0 : MinInt64 <= 0 <= MaxInt64) by (unfold MinInt64, MaxInt64; lia).
  assert (H1 : MinInt64 <= 1 <= MaxInt64) by (unfold MinInt64, MaxInt64; lia).
  destruct r as [[| | |z|s| |]|]; cbn [Result_Int]; try assumption.
  - apply wrap64_range.
  - unfold gjsonParseInt. destruct s as [|c r]; [assumption|].
    destruct (if Ascii.eqb c "-" then _ else _) as [neg ds].
    destruct ds as [|d0 ds0]; [assumption|].
    destruct (parseDigits 0 (d0 :: ds0)); [apply wrap64_range|assumption].
Qed.

(** X13.  Limits that are not exceeded are not touched: when the inbound
    n is at most 1 the forwarded n is the inbound one, and when the
    inbound max_tokens is at most the ceiling the forwarded max_tokens is
    the inbound one.  The ceiling is the int that strconv.Atoi returns for
    CHAT_MAX_TOKENS, its error being discarded: the value parsed when
    there is no error, 0 on a syntax error, MaxInt64 or MinInt64 on a
    range error; so a CHAT_MAX_TOKENS above the range of int64 clamps
    nothing. *)
Theorem ChatCompletions_keeps_limits :
  forall (Raw : JSON -> gostring) (env : Env)
         (userAgent url key : gostring) (body body' : JSON),
    ChatCompletions Raw env userAgent body = Forward url key body' ->
    (Result_Int (GetBytes body [str "n"]) <= 1 ->
     GetBytes body' [str "n"] = GetBytes body [str "n"]) /\
    (forall ceiling err,
       ParseInt (Getenv env "CHAT_MAX_TOKENS") = (ceiling, err) ->
       Result_Int (GetBytes body [str "max_tokens"]) <= ceiling ->
       GetBytes body' [str "max_tokens"] = GetBytes body [str "max_tokens"]) /\
    (forall ceiling,
       ParseInt (Getenv env "CHAT_MAX_TOKENS") = (ceiling, Some ErrRange) ->
       0 < ceiling ->
       GetBytes body' [str "max_tokens"] = GetBytes body [str "max_tokens"]).
Proof.
  intros Raw env userAgent url key body body' H.
  apply ChatCompletions_limit_steps in H. cbv zeta in H.
  destruct H as (stripped & clamped & Hm & Hn & Hclamped & ->).
  rewrite !GetBytes_key.
  assert (Hkeep : forall ceiling err,
            ParseInt (Getenv env "CHAT_MAX_TOKENS") = (ceiling, err) ->
            Result_Int (getPart body (str "max_tokens")) <= ceiling ->
            getPart
              (if Result_Int (getPart body (str "n")) >? 1
               then SetBytes clamped [str "n"] (JNumber 1)
               else clamped) (str "max_tokens")
            = getPart body (str "max_tokens")).
  { intros ceiling err Hceil Hle. rewrite Hclamped.
    unfold AtoiValue. rewrite Hceil. cbn [fst].
    destruct (_ >? ceiling) eqn:E; [lia|].
    destruct (_ >? 1); [rewrite getPart_SetBytes_ne by key|]; exact Hm. }
  split; [|split].
  - intros Hle. destruct (_ >? 1) eqn:E; [lia|]. exact Hn.
  - exact Hkeep.
  - intros ceiling Hceil Hpos. apply (Hkeep ceiling (Some ErrRange) Hceil).
    pose proof (ParseInt_error_value (Getenv env "CHAT_MAX_TOKENS")) as Hv.
    rewrite Hceil in Hv.
    destruct Hv as [->| ->]; [|unfold MinInt64 in Hpos; lia].
    apply Result_Int_range.
Qed.

Lemma ChatCompletions_keeps_limits_witness :
  (exists url key body',
     ChatCompletions compactRaw chatEnv (str "GitHubCopilotChat/0.22")
       (JObject [member "n" (JNumber 1); member "max_tokens" (JNumber 512);
                 member "messages" (JArray [message "user" "Hi"])])
     = Forward url key body' /\
     GetBytes body' [str "n"] = Some (JNumber 1) /\
     GetBytes body' [str "max_tokens"] = Some (JNumber 512)) /\
  (exists url key body',
     ChatCompletions compactRaw
       (envOf [("CHAT_MAX_TOKENS", "9223372036854775808");
               ("CHAT_API_BASE", "https://upstream/v1/chat/completions");
               ("LIGHTWEIGHT_MODEL", "gpt-4o-mini")])
       (str "GitHubCopilotChat/0.22")
       (JObject [member "max_tokens" (JNumber 100000);
                 member "messages" (JArray [message "user" "Hi"])])
     = Forward url key body' /\
     GetBytes body' [str "max_tokens"] = Some (JNumber 100000)).
Proof.
  split.
  - assert (Hrun : exists url key body',
              ChatCompletions compactRaw chatEnv
                (str "GitHubCopilotChat/0.22")
                (JObject [member "n" (JNumber 1);
                          member "max_tokens" (JNumber 512);
                          member "messages" (JArray [message "user" "Hi"])])
              = Forward url key body').
    { do 3 eexists. vm_compute. reflexivity. }
    destruct Hrun as (url & key & body' & Hrun).
    destruct (ChatCompletions_keeps_limits compactRaw chatEnv
                (str "GitHubCopilotChat/0.22") url key _ body' Hrun)
      as (Hn & Hm & _).
    exists url, key, body'. split; [exact Hrun|]. split.
    + rewrite Hn; [reflexivity|]. vm_compute. discriminate.
    + rewrite (Hm 4096 None); [reflexivity|reflexivity|].
      vm_compute. discriminate.
  - assert (Hrun : exists url key body',
              ChatCompletions compactRaw
                (envOf [("CHAT_MAX_TOKENS", "9223372036854775808");
                        ("CHAT_API_BASE",
                         "https://upstream/v1/chat/completions");
                        ("LIGHTWEIGHT_MODEL", "gpt-4o-mini")])
                (str "GitHubCopilotChat/0.22")
                (JObject [member "max_tokens" (JNumber 100000);
                          member "messages" (JArray [message "user" "Hi"])])
              = Forward url key body').
    { do 3 eexists. vm_compute. reflexivity. }
    destruct Hrun as (url & key & body' & Hrun).
    destruct (ChatCompletions_keeps_limits compactRaw
                (envOf [("CHAT_MAX_TOKENS", "9223372036854775808");
                        ("CHAT_API_BASE",
                         "https://upstream/v1/chat/completions");
                        ("LIGHTWEIGHT_MODEL", "gpt-4o-mini")])
                (str "GitHubCopilotChat/0.22") url key _ body' Hrun)
      as (_ & _ & Hr).
    exists url, key, body'. split; [exact Hrun|].
    rewrite (Hr MaxInt64); [reflexivity|reflexivity|reflexivity].
Defined.

(** X14.  When strconv.Atoi rejects CHAT_MAX_TOKENS with a syntax error
    (the variable is unset or empty, is a bare sign, or a byte that is not
    a digit is met before the digits leave the range of uint64) the value
    it returns is 0 and the handler takes 0 as the ceiling: every request
    with a positive max_tokens is forwarded with max_tokens set to 0. *)
Theorem ChatCompletions_max_tokens_without_ceiling :
  forall (Raw : JSON -> gostring) (env : Env)
         (userAgent url key : gostring) (body body' : JSON),
    snd (ParseInt (Getenv env "CHAT_MAX_TOKENS")) = Some ErrSyntax ->
    0 < Result_Int (GetBytes body [str "max_tokens"]) ->
    ChatCompletions Raw env userAgent body = Forward url key body' ->
    GetBytes body' [str "max_tokens"] = Some (JNumber 0).
Proof.
  intros Raw env userAgent url key body body' Hsyntax Hpos H.
  apply ChatCompletions_limit_steps in H. cbv zeta in H.
  assert (Hzero : AtoiValue (Getenv env "CHAT_MAX_TOKENS") = 0).
  { pose proof (ParseInt_error_value (Getenv env "CHAT_MAX_TOKENS")) as Hv.
    unfold AtoiValue.
    destruct (ParseInt (Getenv env "CHAT_MAX_TOKENS")) as [v err].
    simpl in Hsyntax. subst err. exact Hv. }
  rewrite Hzero in H.
  destruct H as (stripped & clamped & Hm & Hn & Hclamped & ->).
  rewrite !GetBytes_key in *.
  destruct (_ >? 0) eqn:E in Hclamped; [|lia].
  destruct (getPart body (str "max_tokens")) as [x|] eqn:Ex;
    [|simpl in Hpos; lia].
  pose proof (getPart_SetBytes_eq stripped x (str "max_tokens") (JNumber 0)
                ltac:(key) Hm) as Hset.
  rewrite <- Hclamped in Hset.
  destruct (_ >? 1); [rewrite getPart_SetBytes_ne by key|]; exact Hset.
Qed.

Lemma ChatCompletions_max_tokens_without_ceiling_witness :
  (exists url key body',
     ChatCompletions compactRaw
       (envOf [("CHAT_MAX_TOKENS", "4k");
               ("CHAT_API_BASE", "https://upstream/v1/chat/completions");
               ("LIGHTWEIGHT_MODEL", "gpt-4o-mini")])
       (str "GitHubCopilotChat/0.22")
       (JObject [member "max_tokens" (JNumber 512);
                 member "messages" (JArray [message "user" "Hi"])])
     = Forward url key body' /\
     GetBytes body' [str "max_tokens"] = Some (JNumber 0)) /\
  ParseInt (str "4k") = (0, Some ErrSyntax) /\
  ParseInt [] = (0, Some ErrSyntax).
Proof.
  split; [|split; reflexivity].
  assert (Hrun : exists url key body',
            ChatCompletions compactRaw
              (envOf [("CHAT_MAX_TOKENS", "4k");
                      ("CHAT_API_BASE", "https://upstream/v1/chat/completions");
                      ("LIGHTWEIGHT_MODEL", "gpt-4o-mini")])
              (str "GitHubCopilotChat/0.22")
              (JObject [member "max_tokens" (JNumber 512);
                        member "messages" (JArray [message "user" "Hi"])])
            = Forward url key body').
  { do 3 eexists. vm_compute. reflexivity. }
  destruct Hrun as (url & key & body' & Hrun).
  exists url, key, body'. split; [exact Hrun|].
  apply (ChatCompletions_max_tokens_without_ceiling compactRaw
           (envOf [("CHAT_MAX_TOKENS", "4k");
                   ("CHAT_API_BASE", "https://upstream/v1/chat/completions");
                   ("LIGHTWEIGHT_MODEL", "gpt-4o-mini")])
           (str "GitHubCopilotChat/0.22") url key
           (JObject [member "max_tokens" (JNumber 512);
                     member "messages" (JArray [message "user" "Hi"])])
           body'); [reflexivity|reflexivity|exact Hrun].
Defined.

(** ** ChatCompletions: what is stripped *)

Lemma countMember_replace (ms : list (gostring * JSON)) (p k : gostring)
    (v : JSON) :
  countMember (replaceMember ms p v) k = countMember ms k.
Proof.
  induction ms as [|[k' x] ms IH]; simpl; [reflexivity|].
  destruct (eqs k' p); simpl; [reflexivity|]. rewrite IH. reflexivity.
Qed.

Lemma countMember_remove_ne (ms : list (gostring * JSON)) (p k : gostring) :
  k <> p -> countMember (removeMember ms p) k = countMember ms k.
Proof.
  intros Hne. induction ms as [|[k' x] ms IH]; simpl; [reflexivity|].
  destruct (eqs k' p) eqn:Ep; simpl.
  - apply eqs_true in Ep. subst k'.
    rewrite (proj2 (eqs_false p k)) by congruence. reflexivity.
  - rewrite IH. reflexivity.
Qed.

Lemma countMember_remove_eq (ms : list (gostring * JSON)) (k : gostring) :
  countMember (removeMember ms k) k = pred (countMember ms k).
Proof.
  induction ms as [|[k' x] ms IH]; simpl; [reflexivity|].
  destruct (eqs k' k) eqn:Ek; simpl; [reflexivity|].
  rewrite Ek. exact IH.
Qed.

Lemma countMember_app (ms : list (gostring * JSON)) (p k : gostring)
    (v : JSON) :
  countMember (ms ++ [(p, v)]) k
  = (countMember ms k + if eqs p k then 1 else 0)%nat.
Proof.
  induction ms as [|[k' x] ms IH]; simpl; [lia|]. rewrite IH. lia.
Qed.

Lemma countMember_none (ms : list (gostring * JSON)) (k : gostring) :
  findMember ms k = None <-> countMember ms k = 0%nat.
Proof.
  induction ms as [|[k' x] ms IH]; simpl; [tauto|].
  destruct (eqs k' k); [split; [discriminate|lia]|].
  simpl. exact IH.
Qed.

Lemma occurrences_none (j : JSON) (k : gostring) :
  atoui k = None -> (getPart j k = None <-> occurrences k j = 0%nat).
Proof.
  intros Hk. apply atoui_parseUint in Hk.
  destruct j; unfold getPart, occurrences; try tauto.
  - rewrite Hk. tauto.
  - apply countMember_none.
Qed.

Lemma occurrences_SetBytes_frame (j : JSON) (p : gostring)
    (rest : list gostring) (v : JSON) (k : gostring) :
  atoui p = None -> p <> str "-1" -> k <> p ->
  occurrences k (SetBytes j (p :: rest) v) = occurrences k j.
Proof.
  intros Hp Hminus Hne. unfold SetBytes. cbn [sjsonSet].
  destruct (getPart j p) as [child|] eqn:Ep.
  - destruct (getPart_key_object j child p Hp Ep) as (ms & -> & _).
    assert (Hrep : forall x,
              occurrences k (replacePart (JObject ms) p x)
              = occurrences k (JObject ms)).
    { intros x. unfold replacePart, occurrences. apply countMember_replace. }
    destruct rest as [|r rest]; [apply Hrep|].
    destruct (sjsonSet child (r :: rest) v); [apply Hrep|reflexivity].
  - assert (Hpk : eqs p k = false) by (apply eqs_false; congruence).
    assert (Hm : eqs p (str "-1") = false) by (apply eqs_false; exact Hminus).
    destruct j; rewrite ?Hp, ?Hm; try reflexivity;
      try (unfold occurrences, countMember; rewrite Hpk; reflexivity).
    unfold occurrences. rewrite countMember_app, Hpk. lia.
Qed.

(** Writing below a key that is there keeps the members as they are. *)
Lemma occurrences_SetBytes_below (j child : JSON) (p r : gostring)
    (rest : list gostring) (v : JSON) (k : gostring) :
  atoui p = None -> getPart j p = Some child ->
  occurrences k (SetBytes j (p :: r :: rest) v) = occurrences k j.
Proof.
  intros Hp Ep. unfold SetBytes.
  remember (r :: rest) as path eqn:Epath.
  cbn [sjsonSet]. rewrite Ep. subst path. cbv beta iota.
  destruct (getPart_key_object j child p Hp Ep) as (ms & -> & _).
  destruct (sjsonSet child (r :: rest) v); [|reflexivity].
  unfold replacePart, occurrences. apply countMember_replace.
Qed.

Lemma occurrences_DeleteBytes_frame (j : JSON) (p : gostring)
    (rest : list gostring) (k : gostring) :
  atoui p = None -> k <> p ->
  occurrences k (DeleteBytes j (p :: rest)) = occurrences k j.
Proof.
  intros Hp Hne.
  destruct rest as [|r rest];
    rewrite ?DeleteBytes_last, ?DeleteBytes_below;
    (destruct (getPart j p) as [child|] eqn:Ep; [|reflexivity]);
    destruct (getPart_key_object j child p Hp Ep) as (ms & -> & _).
  - unfold removePart, occurrences. apply countMember_remove_ne. exact Hne.
  - unfold replacePart, occurrences. apply countMember_replace.
Qed.

(** Deleting a key removes one member with that key, the first, when
    there is one. *)
Lemma occurrences_DeleteBytes_key (j : JSON) (k : gostring) :
  atoui k = None ->
  occurrences k (DeleteBytes j [k]) = pred (occurrences k j).
Proof.
  intros Hk. rewrite DeleteBytes_last.
  destruct (getPart j k) as [child|] eqn:Ek.
  - destruct (getPart_key_object j child k Hk Ek) as (ms & -> & _).
    unfold removePart, occurrences. apply countMember_remove_eq.
  - apply (occurrences_none j k Hk) in Ek. rewrite Ek. reflexivity.
Qed.

Lemma occurrences_stripToolCalls (messages : list JSON) (i : nat)
    (body : JSON) (k : gostring) :
  k <> str "messages" ->
  occurrences k (stripToolCalls i messages body) = occurrences k body.
Proof.
  intros Hne. revert i body.
  induction messages as [|msg rest IH]; intros i body; simpl; [reflexivity|].
  rewrite IH. destruct (_ =? 0); [|reflexivity].
  apply occurrences_DeleteBytes_frame; [reflexivity|exact Hne].
Qed.

Lemma occurrences_normalizeMessages (Raw : JSON -> gostring) (env : Env)
    (body body' : JSON) (k : gostring) :
  k <> str "messages" ->
  normalizeMessages Raw env body = Returns body' ->
  occurrences k body' = occurrences k body.
Proof.
  intros Hne. unfold normalizeMessages.
  destruct (eqs (Getenv env "CHAT_LOCALE") []).
  - intros H. injection H as <-. apply occurrences_stripToolCalls. exact Hne.
  - destruct (last _); [|discriminate].
    destruct (negb _); intros H; injection H as <-.
    + rewrite occurrences_SetBytes_frame by key.
      apply occurrences_stripToolCalls. exact Hne.
    + apply occurrences_stripToolCalls. exact Hne.
Qed.

Lemma occurrences_defaultToolParameters (fuel i : nat) (body : JSON)
    (k : gostring) :
  occurrences k (defaultToolParameters fuel i body) = occurrences k body.
Proof.
  revert i body.
  induction fuel as [|fuel IH]; intros i body; simpl; [reflexivity|].
  destruct (_ <? _); [|reflexivity].
  rewrite IH.
  destruct (Result_Exists (GetBytes body [str "tools"; Itoa i])) eqn:E1;
    cbn [negb]; [|reflexivity].
  do 1 (destruct (negb _); [reflexivity|]).
  destruct (negb _); [|reflexivity].
  destruct (getPart body (str "tools")) as [child|] eqn:Et.
  - exact (occurrences_SetBytes_below body child (str "tools") _ _ _ k
             eq_refl Et).
  - exfalso.
    change (GetBytes body [str "tools"; Itoa i])
      with (match getPart body (str "tools") with
            | Some child => GetBytes child [Itoa i]
            | None => None
            end) in E1.
    rewrite Et in E1. discriminate E1.
Qed.

(** X25.  What the delete statements remove.  Each of intent,
    intent_threshold, intent_content and logprobs loses one top-level
    member, the first with that key, in every forwarded body; so do tools,
    tool_call, functions, function_call and tool_choice unless
    CHAT_USE_TOOLS is true, in which case they keep all their members.
    Hence a key of these that occurs at most once in the request is absent
    from the forwarded body, and one that is repeated is still there. *)
Theorem ChatCompletions_strips_fields :
  forall (Raw : JSON -> gostring) (env : Env)
         (userAgent url key : gostring) (body body' : JSON),
    ChatCompletions Raw env userAgent body = Forward url key body' ->
    (forall k, In k intentKeys ->
       occurrences k body' = pred (occurrences k body) /\
       ((occurrences k body <= 1)%nat -> GetBytes body' [k] = None)) /\
    (forall k, In k toolKeys ->
       if ParseBool (Getenv env "CHAT_USE_TOOLS")
       then occurrences k body' = occurrences k body
       else occurrences k body' = pred (occurrences k body) /\
            ((occurrences k body <= 1)%nat -> GetBytes body' [k] = None)).
Proof.
  intros Raw env userAgent url key body body' H.
  apply ChatCompletions_Forward in H as (model & normalized & -> & Hn).
  cbv zeta in Hn.
  assert (Hin : forall k, In k intentKeys \/ In k toolKeys ->
            atoui k = None /\ k <> str "-1" /\ k <> str "model" /\
            k <> str "stream" /\ k <> str "messages" /\
            k <> str "max_tokens" /\ k <> str "n").
  { intros k [Hk|Hk]; vm_compute in Hk;
      repeat destruct Hk as [Hk|Hk]; try contradiction; subst k;
      repeat split; try reflexivity;
      intros E; vm_compute in E; discriminate E. }
  assert (Hnorm : forall k, In k intentKeys \/ In k toolKeys ->
            occurrences k normalized = occurrences k body).
  { intros k Hk.
    destruct (Hin k Hk) as (Ha & Hm1 & Hmodel & Hstream & Hmsg & _).
    destruct Hn as [[_ ->]|[_ Hn]].
    - rewrite !occurrences_SetBytes_frame by key. reflexivity.
    - rewrite (occurrences_normalizeMessages Raw env _ normalized k Hmsg Hn).
      rewrite !occurrences_SetBytes_frame by key. reflexivity. }
  assert (Hlimits : forall k b1,
            In k intentKeys \/ In k toolKeys ->
            occurrences k
              (let ChatMaxTokens := AtoiValue (Getenv env "CHAT_MAX_TOKENS") in
               let b2 :=
                 if Result_Int (GetBytes b1 [str "max_tokens"]) >? ChatMaxTokens
                 then SetBytes b1 [str "max_tokens"] (JNumber ChatMaxTokens)
                 else b1 in
               if Result_Int (GetBytes b2 [str "n"]) >? 1
               then SetBytes b2 [str "n"] (JNumber 1)
               else b2)
            = occurrences k b1).
  { intros k b1 Hk.
    destruct (Hin k Hk) as (Ha & Hm1 & _ & _ & _ & Hmax & Hnn).
    cbv zeta.
    destruct (_ >? 1); [rewrite occurrences_SetBytes_frame by key|];
      (destruct (_ >? _); [rewrite occurrences_SetBytes_frame by key|]);
      reflexivity. }
  assert (Htools : forall k b1,
            occurrences k
              (if Result_Exists (GetBytes b1 [str "tools"])
               then defaultToolParameters
                      (length (Result_Array (GetBytes b1 [str "tools"]))) 0 b1
               else b1)
            = occurrences k b1).
  { intros k b1. destruct (Result_Exists _); [|reflexivity].
    apply occurrences_defaultToolParameters. }
  assert (Hintent : forall k, In k intentKeys ->
            occurrences k (stripIntent normalized)
            = pred (occurrences k body)).
  { intros k Hk. rewrite <- (Hnorm k (or_introl Hk)).
    unfold stripIntent. cbv zeta. vm_compute in Hk.
    repeat destruct Hk as [Hk|Hk]; try contradiction; subst k;
      repeat first
        [ rewrite occurrences_DeleteBytes_key by reflexivity
        | rewrite occurrences_DeleteBytes_frame by key ];
      reflexivity. }
  assert (Hintent' : forall k, In k toolKeys ->
            occurrences k (stripIntent normalized) = occurrences k body).
  { intros k Hk. rewrite <- (Hnorm k (or_intror Hk)).
    unfold stripIntent. cbv zeta. vm_compute in Hk.
    repeat destruct Hk as [Hk|Hk]; try contradiction; subst k;
      rewrite !occurrences_DeleteBytes_frame by key; reflexivity. }
  assert (Hstrip : forall k b1, In k intentKeys ->
            occurrences k (stripTools b1) = occurrences k b1).
  { intros k b1 Hk. unfold stripTools. cbv zeta. vm_compute in Hk.
    repeat destruct Hk as [Hk|Hk]; try contradiction; subst k;
      rewrite !occurrences_DeleteBytes_frame by key; reflexivity. }
  assert (Hstrip' : forall k b1, In k toolKeys ->
            occurrences k (stripTools b1) = pred (occurrences k b1)).
  { intros k b1 Hk. unfold stripTools. cbv zeta. vm_compute in Hk.
    repeat destruct Hk as [Hk|Hk]; try contradiction; subst k;
      repeat first
        [ rewrite occurrences_DeleteBytes_key by reflexivity
        | rewrite occurrences_DeleteBytes_frame by key ];
      reflexivity. }
  assert (Habsent : forall k b,
            In k intentKeys \/ In k toolKeys ->
            occurrences k b = pred (occurrences k body) ->
            (occurrences k body <= 1)%nat -> GetBytes b [k] = None).
  { intros k b Hk Hcount Hle. rewrite GetBytes_key.
    apply (occurrences_none b k (proj1 (Hin k Hk))). lia. }
  unfold rewriteLimits.
  change (let body0 := stripIntent normalized in
          let chatUseTools := ParseBool (Getenv env "CHAT_USE_TOOLS") in
          let body1 := if negb chatUseTools then stripTools body0 else body0 in
          let body2 :=
            if Result_Exists (GetBytes body1 [str "tools"])
            then defaultToolParameters
                   (length (Result_Array (GetBytes body1 [str "tools"]))) 0
                   body1
            else body1 in
          let ChatMaxTokens := AtoiValue (Getenv env "CHAT_MAX_TOKENS") in
          let body3 :=
            if Result_Int (GetBytes body2 [str "max_tokens"]) >? ChatMaxTokens
            then SetBytes body2 [str "max_tokens"] (JNumber ChatMaxTokens)
            else body2 in
          if Result_Int (GetBytes body3 [str "n"]) >? 1
          then SetBytes body3 [str "n"] (JNumber 1)
          else body3)
    with (let body1 :=
            if negb (ParseBool (Getenv env "CHAT_USE_TOOLS"))
            then stripTools (stripIntent normalized)
            else stripIntent normalized in
          let body2 :=
            if Result_Exists (GetBytes body1 [str "tools"])
            then defaultToolParameters
                   (length (Result_Array (GetBytes body1 [str "tools"]))) 0
                   body1
            else body1 in
          let ChatMaxTokens := AtoiValue (Getenv env "CHAT_MAX_TOKENS") in
          let b2 :=
            if Result_Int (GetBytes body2 [str "max_tokens"]) >? ChatMaxTokens
            then SetBytes body2 [str "max_tokens"] (JNumber ChatMaxTokens)
            else body2 in
          if Result_Int (GetBytes b2 [str "n"]) >? 1
          then SetBytes b2 [str "n"] (JNumber 1)
          else b2).
  cbv zeta.
  set (body1 := if negb (ParseBool (Getenv env "CHAT_USE_TOOLS"))
                then stripTools (stripIntent normalized)
                else stripIntent normalized).
  set (body2 := if Result_Exists (GetBytes body1 [str "tools"])
                then defaultToolParameters
                       (length (Result_Array (GetBytes body1 [str "tools"])))
                       0 body1
                else body1).
  assert (Hfinal : forall k, In k intentKeys \/ In k toolKeys ->
            occurrences k
              (if Result_Int
                    (GetBytes
                       (if Result_Int (GetBytes body2 [str "max_tokens"])
                           >? AtoiValue (Getenv env "CHAT_MAX_TOKENS")
                        then SetBytes body2 [str "max_tokens"]
                               (JNumber
                                  (AtoiValue (Getenv env "CHAT_MAX_TOKENS")))
                        else body2) [str "n"]) >? 1
               then SetBytes
                      (if Result_Int (GetBytes body2 [str "max_tokens"])
                          >? AtoiValue (Getenv env "CHAT_MAX_TOKENS")
                       then SetBytes body2 [str "max_tokens"]
                              (JNumber
                                 (AtoiValue (Getenv env "CHAT_MAX_TOKENS")))
                       else body2) [str "n"] (JNumber 1)
               else
                 if Result_Int (GetBytes body2 [str "max_tokens"])
                    >? AtoiValue (Getenv env "CHAT_MAX_TOKENS")
                 then SetBytes body2 [str "max_tokens"]
                        (JNumber (AtoiValue (Getenv env "CHAT_MAX_TOKENS")))
                 else body2)
            = occurrences k body1).
  { intros k Hk. pose proof (Hlimits k body2 Hk) as Hl. cbv zeta in Hl.
    rewrite Hl. unfold body2. apply Htools. }
  split.
  - intros k Hk.
    assert (Hcount : occurrences k body1 = pred (occurrences k body)).
    { unfold body1. destruct (negb _).
      - rewrite (Hstrip k _ Hk). exact (Hintent k Hk).
      - exact (Hintent k Hk). }
    rewrite <- Hcount, <- (Hfinal k (or_introl Hk)).
    split; [reflexivity|].
    apply (Habsent k _ (or_introl Hk)).
    rewrite (Hfinal k (or_introl Hk)). exact Hcount.
  - intros k Hk. unfold body1 in Hfinal.
    destruct (ParseBool (Getenv env "CHAT_USE_TOOLS")); cbn [negb] in *.
    + rewrite (Hfinal k (or_intror Hk)). exact (Hintent' k Hk).
    + assert (Hcount : occurrences k (stripTools (stripIntent normalized))
                       = pred (occurrences k body)).
      { rewrite (Hstrip' k _ Hk), (Hintent' k Hk). reflexivity. }
      split.
      * rewrite (Hfinal k (or_intror Hk)). exact Hcount.
      * apply (Habsent k _ (or_intror Hk)).
        rewrite (Hfinal k (or_intror Hk)). exact Hcount.
Qed.

Lemma ChatCompletions_strips_fields_witness :
  exists url key body',
    ChatCompletions compactRaw chatEnv (str "GitHubCopilotChat/0.22")
      strippedRequest = Forward url key body' /\
    GetBytes strippedRequest [str "intent"] = Some JTrue /\
    GetBytes body' [str "intent"] = None /\
    GetBytes strippedRequest [str "tools"] = Some (JArray []) /\
    GetBytes body' [str "tools"] = None /\
    occurrences (str "logprobs") strippedRequest = 2%nat /\
    occurrences (str "logprobs") body' = 1%nat /\
    GetBytes body' [str "logprobs"] = Some JFalse.
Proof.
  assert (Hrun : exists url key body',
            ChatCompletions compactRaw chatEnv (str "GitHubCopilotChat/0.22")
              strippedRequest = Forward url key body' /\
            GetBytes body' [str "logprobs"] = Some JFalse).
  { do 3 eexists. vm_compute. split; reflexivity. }
  destruct Hrun as (url & key & body' & Hrun & Hlog).
  destruct (ChatCompletions_strips_fields compactRaw chatEnv
              (str "GitHubCopilotChat/0.22") url key strippedRequest body'
              Hrun) as [Hintent Htools].
  exists url, key, body'. split; [exact Hrun|].
  split; [reflexivity|]. split.
  { apply (Hintent (str "intent")); [vm_compute; tauto|vm_compute; lia]. }
  split; [reflexivity|]. split.
  { pose proof (Htools (str "tools") ltac:(vm_compute; tauto)) as Ht.
    assert (Hb : ParseBool (Getenv chatEnv "CHAT_USE_TOOLS") = false)
      by reflexivity.
    rewrite Hb in Ht. apply Ht. vm_compute. lia. }
  split; [reflexivity|]. split; [|exact Hlog].
  destruct (Hintent (str "logprobs") ltac:(vm_compute; tauto)) as [Hc _].
  rewrite Hc. reflexivity.
Defined.


(** ** The chunks handler *)

(** X20.  SplitIntoChunks makes no use of its model argument: the result
    is the same for every model, and every chunk it returns carries the
    empty vector and the empty model name in its Embedding. *)
Theorem SplitIntoChunks_ignores_model :
  forall (Sum256 : gostring -> gostring) (env : Env)
         (content path model model' : gostring),
    SplitIntoChunks Sum256 env content path model
    = SplitIntoChunks Sum256 env content path model' /\
    forall chunks,
      SplitIntoChunks Sum256 env content path model = Returns chunks ->
      Forall (fun c => Embedding_Embedding (Chunk_Embedding c) = [] /\
                       Embedding_Model (Chunk_Embedding c) = []) chunks.
Proof.
  intros Sum256 env content path model model'. split; [reflexivity|].
  intros chunks H.
  apply (SplitIntoChunks_Forall Sum256 env path model _ content chunks);
    [|exact H].
  intros text s. split; reflexivity.
Qed.

Lemma SplitIntoChunks_ignores_model_witness :
  SplitIntoChunks toySum256 (envOf [("EMBEDDING_DIMENSION_SIZE", "2")])
    (joinLines ["aa"; "bad"; "cc"]) (str "main.go") (str "m")
  = SplitIntoChunks toySum256 (envOf [("EMBEDDING_DIMENSION_SIZE", "2")])
      (joinLines ["aa"; "bad"; "cc"]) (str "main.go")
      (str "text-embedding-3-small") /\
  Forall (fun c => Embedding_Embedding (Chunk_Embedding c) = [] /\
                   Embedding_Model (Chunk_Embedding c) = []) threeChunks.
Proof.
  destruct (SplitIntoChunks_ignores_model toySum256
              (envOf [("EMBEDDING_DIMENSION_SIZE", "2")])
              (joinLines ["aa"; "bad"; "cc"]) (str "main.go") (str "m")
              (str "text-embedding-3-small")) as [Hsame Hfresh].
  split; [exact Hsame|]. apply Hfresh. vm_compute. reflexivity.
Defined.

Section HandlerProperties.

Variable GetEmbeddings : list gostring -> error + EmbeddingResponse.

Local Abbreviation ans := (answer GetEmbeddings).
Local Abbreviation emb := (embedded GetEmbeddings).



End HandlerProperties.

Lemma NewChunkService_configured (env : Env) :
  if embeddingConfigured env
  then NewChunkService env
       = inr {| embeddingClient :=
                  {| client_apiURL := Getenv env "EMBEDDING_API_BASE";
                     client_apiKey := Getenv env "EMBEDDING_API_KEY";
                     client_model := Getenv env "EMBEDDING_API_MODEL_NAME";
                     client_dimensions := getDimensionSize env |};
                modelName := Getenv env "EMBEDDING_API_MODEL_NAME" |}
  else exists msg, NewChunkService env = inl msg.
Proof.
  unfold embeddingConfigured, NewChunkService, NewEmbeddingClient.
  destruct (eqs (Getenv env "EMBEDDING_API_BASE") []);
    destruct (eqs (Getenv env "EMBEDDING_API_KEY") []);
    destruct (eqs (Getenv env "EMBEDDING_API_MODEL_NAME") []);
    simpl; try (eexists; reflexivity); reflexivity.
Qed.

(** X21.  Once the request is bound, HandleChunks asks for the embedding
    configuration before it does anything else.  When one of
    EMBEDDING_API_BASE, EMBEDDING_API_KEY and EMBEDDING_API_MODEL_NAME is
    unset, every bound request is answered with the service error, also a
    request with embed false, which needs no embedding; when all three
    are set, no request is. *)
Theorem HandleChunks_needs_embedding_config :
  forall (Sum256 : gostring -> gostring) (env : Env)
         (roundTrip : gostring -> gostring -> EmbeddingRequest ->
                      error + EmbeddingResponse)
         (req : ChunkRequest),
    (embeddingConfigured env = false ->
     exists msg,
       HandleChunks Sum256 env roundTrip req (ChunksServiceError msg) /\
       forall reply,
         HandleChunks Sum256 env roundTrip req reply ->
         reply = ChunksServiceError msg) /\
    (embeddingConfigured env = true ->
     forall reply msg,
       HandleChunks Sum256 env roundTrip req reply ->
       reply <> ChunksServiceError msg).
Proof.
  intros Sum256 env roundTrip req.
  pose proof (NewChunkService_configured env) as Hcfg.
  split; intros E; rewrite E in Hcfg.
  - destruct Hcfg as [msg Hmsg].
    exists (str "failed to initialize service: " ++ msg). split.
    + constructor. exact Hmsg.
    + intros reply Hrun.
      destruct Hrun as [msg' H|service p H|service chunks H
                       |service chunks chunks' H|service chunks chunks' err H];
        congruence.
  - intros reply msg Hrun.
    destruct Hrun as [msg' H|service p H|service chunks H
                     |service chunks chunks' H|service chunks chunks' err H];
      try discriminate.
    congruence.
Qed.

Lemma HandleChunks_needs_embedding_config_witness :
  exists msg,
    HandleChunks toySum256
      (envOf [("EMBEDDING_API_BASE", "https://upstream/v1/embeddings")])
      (fun _ _ req => stubGetEmbeddings (EmbeddingRequest_Input req))
      {| ChunkRequest_Content := str "package main";
         ChunkRequest_Path := str "main.go";
         ChunkRequest_Embed := false |}
      (ChunksServiceError msg) /\
    forall reply,
      HandleChunks toySum256
        (envOf [("EMBEDDING_API_BASE", "https://upstream/v1/embeddings")])
        (fun _ _ req => stubGetEmbeddings (EmbeddingRequest_Input req))
        {| ChunkRequest_Content := str "package main";
           ChunkRequest_Path := str "main.go";
           ChunkRequest_Embed := false |}
        reply ->
      reply = ChunksServiceError msg.
Proof.
  apply (HandleChunks_needs_embedding_config toySum256
           (envOf [("EMBEDDING_API_BASE", "https://upstream/v1/embeddings")])
           (fun _ _ req => stubGetEmbeddings (EmbeddingRequest_Input req))
           {| ChunkRequest_Content := str "package main";
              ChunkRequest_Path := str "main.go";
              ChunkRequest_Embed := false |}).
  reflexivity.
Defined.

(** X22.  With embed false and the configuration in place, HandleChunks
    answers 200 with the chunks of SplitIntoChunks as they are, none
    carrying a vector, and with EMBEDDING_API_MODEL_NAME as the embedding
    model; the answer is the same whatever the upstream would do. *)
Theorem HandleChunks_without_embed :
  forall (Sum256 : gostring -> gostring) (env : Env)
         (roundTrip : gostring -> gostring -> EmbeddingRequest ->
                      error + EmbeddingResponse)
         (req : ChunkRequest),
    embeddingConfigured env = true ->
    0 < getChunkSize env ->
    ChunkRequest_Embed req = false ->
    exists chunks,
      SplitIntoChunks Sum256 env (ChunkRequest_Content req)
        (ChunkRequest_Path req) (Getenv env "EMBEDDING_API_MODEL_NAME")
      = Returns chunks /\
      Forall (fun c => Embedding_Embedding (Chunk_Embedding c) = []) chunks /\
      forall reply,
        HandleChunks Sum256 env roundTrip req reply <->
        reply
        = ChunksOK
            {| ChunkResponse_Chunks := chunks;
               ChunkResponse_EmbeddingModel :=
                 Getenv env "EMBEDDING_API_MODEL_NAME" |}.
Proof.
  intros Sum256 env roundTrip req Hcfg Hpos Hembed.
  pose proof (NewChunkService_configured env) as Hservice.
  rewrite Hcfg in Hservice.
  destruct (SplitIntoChunks_total Sum256 env (ChunkRequest_Path req)
              (Getenv env "EMBEDDING_API_MODEL_NAME")
              (ChunkRequest_Content req) Hpos) as [chunks Hsplit].
  exists chunks. split; [exact Hsplit|]. split.
  - apply (SplitIntoChunks_Forall Sum256 env (ChunkRequest_Path req)
             (Getenv env "EMBEDDING_API_MODEL_NAME") _
             (ChunkRequest_Content req) chunks); [|exact Hsplit].
    intros text s. reflexivity.
  - intros reply. split.
    + intros Hrun.
      destruct Hrun as [msg H|service p H Hs|service chunks0 H Hs He
                       |service chunks0 chunks' H Hs He
                       |service chunks0 chunks' err H Hs He];
        rewrite Hservice in H; try discriminate;
        injection H as <-; cbn [modelName] in *; congruence.
    + intros ->.
      apply (HandleChunks_plain Sum256 env roundTrip req _ chunks Hservice);
        [exact Hsplit|exact Hembed].
Qed.

Lemma HandleChunks_without_embed_witness :
  exists chunks,
    map Chunk_Range chunks = [mkRange 0 3; mkRange 3 7; mkRange 7 10] /\
    vectors chunks = [[]; []; []] /\
    forall reply,
      HandleChunks toySum256
        (envOf [("EMBEDDING_API_BASE", "https://upstream/v1/embeddings");
                ("EMBEDDING_API_KEY", "sk-test");
                ("EMBEDDING_API_MODEL_NAME", "text-embedding-3-small");
                ("EMBEDDING_DIMENSION_SIZE", "2")])
        (fun _ _ req => stubGetEmbeddings (EmbeddingRequest_Input req))
        {| ChunkRequest_Content := joinLines ["aa"; "bad"; "cc"];
           ChunkRequest_Path := str "main.go";
           ChunkRequest_Embed := false |}
        reply <->
      reply
      = ChunksOK
          {| ChunkResponse_Chunks := chunks;
             ChunkResponse_EmbeddingModel := str "text-embedding-3-small" |}.
Proof.
  destruct (HandleChunks_without_embed toySum256
              (envOf [("EMBEDDING_API_BASE", "https://upstream/v1/embeddings");
                      ("EMBEDDING_API_KEY", "sk-test");
                      ("EMBEDDING_API_MODEL_NAME", "text-embedding-3-small");
                      ("EMBEDDING_DIMENSION_SIZE", "2")])
              (fun _ _ req => stubGetEmbeddings (EmbeddingRequest_Input req))
              {| ChunkRequest_Content := joinLines ["aa"; "bad"; "cc"];
                 ChunkRequest_Path := str "main.go";
                 ChunkRequest_Embed := false |})
    as (chunks & Hsplit & _ & Hreply).
  - reflexivity.
  - reflexivity.
  - reflexivity.
  - exists chunks. vm_compute in Hsplit. injection Hsplit as <-.
    split; [reflexivity|]. split; [reflexivity|]. exact Hreply.
Defined.



(** ** The embeddings handler *)




(** ** More on the start-up of main *)

(** X15.  The two receives of main count goroutines that are past their
    send on serverStarted: in every reachable state the values buffered in
    the channel plus the receives main has completed never exceed the
    number of goroutines past their send, so the launch message is shown
    only after both are; and since at most two values are ever sent on a
    channel of capacity 2, the send of the HTTP goroutine never blocks, nor
    does the send of the HTTPS goroutine. *)
Theorem startup_receives_count_sends (s : startState) :
  startReachable s ->
  (start_serverStarted s + received (start_main s)
   <= (if pastSend (start_http s) then 1 else 0)
      + (if pastSend (start_https s) then 1 else 0))%nat /\
  (start_main s = Launched ->
   pastSend (start_http s) = true /\ pastSend (start_https s) = true) /\
  (start_http s = Started -> exists s', startStep HTTPSend s = Some s') /\
  (start_https s = Started -> exists s', startStep HTTPSSend s = Some s').
Proof.
  intros Hs. apply startReachable_inv in Hs as [Hs _].
  destruct s as [m h hs n set]. simpl in *.
  split; [exact Hs|]. split; [|split].
  - intros ->. simpl in Hs.
    destruct (pastSend h), (pastSend hs); split; try reflexivity; lia.
  - intros ->. simpl in *. unfold serverStartedCapacity.
    rewrite bool_decide_eq_true_2; [eexists; reflexivity|].
    destruct (pastSend hs); lia.
  - intros ->. simpl in *. unfold serverStartedCapacity.
    destruct set; [eexists; reflexivity|].
    rewrite bool_decide_eq_true_2; [eexists; reflexivity|].
    destruct (pastSend h); lia.
Qed.

Lemma startup_receives_count_sends_witness :
  exists s,
    startExec [MainStep; MainStep; HTTPSSend; MainStep; HTTPSend; MainStep]
      startInit = Some s /\
    start_main s = Receive2 /\
    (start_serverStarted s + received (start_main s) <= 2)%nat.
Proof.
  eexists. split; [reflexivity|]. split; [reflexivity|].
  pose proof (startup_receives_count_sends
                {| start_main := Receive2; start_http := Signalled;
                   start_https := Signalled; start_serverStarted := 1;
                   start_httpsServer := true |}) as H.
  destruct H as [H _].
  - exists [MainStep; MainStep; HTTPSSend; MainStep; HTTPSend; MainStep].
    reflexivity.
  - exact H.
Defined.

(** The states in which the HTTPS goroutine has missed, or will miss, its
    send: httpsServer is already set and every value sent so far came from
    the HTTP goroutine. *)
Lemma startStep_missed_send (a : startAction) (s s' : startState) :
  start_httpsServer s = true ->
  start_main s <> GoHTTP -> start_main s <> GoHTTPS ->
  (start_serverStarted s + received (start_main s)
   <= (if pastSend (start_http s) then 1 else 0))%nat ->
  startStep a s = Some s' ->
  start_httpsServer s' = true /\
  start_main s' <> GoHTTP /\ start_main s' <> GoHTTPS /\
  (start_serverStarted s' + received (start_main s')
   <= (if pastSend (start_http s') then 1 else 0))%nat.
Proof.
  destruct s as [m h hs n set]. simpl. intros -> Hm1 Hm2 Hn Hstep.
  destruct a as [| |ok| |ok]; simpl in Hstep.
  - destruct m; try congruence;
      try (destruct n; [discriminate|]);
      try discriminate;
      injection Hstep as <-; simpl in *;
      repeat split; try congruence; lia.
  - destruct h; try discriminate.
    case_bool_decide; [|discriminate].
    injection Hstep as <-. simpl in *.
    repeat split; try assumption. lia.
  - destruct h; try discriminate.
    injection Hstep as <-. simpl in *.
    repeat split; try assumption. destruct ok; simpl; lia.
  - destruct hs; try discriminate.
    injection Hstep as <-. simpl in *.
    repeat split; assumption.
  - destruct hs; try discriminate.
    injection Hstep as <-. simpl in *.
    repeat split; assumption.
Qed.

(** X16.  The start-up can block for ever.  The HTTPS goroutine sends on
    serverStarted only while it reads httpsServer as nil, and main assigns
    httpsServer right after starting it.  From any reachable state in
    which the goroutine has not yet made its test and the assignment has
    been made, no schedule lets main complete its second receive: the
    launch message is never shown, whatever the listeners do. *)
Theorem startup_blocks_after_assignment (s : startState) :
  startReachable s ->
  start_https s = Started ->
  start_httpsServer s = true ->
  forall schedule s',
    startExec schedule s = Some s' ->
    start_main s' <> Launch /\ start_main s' <> Launched.
Proof.
  intros Hs Hhs Hset schedule.
  apply startReachable_inv in Hs as [Hn Hm].
  assert (Hm1 : start_main s <> GoHTTP).
  { intros E. rewrite E in Hm. destruct Hm as [_ Hm]. congruence. }
  assert (Hm2 : start_main s <> GoHTTPS).
  { intros E. rewrite E in Hm. congruence. }
  assert (Hn' : (start_serverStarted s + received (start_main s)
                 <= (if pastSend (start_http s) then 1 else 0))%nat).
  { rewrite Hhs in Hn. simpl in Hn. lia. }
  clear Hn Hm Hhs.
  revert s Hset Hm1 Hm2 Hn'.
  induction schedule as [|a schedule IH]; intros s Hset Hm1 Hm2 Hn s' Hrun.
  - injection Hrun as <-.
    split; intros E; rewrite E in Hn; simpl in Hn;
      destruct (pastSend (start_http s)); lia.
  - simpl in Hrun. destruct (startStep a s) as [s1|] eqn:E; [|discriminate].
    destruct (startStep_missed_send a s s1 Hset Hm1 Hm2 Hn E)
      as (Hset1 & Hm11 & Hm21 & Hn1).
    exact (IH s1 Hset1 Hm11 Hm21 Hn1 s' Hrun).
Qed.

Lemma startup_blocks_after_assignment_witness :
  exists s s',
    startExec [MainStep; MainStep; MainStep] startInit = Some s /\
    startExec [HTTPSend; HTTPSSend; HTTPListen true; HTTPSListen true;
               MainStep] s = Some s' /\
    start_main s' = Receive2 /\
    start_http s' = Accepting /\ start_https s' = Accepting /\
    startStep MainStep s' = None /\
    start_main s' <> Launch /\ start_main s' <> Launched.
Proof.
  do 2 eexists. split; [reflexivity|]. split; [reflexivity|].
  do 4 (split; [reflexivity|]).
  apply (startup_blocks_after_assignment
           {| start_main := Receive1; start_http := Started;
              start_https := Started; start_serverStarted := 0;
              start_httpsServer := true |}
           (ex_intro _ [MainStep; MainStep; MainStep] eq_refl)
           eq_refl eq_refl
           [HTTPSend; HTTPSSend; HTTPListen true; HTTPSListen true; MainStep]).
  reflexivity.
Defined.


(** ** The defaults of main *)

Lemma Getenv_default_step (env : Env) (test write : string) (v : gostring)
    (key : string) :
  Getenv (if eqs (Getenv env test) [] then Setenv env write v else env) key
  = if String.eqb key write && eqs (Getenv env test) [] then v
    else Getenv env key.
Proof.
  destruct (eqs (Getenv env test) []); unfold Getenv, Setenv.
  - destruct (String.eqb key write); reflexivity.
  - rewrite andb_false_r. reflexivity.
Qed.

(** X17.  What initDefaultEnv leaves.  A variable outside the five it
    writes is untouched, each of the five is non-empty afterwards, and a
    non-empty variable keeps its value, with one exception: the test for
    HTTP_CLIENT_TIMEOUT writes DISGUISE_COPILOT_TOKEN_EXPIRES_AT.  So
    HTTP_CLIENT_TIMEOUT never receives a default, and whenever it is
    unset DISGUISE_COPILOT_TOKEN_EXPIRES_AT becomes "60", whatever value
    it was given; otherwise that variable defaults to "1800". *)
Theorem initDefaultEnv_defaults (env : Env) :
  (forall key, ~ In key defaultedKeys ->
     Getenv (initDefaultEnv env) key = Getenv env key) /\
  (forall key, In key defaultedKeys ->
     Getenv (initDefaultEnv env) key <> []) /\
  (forall key, key <> "DISGUISE_COPILOT_TOKEN_EXPIRES_AT"%string ->
     Getenv env key <> [] ->
     Getenv (initDefaultEnv env) key = Getenv env key) /\
  Getenv (initDefaultEnv env) "HTTP_CLIENT_TIMEOUT"
  = Getenv env "HTTP_CLIENT_TIMEOUT" /\
  Getenv (initDefaultEnv env) "DISGUISE_COPILOT_TOKEN_EXPIRES_AT"
  = (if eqs (Getenv env "HTTP_CLIENT_TIMEOUT") [] then str "60"
     else if eqs (Getenv env "DISGUISE_COPILOT_TOKEN_EXPIRES_AT") []
          then str "1800"
          else Getenv env "DISGUISE_COPILOT_TOKEN_EXPIRES_AT").
Proof.
  assert (Hget : forall key,
    Getenv (initDefaultEnv env) key
    = if String.eqb key "LIGHTWEIGHT_MODEL"
         && eqs (Getenv env "LIGHTWEIGHT_MODEL") []
      then str "gpt-4o-mini"
      else if String.eqb key "COPILOT_ACCOUNT_TYPE"
              && eqs (Getenv env "COPILOT_ACCOUNT_TYPE") []
      then str "individual"
      else if String.eqb key "DISGUISE_COPILOT_TOKEN_EXPIRES_AT"
              && eqs (Getenv env "HTTP_CLIENT_TIMEOUT") []
      then str "60"
      else if String.eqb key "DISGUISE_COPILOT_TOKEN_EXPIRES_AT"
              && eqs (Getenv env "DISGUISE_COPILOT_TOKEN_EXPIRES_AT") []
      then str "1800"
      else if String.eqb key "COPILOT_CLIENT_TYPE"
              && eqs (Getenv env "COPILOT_CLIENT_TYPE") []
      then str "default"
      else if String.eqb key "COPILOT_PROXY_ALL"
              && eqs (Getenv env "COPILOT_PROXY_ALL") []
      then str "false"
      else Getenv env key).
  { intros key. unfold initDefaultEnv. cbv zeta.
    set (e1 := if eqs (Getenv env "COPILOT_PROXY_ALL") []
               then Setenv env "COPILOT_PROXY_ALL" (str "false") else env).
    set (e2 := if eqs (Getenv e1 "COPILOT_CLIENT_TYPE") []
               then Setenv e1 "COPILOT_CLIENT_TYPE" (str "default") else e1).
    set (e3 := if eqs (Getenv e2 "DISGUISE_COPILOT_TOKEN_EXPIRES_AT") []
               then Setenv e2 "DISGUISE_COPILOT_TOKEN_EXPIRES_AT" (str "1800")
               else e2).
    set (e4 := if eqs (Getenv e3 "HTTP_CLIENT_TIMEOUT") []
               then Setenv e3 "DISGUISE_COPILOT_TOKEN_EXPIRES_AT" (str "60")
               else e3).
    set (e5 := if eqs (Getenv e4 "COPILOT_ACCOUNT_TYPE") []
               then Setenv e4 "COPILOT_ACCOUNT_TYPE" (str "individual")
               else e4).
    pose proof (Getenv_default_step env "COPILOT_PROXY_ALL"
                  "COPILOT_PROXY_ALL" (str "false")) as H1.
    pose proof (Getenv_default_step e1 "COPILOT_CLIENT_TYPE"
                  "COPILOT_CLIENT_TYPE" (str "default")) as H2.
    pose proof (Getenv_default_step e2 "DISGUISE_COPILOT_TOKEN_EXPIRES_AT"
                  "DISGUISE_COPILOT_TOKEN_EXPIRES_AT" (str "1800")) as H3.
    pose proof (Getenv_default_step e3 "HTTP_CLIENT_TIMEOUT"
                  "DISGUISE_COPILOT_TOKEN_EXPIRES_AT" (str "60")) as H4.
    pose proof (Getenv_default_step e4 "COPILOT_ACCOUNT_TYPE"
                  "COPILOT_ACCOUNT_TYPE" (str "individual")) as H5.
    fold e1 in H1. fold e2 in H2. fold e3 in H3. fold e4 in H4.
    fold e5 in H5.
    rewrite Getenv_default_step.
    rewrite !H5. cbn [String.eqb Ascii.eqb Bool.eqb andb].
    rewrite !H4. cbn [String.eqb Ascii.eqb Bool.eqb andb].
    rewrite !H3. cbn [String.eqb Ascii.eqb Bool.eqb andb].
    rewrite !H2. cbn [String.eqb Ascii.eqb Bool.eqb andb].
    rewrite !H1. cbn [String.eqb Ascii.eqb Bool.eqb andb].
    reflexivity. }
  split; [|split; [|split; [|split]]].
  - intros key Hin. rewrite Hget.
    assert (Hne : forall k, In k defaultedKeys -> String.eqb key k = false).
    { intros k Hk. apply String.eqb_neq. intros ->. exact (Hin Hk). }
    rewrite !Hne by (simpl; tauto). reflexivity.
  - intros key Hin. rewrite Hget.
    simpl in Hin. destruct Hin as [<-|[<-|[<-|[<-|[<-|[]]]]]];
      cbn [String.eqb Ascii.eqb Bool.eqb andb];
      repeat match goal with
        | |- context [eqs ?a ?b] =>
            let E := fresh "E" in
            destruct (eqs a b) eqn:E; [|apply bool_decide_eq_false in E]
        end; try assumption; discriminate.
  - intros key Hkey Hset. rewrite Hget.
    apply String.eqb_neq in Hkey. rewrite Hkey. cbn [andb].
    pose proof (proj2 (eqs_false _ _) Hset) as Hfalse.
    repeat match goal with
      | |- context [String.eqb key ?k] =>
          let E := fresh "E" in
          destruct (String.eqb key k) eqn:E;
            [apply String.eqb_eq in E; subst key; rewrite Hfalse;
             cbn [String.eqb Ascii.eqb Bool.eqb andb]; reflexivity|];
            cbn [andb]
      end; reflexivity.
  - rewrite Hget. reflexivity.
  - rewrite Hget. cbn [String.eqb Ascii.eqb Bool.eqb andb].
    destruct (eqs (Getenv env "HTTP_CLIENT_TIMEOUT") []); [reflexivity|].
    destruct (eqs (Getenv env "DISGUISE_COPILOT_TOKEN_EXPIRES_AT") []);
      reflexivity.
Qed.

Lemma initDefaultEnv_defaults_witness :
  Getenv (initDefaultEnv
            (envOf [("DISGUISE_COPILOT_TOKEN_EXPIRES_AT", "7200")]))
    "DISGUISE_COPILOT_TOKEN_EXPIRES_AT" = str "60" /\
  Getenv (initDefaultEnv
            (envOf [("DISGUISE_COPILOT_TOKEN_EXPIRES_AT", "7200")]))
    "HTTP_CLIENT_TIMEOUT" = [] /\
  Getenv (initDefaultEnv
            (envOf [("DISGUISE_COPILOT_TOKEN_EXPIRES_AT", "7200");
                    ("HTTP_CLIENT_TIMEOUT", "30")]))
    "DISGUISE_COPILOT_TOKEN_EXPIRES_AT" = str "7200".
Proof.
  pose proof (initDefaultEnv_defaults
                (envOf [("DISGUISE_COPILOT_TOKEN_EXPIRES_AT", "7200")]))
    as (_ & _ & _ & Htimeout & Hexpires).
  pose proof (initDefaultEnv_defaults
                (envOf [("DISGUISE_COPILOT_TOKEN_EXPIRES_AT", "7200");
                        ("HTTP_CLIENT_TIMEOUT", "30")]))
    as (_ & _ & _ & _ & Hexpires').
  split; [rewrite Hexpires; reflexivity|].
  split; [rewrite Htimeout; reflexivity|].
  rewrite Hexpires'. reflexivity.
Defined.

(** ** The token middleware *)

Lemma Index_char_cons (c x : ascii) (s : gostring) :
  Index (x :: s) [c]
  = if Ascii.eqb x c then 0
    else let i := Index s [c] in if i <? 0 then -1 else i + 1.
Proof.
  change (Index (x :: s) [c])
    with (if Ascii.eqb x c && true then 0
          else let i := Index s [c] in if i <? 0 then -1 else i + 1).
  rewrite andb_true_r. reflexivity.
Qed.

Lemma Index_char_first (c : ascii) (a b : gostring) :
  ~ In c a -> Index (a ++ c :: b) [c] = len a.
Proof.
  induction a as [|x a IH]; intros Hc; cbn [app];
    rewrite Index_char_cons.
  - rewrite ascii_eqb_refl. reflexivity.
  - assert (Hx : Ascii.eqb x c = false).
    { apply Ascii.eqb_neq. intros ->. apply Hc. left. reflexivity. }
    assert (Ha : ~ In c a) by (intros Hin; apply Hc; right; exact Hin).
    rewrite Hx, (IH Ha). cbv zeta.
    pose proof (len_nonneg a) as Hge.
    destruct (len a <? 0) eqn:E; [lia|].
    unfold len. simpl length. lia.
Qed.

Lemma Index_char_none (c : ascii) (s : gostring) :
  ~ In c s -> Index s [c] = -1.
Proof.
  induction s as [|x s IH]; intros Hc; [reflexivity|].
  assert (Hx : Ascii.eqb x c = false).
  { apply Ascii.eqb_neq. intros ->. apply Hc. left. reflexivity. }
  assert (Hs : ~ In c s) by (intros Hin; apply Hc; right; exact Hin).
  rewrite Index_char_cons, Hx, (IH Hs). reflexivity.
Qed.

Lemma HasPrefix_true (p s : gostring) :
  HasPrefix s p = true -> exists r, s = p ++ r.
Proof.
  revert s. induction p as [|c p IH]; intros s H.
  - exists s. reflexivity.
  - destruct s as [|x s]; [discriminate|]. simpl in H.
    apply andb_true_iff in H as [Hx Hp]. apply Ascii.eqb_eq in Hx. subst x.
    destruct (IH s Hp) as [r ->]. exists r. reflexivity.
Qed.

(** The first separator of a string is where it is. *)
Lemma first_separator_unique (c : ascii) (a a' b b' : gostring) :
  ~ In c a -> ~ In c a' -> a ++ c :: b = a' ++ c :: b' -> a = a' /\ b = b'.
Proof.
  revert a'. induction a as [|x a IH]; intros a' Ha Ha' E.
  - destruct a' as [|x' a']; simpl in E.
    + injection E as <-. split; reflexivity.
    + injection E as <- _. exfalso. apply Ha'. left. reflexivity.
  - destruct a' as [|x' a']; simpl in E.
    + injection E as -> _. exfalso. apply Ha. left. reflexivity.
    + injection E as <- E.
      destruct (IH a') as [-> ->]; [| |exact E|split; reflexivity].
      * intros Hin. apply Ha. right. exact Hin.
      * intros Hin. apply Ha'. right. exact Hin.
Qed.

Lemma SplitN2_spec (s : gostring) (sep : ascii) :
  (~ In sep s /\ SplitN2 s sep = [s]) \/
  (exists a b, s = a ++ sep :: b /\ ~ In sep a /\ SplitN2 s sep = [a; b]).
Proof.
  induction s as [|c r IH]; simpl.
  - left. split; [intros []|reflexivity].
  - destruct (Ascii.eqb c sep) eqn:E.
    + apply Ascii.eqb_eq in E. subst c. right. exists [], r.
      split; [reflexivity|]. split; [intros []|reflexivity].
    + apply Ascii.eqb_neq in E.
      destruct IH as [[Hno ->]|(a & b & -> & Ha & ->)].
      * left. split; [|reflexivity]. intros [H|H]; [congruence|exact (Hno H)].
      * right. exists (c :: a), b. split; [reflexivity|].
        split; [|reflexivity].
        intros [H|H]; [congruence|exact (Ha H)].
Qed.

(** The allowed keys hold no "=". *)
Lemma allowedTokenKey_plain (key : gostring) :
  allowedTokenKey key = true -> ~ In "="%char key.
Proof.
  unfold allowedTokenKey. rewrite !orb_true_iff, !eqs_true.
  intros H Hin.
  repeat destruct H as [H|H]; subst key; vm_compute in Hin;
    repeat destruct Hin as [Hin|Hin]; try discriminate Hin; exact Hin.
Qed.

Lemma HasPrefix_field (key a b : gostring) :
  ~ In "="%char key -> ~ In "="%char a ->
  HasPrefix (a ++ "="%char :: b) (key ++ str "=") = true -> a = key.
Proof.
  intros Hkey Ha H. apply HasPrefix_true in H as [r E].
  rewrite <- app_assoc in E. change (str "=" ++ r) with ("="%char :: r) in E.
  exact (proj1 (first_separator_unique _ a key b r Ha Hkey E)).
Qed.

Lemma HasPrefix_no_separator (key s : gostring) :
  ~ In "="%char s -> HasPrefix s (key ++ str "=") = false.
Proof.
  intros Hs. destruct (HasPrefix s (key ++ str "=")) eqn:E; [|reflexivity].
  apply HasPrefix_true in E as [r ->]. exfalso. apply Hs.
  rewrite <- app_assoc. apply in_or_app. right. left. reflexivity.
Qed.

(** One pair, read at one key. *)
Lemma parseTokenPair_lookup (m : gmap gostring gostring)
    (pair key : gostring) :
  allowedTokenKey key = true ->
  parseTokenPair m pair !! key
  = if HasPrefix pair (key ++ str "=")
    then Some (drop (length key + 1) pair)
    else m !! key.
Proof.
  intros Hallowed. pose proof (allowedTokenKey_plain key Hallowed) as Hplain.
  unfold parseTokenPair.
  destruct (SplitN2_spec pair "="%char)
    as [[Hno ->]|(a & b & -> & Ha & ->)].
  - rewrite (HasPrefix_no_separator key pair Hno). reflexivity.
  - destruct (decide (a = key)) as [->|Hne].
    + rewrite Hallowed, lookup_insert_eq.
      change (key ++ "="%char :: b) with (key ++ str "=" ++ b).
      rewrite app_assoc, HasPrefix_app.
      replace (length key + 1)%nat with (length (key ++ str "="))
        by (rewrite length_app; reflexivity).
      rewrite drop_app_length. reflexivity.
    + assert (Hp : HasPrefix (a ++ "="%char :: b) (key ++ str "=") = false).
      { destruct (HasPrefix _ _) eqn:E; [|reflexivity].
        exfalso. apply Hne. exact (HasPrefix_field key a b Hplain Ha E). }
      rewrite Hp. destruct (allowedTokenKey a); [|reflexivity].
      apply lookup_insert_ne. exact Hne.
Qed.

Lemma parseTokenPair_other (m : gmap gostring gostring)
    (pair key : gostring) :
  allowedTokenKey key = false -> parseTokenPair m pair !! key = m !! key.
Proof.
  intros Hkey. unfold parseTokenPair.
  destruct (SplitN2 pair "="%char) as [|a [|b [|x rest]]]; try reflexivity.
  destruct (allowedTokenKey a) eqn:Ea; [|reflexivity].
  apply lookup_insert_ne. intros ->. congruence.
Qed.

Lemma fieldValues_cons (key pair : gostring) (pairs : list gostring) :
  fieldValues key (pair :: pairs)
  = if HasPrefix pair (key ++ str "=")
    then drop (length key + 1) pair :: fieldValues key pairs
    else fieldValues key pairs.
Proof.
  unfold fieldValues. simpl.
  destruct (HasPrefix pair (key ++ str "=")); reflexivity.
Qed.

Lemma parseTokenPairs_lookup (pairs : list gostring) (key : gostring) :
  allowedTokenKey key = true ->
  forall m,
    fold_left parseTokenPair pairs m !! key
    = match last (fieldValues key pairs) with
      | Some v => Some v
      | None => m !! key
      end.
Proof.
  intros Hallowed. induction pairs as [|pair pairs IH]; intros m.
  - reflexivity.
  - cbn [fold_left]. rewrite IH, (parseTokenPair_lookup m pair key Hallowed).
    rewrite fieldValues_cons.
    destruct (HasPrefix pair (key ++ str "=")).
    + rewrite last_cons. destruct (last (fieldValues key pairs)); reflexivity.
    + reflexivity.
Qed.

Lemma parseTokenPairs_other (pairs : list gostring) (key : gostring) :
  allowedTokenKey key = false ->
  forall m, fold_left parseTokenPair pairs m !! key = m !! key.
Proof.
  intros Hkey. induction pairs as [|pair pairs IH]; intros m.
  - reflexivity.
  - cbn [fold_left]. rewrite IH. apply parseTokenPair_other. exact Hkey.
Qed.

Lemma parseAuthorizationToken_allowed (token key : gostring) :
  allowedTokenKey key = true ->
  parseAuthorizationToken token !! key
  = last (fieldValues key (Split token ";"%char)).
Proof.
  intros E. unfold parseAuthorizationToken.
  rewrite (parseTokenPairs_lookup _ key E), lookup_empty.
  destruct (last _); reflexivity.
Qed.

(** X18.  The map that parseAuthorizationToken builds: it holds the seven
    keys tid, exp, sku, st, 8kp, chat and u at most, and each of them maps
    to the text after [key=] in the last of the pairs, separated by ";",
    that start with [key=]: a later field overrides an earlier one, and
    the value keeps any further "=". *)
Theorem parseAuthorizationToken_last_wins (token key : gostring) :
  parseAuthorizationToken token !! key
  = if allowedTokenKey key
    then last (fieldValues key (Split token ";"%char))
    else None.
Proof.
  destruct (allowedTokenKey key) eqn:E.
  - exact (parseAuthorizationToken_allowed token key E).
  - unfold parseAuthorizationToken.
    rewrite (parseTokenPairs_other _ key E). apply lookup_empty.
Qed.

(** X19.  The verdict of TokenCheckAuth.  With COPILOT_CLIENT_TYPE github
    and COPILOT_PROXY_ALL not true every request passes, with or without a
    header.  Otherwise a header without a space (a missing header
    included) is answered 401 TokenWrongful, and a header with a space is
    judged on the text after its first space alone: on the last exp field
    of that text, which must parse as an int64 (else 401 TokenWrongful)
    and be at least the current time (else 401 TokenOverdue).  Neither the
    scheme before the space nor any other field, the signature 8kp
    included, has a part in it. *)
Theorem TokenCheckAuth_verdict (env : Env) (now : Z) :
  let bypass :=
    eqs (Getenv env "COPILOT_CLIENT_TYPE") (str "github")
    && negb (ParseBool (Getenv env "COPILOT_PROXY_ALL")) in
  (bypass = true ->
   forall authorization, TokenCheckAuth env now authorization = Next) /\
  (bypass = false ->
   (forall authorization,
      ~ In " "%char authorization ->
      TokenCheckAuth env now authorization = Unauthorized TokenWrongful) /\
   (forall scheme token,
      ~ In " "%char scheme ->
      TokenCheckAuth env now (scheme ++ " "%char :: token)
      = expVerdict now
          (last (fieldValues (str "exp") (Split token ";"%char))))).
Proof.
  intros bypass. unfold TokenCheckAuth. cbv zeta. fold bypass.
  split; [intros ->; reflexivity|].
  intros ->. split.
  - intros authorization Hno.
    destruct (eqs authorization []); [reflexivity|].
    change (str " ") with [" "%char].
    rewrite (Index_char_none _ authorization Hno).
    rewrite orb_true_r. reflexivity.
  - intros scheme token Hno.
    assert (Hne : eqs (scheme ++ " "%char :: token) [] = false).
    { apply eqs_false. intros E. apply app_eq_nil in E as [_ E].
      discriminate E. }
    rewrite Hne. change (str " ") with [" "%char].
    rewrite (Index_char_first _ scheme token Hno).
    assert (Hlen : (len (scheme ++ " "%char :: token) <? len scheme) = false).
    { apply Z.ltb_ge. rewrite len_app. pose proof (len_nonneg (" "%char :: token)).
      lia. }
    assert (Hlast : (len scheme =? -1) = false).
    { apply Z.eqb_neq. pose proof (len_nonneg scheme). lia. }
    rewrite Hlen, Hlast. cbn [orb].
    replace (Z.to_nat (len scheme + 1)) with (length (scheme ++ [" "%char])).
    2:{ rewrite length_app. unfold len. simpl. lia. }
    change (scheme ++ " "%char :: token) with (scheme ++ [" "%char] ++ token).
    rewrite app_assoc, drop_app_length.
    unfold mapIndex.
    rewrite (parseAuthorizationToken_allowed token (str "exp") eq_refl).
    unfold expVerdict, isExpired.
    destruct (last _) as [expStr|]; cbn [default from_option id].
    + destruct (ParseInt expStr) as [exp [e|]]; [reflexivity|].
      destruct (now >? exp); reflexivity.
    + reflexivity.
Qed.

Lemma TokenCheckAuth_verdict_witness :
  TokenCheckAuth (envOf [("COPILOT_CLIENT_TYPE", "default");
                         ("COPILOT_PROXY_ALL", "false")])
    1700000000
    (str "Bearer tid=abc;exp=1600000000;8kp=forged;exp=1700000000")
  = Next /\
  TokenCheckAuth (envOf [("COPILOT_CLIENT_TYPE", "default");
                         ("COPILOT_PROXY_ALL", "false")])
    1700000001
    (str "Bearer tid=abc;exp=1600000000;8kp=forged;exp=1700000000")
  = Unauthorized TokenOverdue /\
  TokenCheckAuth (envOf [("COPILOT_CLIENT_TYPE", "default");
                         ("COPILOT_PROXY_ALL", "false")])
    1700000000 (str "Bearer")
  = Unauthorized TokenWrongful /\
  TokenCheckAuth (envOf [("COPILOT_CLIENT_TYPE", "github");
                         ("COPILOT_PROXY_ALL", "false")])
    1700000000 []
  = Next.
Proof.
  destruct (TokenCheckAuth_verdict
              (envOf [("COPILOT_CLIENT_TYPE", "default");
                      ("COPILOT_PROXY_ALL", "false")]) 1700000000)
    as [_ Hcheck].
  destruct (Hcheck eq_refl) as [Hnone Hsome].
  destruct (TokenCheckAuth_verdict
              (envOf [("COPILOT_CLIENT_TYPE", "default");
                      ("COPILOT_PROXY_ALL", "false")]) 1700000001)
    as [_ Hcheck'].
  destruct (Hcheck' eq_refl) as [_ Hsome'].
  destruct (TokenCheckAuth_verdict
              (envOf [("COPILOT_CLIENT_TYPE", "github");
                      ("COPILOT_PROXY_ALL", "false")]) 1700000000)
    as [Hbypass _].
  change (str "Bearer tid=abc;exp=1600000000;8kp=forged;exp=1700000000")
    with (str "Bearer" ++ " "%char
          :: str "tid=abc;exp=1600000000;8kp=forged;exp=1700000000").
  split; [|split; [|split]].
  - rewrite (Hsome (str "Bearer")
               (str "tid=abc;exp=1600000000;8kp=forged;exp=1700000000")).
    + reflexivity.
    + vm_compute. intuition discriminate.
  - rewrite (Hsome' (str "Bearer")
               (str "tid=abc;exp=1600000000;8kp=forged;exp=1700000000")).
    + reflexivity.
    + vm_compute. intuition discriminate.
  - apply Hnone. vm_compute. intuition discriminate.
  - apply Hbypass. reflexivity.
Defined.
